(** * E2E-Framework: configuration resolver, driver lifecycle manager and
      wait/interaction layer, embedded in Rocq.

    The development follows the three Python modules
    - [framework/config/config_manager.py]  (module [Config]),
    - [framework/core/driver_factory.py]    (module [Factory]),
    - [framework/core/base_page.py]         (module [Page]).

    Python values are an inductive type, dictionaries are association lists
    in insertion order, raised exceptions are the left summand of a result,
    and the browser behind Selenium is an interface (a type class) whose
    operations the page methods call.  The configuration is read twice:
    as a tree of values (module [Config]), and as objects on a heap, where
    one dictionary can sit in two places (modules [Objects] and
    [Resolver]). *)

From Stdlib Require Import String Ascii List ZArith Bool Lia.
Import ListNotations.
Local Open Scope string_scope.

(** ** Python strings and values *)

Module Py.

(** [str.upper] and [str.lower] on strings of ASCII characters: a-z and
    A-Z are mapped, every other byte is left as it is.  On other strings
    Python uses the case mapping of Unicode, which [Unicode.Casing] below
    stands for. *)
Definition is_lower (c : ascii) : bool :=
  (97 <=? nat_of_ascii c)%nat && (nat_of_ascii c <=? 122)%nat.

Definition is_upper (c : ascii) : bool :=
  (65 <=? nat_of_ascii c)%nat && (nat_of_ascii c <=? 90)%nat.

Definition upper_char (c : ascii) : ascii :=
  if is_lower c then ascii_of_nat (nat_of_ascii c - 32) else c.

Definition lower_char (c : ascii) : ascii :=
  if is_upper c then ascii_of_nat (nat_of_ascii c + 32) else c.

Fixpoint map_chars (f : ascii -> ascii) (s : string) : string :=
  match s with
  | EmptyString => EmptyString
  | String c r => String (f c) (map_chars f r)
  end.

Definition upper (s : string) : string := map_chars upper_char s.
Definition lower (s : string) : string := map_chars lower_char s.

(** [s.replace(a, b)] for one-character [a] and [b]. *)
Definition replace_char (a b : ascii) (s : string) : string :=
  map_chars (fun c => if Ascii.eqb c a then b else c) s.

(** [s.split(sep)] for a one-character separator: the pieces between the
    separators, empty pieces included; never the empty list. *)
Fixpoint split (sep : ascii) (s : string) : list string :=
  match s with
  | EmptyString => [EmptyString]
  | String c r =>
      if Ascii.eqb c sep then EmptyString :: split sep r
      else match split sep r with
           | [] => [String c EmptyString]
           | piece :: rest => String c piece :: rest
           end
  end.

(** [needle in haystack] on two strings. *)
Fixpoint is_infix (needle hay : string) : bool :=
  String.prefix needle hay ||
  match hay with
  | EmptyString => false
  | String _ r => is_infix needle r
  end.

(** The values a YAML document and the configuration defaults are made of.
    A dictionary keeps its items in insertion order. *)
#[local] Unset Elimination Schemes.
Inductive pyval : Type :=
| PNone
| PBool (b : bool)
| PInt (z : Z)
| PStr (s : string)
| PList (l : list pyval)
| PDict (d : list (string * pyval)).
#[local] Set Elimination Schemes.

Definition dict : Type := list (string * pyval).

(** Python truth value, as [if v:] and [v or w] test it. *)
Definition truthy (v : pyval) : bool :=
  match v with
  | PNone => false
  | PBool b => b
  | PInt z => negb (z =? 0)%Z
  | PStr s => negb (s =? "")
  | PList l => match l with [] => false | _ => true end
  | PDict d => match d with [] => false | _ => true end
  end.

(** The first item stored under a key. *)
Fixpoint assoc {A : Type} (k : string) (l : list (string * A)) : option A :=
  match l with
  | [] => None
  | (k', v) :: r => if k' =? k then Some v else assoc k r
  end.

Definition dict_get (k : string) (d : dict) : option pyval := assoc k d.

Definition dict_mem (k : string) (d : dict) : bool :=
  match dict_get k d with Some _ => true | None => false end.

(** [d[k] = v]: an existing key keeps its position, a new one goes last. *)
Fixpoint dict_set (k : string) (v : pyval) (d : dict) : dict :=
  match d with
  | [] => [(k, v)]
  | (k', v') :: r =>
      if k' =? k then (k', v) :: r else (k', v') :: dict_set k v r
  end.

(** The exceptions subscripting and membership tests can raise. *)
Inductive lookup_error : Type :=
| KeyError (k : string)
| TypeError
| IndexError.

Definition result (A : Type) : Type := (lookup_error + A)%type.

Definition bind {A B} (r : result A) (f : A -> result B) : result B :=
  match r with
  | inl e => inl e
  | inr a => f a
  end.

(** [k in c] for a string [k]: key membership on a dict, substring test on
    a str, element membership on a list, TypeError on the scalars. *)
Definition contains (c : pyval) (k : string) : result bool :=
  match c with
  | PDict d => inr (dict_mem k d)
  | PStr s => inr (is_infix k s)
  | PList l =>
      inr (existsb (fun v => match v with PStr s => s =? k | _ => false end) l)
  | PNone | PBool _ | PInt _ => inl TypeError
  end.

(** [c[k]] for a string [k]: only a dict can be subscripted by a string. *)
Definition getitem (c : pyval) (k : string) : result pyval :=
  match c with
  | PDict d =>
      match dict_get k d with
      | Some v => inr v
      | None => inl (KeyError k)
      end
  | _ => inl TypeError
  end.

(** [c[k] = v] for a string [k]. *)
Definition setitem (c : pyval) (k : string) (v : pyval) : result pyval :=
  match c with
  | PDict d => inr (PDict (dict_set k v d))
  | _ => inl TypeError
  end.

End Py.

Notation "'let?' x ':=' c 'in' k" := (Py.bind c (fun x => k))
  (at level 10, x name, c at level 100, k at level 200).

(** ** framework/config/config_manager.py *)

Module Config.
Import Py.

(** [os.environ]: the first binding of a name is the one [os.getenv] sees. *)
Definition environ : Type := list (string * string).

Definition getenv (name : string) (env : environ) : option string :=
  Py.assoc name env.

(** [_load_env_variables]: [load_dotenv] adds the variables of the .env
    file, when there is one, without overriding those already set.
    [dotenv] is the mapping read from the file, each name once;
    [Resolver._load_env_variables] below starts from the bindings of the
    file. *)
Definition _load_env_variables (dotenv : option environ) (env : environ)
  : environ :=
  match dotenv with
  | Some vars => (env ++ vars)%list
  | None => env
  end.

(** [_load_config_file]: [files] gives, for an environment name, the
    document [yaml.safe_load] reads from [<name>_config.yml], or [None]
    when the file is missing or cannot be read; the class starts with
    [_config = {}]. *)
Definition _load_config_file (files : string -> option pyval)
    (env : environ) : pyval :=
  let name := match getenv "TEST_ENV" env with
              | Some e => e
              | None => "dev"
              end in
  match files name with
  | None => PDict []
  | Some doc => if truthy doc then doc else PDict []
  end.

Definition defaults : list (string * dict) :=
  [ ("browser",
      [ ("type", PStr "chrome");
        ("headless", PBool false);
        ("timeout", PInt 10);
        ("page_load_timeout", PInt 30) ]);
    ("app",
      [ ("url", PStr "https://www.saucedemo.com");
        ("env", PStr "dev") ]);
    ("selenium",
      [ ("implicit_wait", PInt 10);
        ("explicit_wait", PInt 10);
        ("page_load_timeout", PInt 30) ]);
    ("reporting",
      [ ("screenshots_on_failure", PBool true);
        ("video_recording", PBool false);
        ("allure_results_dir", PStr "allure-results") ]);
    ("execution",
      [ ("parallel", PBool false);
        ("workers", PInt 4);
        ("retry_failed", PBool true);
        ("max_retries", PInt 2) ]);
    ("logging",
      [ ("level", PStr "INFO");
        ("file", PStr "logs/test_execution.log");
        ("console", PBool true) ]) ].

(** The inner loop of [_set_defaults]:
    [for key, value in values.items(): if key not in self._config[section]:
    self._config[section][key] = value].  The section is mutated in place;
    here the updated section is stored back under its name. *)
Fixpoint merge_keys (section : string) (values : dict) (config : pyval)
  : result pyval :=
  match values with
  | [] => inr config
  | (key, value) :: rest =>
      let? sec := getitem config section in
      let? present := contains sec key in
      let? config' := (if present then inr config
                       else let? sec' := setitem sec key value in
                            setitem config section sec') in
      merge_keys section rest config'
  end.

(** The outer loop of [_set_defaults], over any table of defaults. *)
Fixpoint merge_sections (defs : list (string * dict)) (config : pyval)
  : result pyval :=
  match defs with
  | [] => inr config
  | (section, values) :: rest =>
      let? present := contains config section in
      let? config' := (if present then merge_keys section values config
                       else setitem config section (PDict values)) in
      merge_sections rest config'
  end.

Definition _set_defaults (config : pyval) : result pyval :=
  merge_sections defaults config.

Record ConfigManager : Type := mkConfigManager {
  _initialized : bool;
  _config : pyval
}.

(** What [__new__] makes on the first construction. *)
Definition fresh : ConfigManager :=
  {| _initialized := false; _config := PDict [] |}.

(** [__init__] on the process environment and the singleton: nothing is
    done on a singleton that is initialized already.  When [_set_defaults]
    raises, the exception leaves [__init__] and no manager is handed out
    (the module-level [config = ConfigManager()] fails); what is left in
    the half-merged singleton is not modelled. *)
Definition __init__ (dotenv : option environ) (files : string -> option pyval)
    (env : environ) (self : ConfigManager)
  : environ * result ConfigManager :=
  if _initialized self then (env, inr self)
  else
    let env1 := _load_env_variables dotenv env in
    let loaded := _load_config_file files env1 in
    (env1,
     let? merged := _set_defaults loaded in
     inr {| _initialized := true; _config := merged |}).

(** [key.upper().replace('.', '_')]. *)
Definition env_key (key : string) : string :=
  replace_char "." "_" (upper key).

(** [for k in keys: value = value[k]]. *)
Fixpoint navigate (keys : list string) (value : pyval) : result pyval :=
  match keys with
  | [] => inr value
  | k :: rest => let? v := getitem value k in navigate rest v
  end.

(** [get(key, default)]; [except (KeyError, TypeError)] lets any other
    exception through. *)
Definition get (env : environ) (self : ConfigManager) (key : string)
    (default : pyval) : result pyval :=
  match getenv (env_key key) env with
  | Some env_value => inr (PStr env_value)
  | None =>
      match navigate (split "." key) (_config self) with
      | inr value => inr value
      | inl (KeyError _) => inr default
      | inl TypeError => inr default
      | inl e => inl e
      end
  end.

(** The body of [set] on the list of keys.  Python walks down the nested
    dictionaries and assigns in the last one; each dictionary on the way is
    shared with its parent, so the assignment shows through the root.  Here
    the changed child is stored back under its key, which is the same
    dictionary as long as no dictionary occurs twice in the configuration.
    [keys[-1]] of an empty list raises IndexError. *)
Fixpoint set_path (keys : list string) (value : pyval) (config : pyval)
  : result pyval :=
  match keys with
  | [] => inl IndexError
  | k :: rest =>
      match rest with
      | [] => setitem config k value
      | _ :: _ =>
          let? present := contains config k in
          let? config1 := (if present then inr config
                           else setitem config k (PDict [])) in
          let? child := getitem config1 k in
          let? child' := set_path rest value child in
          setitem config1 k child'
      end
  end.

(** [set(key, value)]: an exception leaves the configuration as it was
    (every level created on the way is followed by success). *)
Definition set (self : ConfigManager) (key : string) (value : pyval)
  : ConfigManager * result unit :=
  match set_path (split "." key) value (_config self) with
  | inr config' =>
      ({| _initialized := _initialized self; _config := config' |}, inr tt)
  | inl e => (self, inl e)
  end.

(** *** Notions used to state the precedence properties *)

(** The value a document gives to key [k] of section [s]. *)
Definition file_value (doc : pyval) (s k : string) : option pyval :=
  match doc with
  | PDict d =>
      match dict_get s d with
      | Some (PDict sd) => dict_get k sd
      | _ => None
      end
  | _ => None
  end.

(** The built-in default of key [k] of section [s]. *)
Definition default_in (defs : list (string * dict)) (s k : string)
  : option pyval :=
  match assoc s defs with
  | Some values => dict_get k values
  | None => None
  end.

Definition builtin_default (s k : string) : option pyval :=
  default_in defaults s k.

(** The document is a mapping in which section [s] is left out or is a
    mapping itself. *)
Definition fillable (doc : pyval) (s : string) : bool :=
  match doc with
  | PDict d =>
      match dict_get s d with
      | None => true
      | Some (PDict _) => true
      | Some _ => false
      end
  | _ => false
  end.

(** *** Sample runs *)

(** No .env file, no configuration file. *)
Definition no_files (name : string) : option pyval := None.

(** A [dev_config.yml] that chooses Firefox. *)
Definition dev_file (name : string) : option pyval :=
  if name =? "dev"
  then Some (PDict [("browser", PDict [("type", PStr "firefox")])])
  else None.

(** A [dev_config.yml] whose [browser] section is a text, not a mapping;
    the names of the four defaults occur in the text. *)
Definition text_section_file (name : string) : option pyval :=
  if name =? "dev"
  then Some (PDict [("browser",
                     PStr "type headless timeout page_load_timeout")])
  else None.

(** The manager [config = ConfigManager()] builds with nothing on disk. *)
Definition stock : ConfigManager :=
  {| _initialized := true;
     _config := PDict (map (fun sv => (fst sv, PDict (snd sv))) defaults) |}.

End Config.

(** ** Selenium, as far as the framework uses it *)

Module Selenium.

(** [selenium.webdriver.common.by.By]. *)
Inductive By : Type :=
| ID | XPATH | LINK_TEXT | PARTIAL_LINK_TEXT
| NAME | TAG_NAME | CLASS_NAME | CSS_SELECTOR.

Definition locator : Type := (By * string)%type.

(** An element handle: the reference the driver hands out for a DOM node. *)
Definition handle : Type := nat.

(** The exception classes met here; all of them derive from [Exception],
    so [except Exception] catches every value of [exn].  Conditions that
    are not [Exception]s (KeyboardInterrupt, SystemExit) are not modelled. *)
Inductive exn_class : Type :=
| TimeoutException
| NoSuchElementException
| StaleElementReferenceException
| ElementClickInterceptedException
| ElementNotInteractableException
| InvalidElementStateException
| JavascriptException
| WebDriverException
| ValueError.

(** A raised exception: its class and its message (its payload). *)
Record exn : Type := Raise { exn_class_of : exn_class; exn_msg : string }.

Definition is_timeout (e : exn) : bool :=
  match exn_class_of e with TimeoutException => true | _ => false end.

(** Whether the text [s] occurs in what the exception carries. *)
Definition mentions (e : exn) (s : string) : bool := Py.is_infix s (exn_msg e).

(** *** loguru *)

Inductive level : Type := DEBUG | INFO | WARNING | ERROR.

(** The values an f-string interpolates. *)
Inductive arg : Type :=
| ALocator (l : locator)
| AInt (z : Z)
| AStr (s : string)
| ABool (b : bool)
| AExn (e : exn).

(** A log record: level, the f-string with [{}] for each interpolation,
    and the interpolated values in order. *)
Record record : Type := Log { lvl : level; template : string; args : list arg }.

(** *** Computations that change a state and may raise.  The state changes
    made before a raise stay, as in Python. *)
Definition M (S A : Type) : Type := S -> S * (exn + A).

Definition ret {S A} (a : A) : M S A := fun s => (s, inr a).

Definition raise {S A} (e : exn) : M S A := fun s => (s, inl e).

Definition bind {S A B} (c : M S A) (k : A -> M S B) : M S B :=
  fun s => match c s with
           | (s', inr a) => k a s'
           | (s', inl e) => (s', inl e)
           end.

(** [try: c  except <classes accepted by catches> as e: handler e]. *)
Definition try_except {S A} (c : M S A) (catches : exn -> bool)
    (handler : exn -> M S A) : M S A :=
  fun s => match c s with
           | (s', inr a) => (s', inr a)
           | (s', inl e) => if catches e then handler e s' else (s', inl e)
           end.

(** [try: c  finally: f]. *)
Definition try_finally {S A} (c : M S A) (f : S -> S) : M S A :=
  fun s => match c s with (s', r) => (f s', r) end.

(** [WebDriverWait(driver, timeout)]: polls every 0.5 s until the deadline.
    With evaluations that take next to no time, the condition is first
    tried at once and then again after each of [polls timeout] sleeps. *)
Definition polls (timeout : Z) : nat := Z.to_nat (2 * timeout).

End Selenium.

Declare Scope sel_scope.
Delimit Scope sel_scope with sel.
Notation "x <- c ;; k" := (Selenium.bind c (fun x => k))
  (at level 61, c at next level, right associativity) : sel_scope.
Notation "c ;; k" := (Selenium.bind c (fun _ => k))
  (at level 61, right associativity) : sel_scope.

(** ** framework/core/base_page.py *)

Module Page.
Import Selenium.
Local Open Scope sel_scope.

(** The browser session behind [self.driver], seen through the calls
    [BasePage] makes.  [B] is the state of the browser and its page.
    Queries are answered from the page as it is; the calls that act on an
    element may raise.  A session that breaks down while a condition is
    being polled is not modelled. *)
Class WebDriver (B : Type) : Type := {
  (** [driver.find_elements(by, value)], in document order *)
  find_elements : B -> locator -> list handle;
  (** [element.is_displayed()], [element.is_enabled()] *)
  is_displayed : B -> handle -> bool;
  is_enabled : B -> handle -> bool;
  (** [driver.current_url] *)
  current_url : B -> string;
  (** what the page has become one poll interval later *)
  sleep : B -> B;
  (** [element.click()] *)
  element_click : handle -> M B unit;
  (** [driver.execute_script(script, element)] *)
  execute_script : string -> handle -> M B unit;
  (** [element.clear()], [element.send_keys(text)] *)
  element_clear : handle -> M B unit;
  element_send_keys : handle -> string -> M B unit;
  (** [element.text], [element.get_attribute(name)] *)
  element_text : handle -> M B string;
  element_get_attribute : handle -> string -> M B (option string);
  (** the content of a form field, [element.get_property("value")] *)
  field_value : B -> handle -> string
}.

(** The state a page method runs in: the browser and the log written so
    far (oldest record first). *)
Record state (B : Type) : Type := State { browser : B; log : list record }.
Arguments State {B} _ _.
Arguments browser {B} _.
Arguments log {B} _.

Record BasePage : Type := mkBasePage { timeout : Z }.

Section Methods.
Context {B : Type} `{WebDriver B}.

Definition logger (l : level) (t : string) (a : list arg) : M (state B) unit :=
  fun s => (State (browser s) (log s ++ [Log l t a]), inr tt).

(** A driver call, run on the browser of the state. *)
Definition on_driver {A} (c : M B A) : M (state B) A :=
  fun s => match c (browser s) with
           | (b', r) => (State b' (log s), r)
           end.

(** *** [selenium.webdriver.support.expected_conditions]: what each
    condition returns on the present page, [None] for a false value or
    an ignored NoSuchElementException. *)

Definition visibility_of_element_located (l : locator) (b : B)
  : option handle :=
  match find_elements b l with
  | [] => None
  | e :: _ => if is_displayed b e then Some e else None
  end.

Definition presence_of_all_elements_located (l : locator) (b : B)
  : option (list handle) :=
  match find_elements b l with
  | [] => None
  | es => Some es
  end.

Definition element_to_be_clickable (l : locator) (b : B) : option handle :=
  match find_elements b l with
  | [] => None
  | e :: _ => if is_displayed b e && is_enabled b e then Some e else None
  end.

(** The value is [True] when there is no such element and the element
    itself when it is there but not displayed. *)
Definition invisibility_of_element_located (l : locator) (b : B)
  : option (option handle) :=
  match find_elements b l with
  | [] => Some None
  | e :: _ => if is_displayed b e then None else Some (Some e)
  end.

Definition url_contains (text : string) (b : B) : option unit :=
  if Py.is_infix text (current_url b) then Some tt else None.

(** [WebDriverWait.until(method)] as the page methods call it, without a
    message: try the condition, return its value when true, else sleep and
    try again until the deadline, then raise [TimeoutException(message)]
    with the default message, the empty string.  (The screenshot and the
    stack trace the driver may attach to the exception are not modelled.) *)
Fixpoint until_loop {A} (method : B -> option A) (sleeps : nat) (b : B)
  : B * (exn + A) :=
  match method b with
  | Some value => (b, inr value)
  | None =>
      match sleeps with
      | O => (b, inl (Raise TimeoutException ""))
      | S n => until_loop method n (sleep b)
      end
  end.

Definition until {A} (timeout : Z) (method : B -> option A)
  : M (state B) A :=
  on_driver (until_loop method (polls timeout)).

(** [timeout or self.timeout]: the argument when it is given and true,
    that is not [None] and not [0]. *)
Definition timeout_or (timeout : option Z) (self : BasePage) : Z :=
  match timeout with
  | Some t => if (t =? 0)%Z then Page.timeout self else t
  | None => Page.timeout self
  end.

(** [except TimeoutException: <log>; raise]. *)
Definition reraise_logged {A} (l : level) (t : string) (a : list arg)
    (e : exn) : M (state B) A :=
  logger l t a ;; raise e.

(** *** Wait methods *)

Definition wait_for_element (self : BasePage) (locator : locator)
    (timeout : option Z) : M (state B) handle :=
  let timeout := timeout_or timeout self in
  logger DEBUG "Waiting for element: {}" [ALocator locator] ;;
  try_except
    (until timeout (visibility_of_element_located locator))
    is_timeout
    (reraise_logged ERROR "Element not found within {}s: {}"
       [AInt timeout; ALocator locator]).

Definition wait_for_elements (self : BasePage) (locator : locator)
    (timeout : option Z) : M (state B) (list handle) :=
  let timeout := timeout_or timeout self in
  logger DEBUG "Waiting for elements: {}" [ALocator locator] ;;
  try_except
    (until timeout (presence_of_all_elements_located locator))
    is_timeout
    (reraise_logged ERROR "Elements not found within {}s: {}"
       [AInt timeout; ALocator locator]).

Definition wait_for_element_clickable (self : BasePage)
    (locator : locator) (timeout : option Z) : M (state B) handle :=
  let timeout := timeout_or timeout self in
  logger DEBUG "Waiting for element to be clickable: {}" [ALocator locator] ;;
  try_except
    (until timeout (element_to_be_clickable locator))
    is_timeout
    (reraise_logged ERROR "Element not clickable within {}s: {}"
       [AInt timeout; ALocator locator]).

(** What the boolean-typed waits return: Python's [False], or the true
    value the condition gave. *)
Inductive answer (A : Type) : Type :=
| False_
| True_ (value : A).
Arguments False_ {A}.
Arguments True_ {A} _.

Definition answer_bool {A} (a : answer A) : bool :=
  match a with False_ => false | True_ _ => true end.

Definition wait_for_element_invisible (self : BasePage)
    (locator : locator) (timeout : option Z)
  : M (state B) (answer (option handle)) :=
  let timeout := timeout_or timeout self in
  logger DEBUG "Waiting for element to be invisible: {}" [ALocator locator] ;;
  try_except
    (v <- until timeout (invisibility_of_element_located locator) ;;
     ret (True_ v))
    is_timeout
    (fun _ =>
       logger ERROR "Element still visible after {}s: {}"
         [AInt timeout; ALocator locator] ;;
       ret False_).

Definition wait_for_url_contains (self : BasePage) (text : string)
    (timeout : option Z) : M (state B) (answer unit) :=
  let timeout := timeout_or timeout self in
  logger DEBUG "Waiting for URL to contain: {}" [AStr text] ;;
  try_except
    (v <- until timeout (url_contains text) ;; ret (True_ v))
    is_timeout
    (fun _ =>
       logger ERROR "URL doesn't contain '{}' after {}s"
         [AStr text; AInt timeout] ;;
       ret False_).

(** *** Element interaction methods *)

(** [try: element.click()  except Exception as e: <log>;
    self.driver.execute_script("arguments[0].click();", element)]. *)
Definition click (self : BasePage) (locator : locator) (timeout : option Z)
  : M (state B) unit :=
  element <- wait_for_element_clickable self locator timeout ;;
  logger INFO "Clicking element: {}" [ALocator locator] ;;
  try_except
    (on_driver (element_click element))
    (fun _ => true)
    (fun e =>
       logger WARNING "Regular click failed, trying JavaScript click: {}"
         [AExn e] ;;
       on_driver (execute_script "arguments[0].click();" element)).

Definition enter_text (self : BasePage) (locator : locator) (text : string)
    (clear_first : bool) (timeout : option Z) : M (state B) unit :=
  element <- wait_for_element self locator timeout ;;
  logger INFO "Entering text into: {}" [ALocator locator] ;;
  (if clear_first then on_driver (element_clear element) else ret tt) ;;
  on_driver (element_send_keys element text).

Definition get_text (self : BasePage) (locator : locator)
    (timeout : option Z) : M (state B) string :=
  element <- wait_for_element self locator timeout ;;
  text <- on_driver (element_text element) ;;
  logger DEBUG "Got text from {}: {}" [ALocator locator; AStr text] ;;
  ret text.

Definition get_attribute (self : BasePage) (locator : locator)
    (attribute : string) (timeout : option Z) : M (state B) (option string) :=
  element <- wait_for_element self locator timeout ;;
  value <- on_driver (element_get_attribute element attribute) ;;
  logger DEBUG "Got attribute '{}' from {}: {}"
    [AStr attribute; ALocator locator;
     AStr (match value with Some v => v | None => "None" end)] ;;
  ret value.

Definition is_element_visible (self : BasePage) (locator : locator)
    (timeout : option Z) : M (state B) bool :=
  let timeout := timeout_or timeout self in
  try_except
    (until timeout (visibility_of_element_located locator) ;; ret true)
    is_timeout
    (fun _ => ret false).

(** [find_element] raises NoSuchElementException when nothing matches. *)
Definition is_element_present (self : BasePage) (locator : locator)
  : M (state B) bool :=
  fun s => match find_elements (browser s) locator with
           | [] => (s, inr false)
           | _ :: _ => (s, inr true)
           end.

(** The shape the three raising waits share: a record before the wait, a
    record when it expires.  Used to reason about the three at once. *)
Definition raising_wait {A} (method : B -> option A) (t : Z)
    (before after : record) : M (state B) A :=
  logger (lvl before) (template before) (args before) ;;
  try_except (until t method) is_timeout
    (reraise_logged (lvl after) (template after) (args after)).

(** The condition [method] stays false on the page [b] and on the pages the
    next [sleeps] poll intervals bring. *)
Fixpoint never_within {A} (method : B -> option A) (sleeps : nat) (b : B)
  : Prop :=
  method b = None /\
  match sleeps with
  | O => True
  | S n => never_within method n (sleep b)
  end.

(** What a driver must do on a form field for [enter_text]: on a field
    that accepts input, [clear] empties it and leaves it accepting input,
    and [send_keys] appends the text to its content. *)
Class TextInput (accepts_input : B -> handle -> Prop) : Prop := {
  clear_empties : forall b h,
    accepts_input b h ->
    exists b', element_clear h b = (b', inr tt) /\
               field_value b' h = "" /\ accepts_input b' h;
  send_keys_appends : forall b h text,
    accepts_input b h ->
    exists b', element_send_keys h text b = (b', inr tt) /\
               field_value b' h = field_value b h ++ text
}.
End Methods.

Arguments False_ {A}.
Arguments True_ {A} _.

End Page.


(** ** A small browser to run the page methods on *)

Module Sim.
Import Selenium Page.

Definition By_eqb (a b : By) : bool :=
  match a, b with
  | ID, ID | XPATH, XPATH | LINK_TEXT, LINK_TEXT
  | PARTIAL_LINK_TEXT, PARTIAL_LINK_TEXT | NAME, NAME | TAG_NAME, TAG_NAME
  | CLASS_NAME, CLASS_NAME | CSS_SELECTOR, CSS_SELECTOR => true
  | _, _ => false
  end.

Definition locator_eqb (a b : locator) : bool :=
  By_eqb (fst a) (fst b) && (snd a =? snd b).

(** A DOM node: its handle, the locators that find it, what it shows and
    how it answers clicks ([None]: the click goes through). *)
Record node : Type := Node {
  id : handle;
  found_by : list locator;
  displayed : bool;
  enabled : bool;
  editable : bool;
  value : string;
  text : string;
  attributes : list (string * string);
  native_click : option exn;
  script_click : option exn
}.

(** The page now, the pages the next poll intervals bring (after the last
    one the page stays as it is), the address, and the clicks received. *)
Record window : Type := Window {
  page : list node;
  upcoming : list (list node);
  url : string;
  clicked : list handle
}.

Definition node_of (b : window) (h : handle) : option node :=
  find (fun n => id n =? h)%nat (page b).

Definition with_page (b : window) (p : list node) : window :=
  {| page := p; upcoming := upcoming b; url := url b; clicked := clicked b |}.

Definition update (h : handle) (f : node -> node) (b : window) : window :=
  with_page b (map (fun n => if (id n =? h)%nat then f n else n) (page b)).

Definition set_value (v : string) (n : node) : node :=
  {| id := id n; found_by := found_by n; displayed := displayed n;
     enabled := enabled n; editable := editable n; value := v;
     text := text n; attributes := attributes n;
     native_click := native_click n; script_click := script_click n |}.

Definition stale : exn := Raise StaleElementReferenceException "stale element".

(** A driver call on the node behind a handle. *)
Definition on_node {A} (h : handle) (k : node -> window -> window * (exn + A))
  : M window A :=
  fun b => match node_of b h with
           | Some n => k n b
           | None => (b, inl stale)
           end.

Definition accepts (n : node) : bool := displayed n && enabled n && editable n.

#[export] Instance sim_driver : WebDriver window := {
  find_elements b l :=
    map id (filter (fun n => existsb (locator_eqb l) (found_by n)) (page b));
  is_displayed b h :=
    match node_of b h with Some n => displayed n | None => false end;
  is_enabled b h :=
    match node_of b h with Some n => enabled n | None => false end;
  current_url := url;
  sleep b :=
    match upcoming b with
    | [] => b
    | p :: later =>
        {| page := p; upcoming := later; url := url b; clicked := clicked b |}
    end;
  element_click h := on_node h (fun n b =>
    match native_click n with
    | Some e => (b, inl e)
    | None => ({| page := page b; upcoming := upcoming b; url := url b;
                  clicked := clicked b ++ [h] |}, inr tt)
    end);
  execute_script _ h := on_node h (fun n b =>
    match script_click n with
    | Some e => (b, inl e)
    | None => ({| page := page b; upcoming := upcoming b; url := url b;
                  clicked := clicked b ++ [h] |}, inr tt)
    end);
  element_clear h := on_node h (fun n b =>
    if accepts n then (update h (set_value "") b, inr tt)
    else (b, inl (Raise InvalidElementStateException "invalid element state")));
  element_send_keys h t := on_node h (fun n b =>
    if accepts n then (update h (set_value (value n ++ t)) b, inr tt)
    else (b, inl (Raise ElementNotInteractableException
                    "element not interactable")));
  element_text h := on_node h (fun n b => (b, inr (text n)));
  element_get_attribute h a := on_node h (fun n b => (b, inr (Py.assoc a (attributes n))));
  field_value b h :=
    match node_of b h with Some n => value n | None => "" end
}.

Definition accepts_input (b : window) (h : handle) : Prop :=
  match node_of b h with Some n => accepts n = true | None => False end.

(** The login page of the application under test, rendered after two poll
    intervals; the login button rejects native clicks. *)
Definition USERNAME_INPUT : locator := (ID, "user-name").
Definition LOGIN_BUTTON : locator := (ID, "login-button").
Definition ERROR_MESSAGE : locator := (CSS_SELECTOR, "h3[data-test='error']").

Definition intercepted : exn :=
  Raise ElementClickInterceptedException "element click intercepted".

Definition username_node (content : string) : node :=
  {| id := 1; found_by := [USERNAME_INPUT; (NAME, "user-name")];
     displayed := true; enabled := true; editable := true;
     value := content; text := ""; attributes := [("placeholder", "Username")];
     native_click := None; script_click := None |}.

Definition button_node : node :=
  {| id := 2; found_by := [LOGIN_BUTTON];
     displayed := true; enabled := true; editable := false;
     value := "Login"; text := ""; attributes := [];
     native_click := Some intercepted; script_click := None |}.

Definition login_page (content : string) : list node :=
  [username_node content; button_node].

Definition loading (content : string) : window :=
  {| page := []; upcoming := [[]; login_page content];
     url := "https://www.saucedemo.com"; clicked := [] |}.

Definition start (b : window) : state window := State b [].

Definition page10 : BasePage := mkBasePage 10.

End Sim.

(** ** framework/core/driver_factory.py *)

Module Factory.
Import Selenium.
Local Open Scope sel_scope.

(** The option classes: [ChromeOptions], [FirefoxOptions], [EdgeOptions]. *)
Inductive family : Type := Chrome | Firefox | Edge.

Record options : Type := Options {
  opt_family : family;
  arguments : list string;
  (** names given to [add_experimental_option] and [set_preference] *)
  settings : list string
}.

(** A browser session: what [webdriver.Chrome(...)] and the like return. *)
Definition session : Type := nat.

(** The Selenium side of the factory.  [W] is the state of the machine and
    of the grid: which sessions are open, what can be started. *)
Class Backend (W : Type) : Type := {
  (** [webdriver.Chrome / Firefox / Edge (service=..., options=...)], after
      the driver manager has installed the driver binary *)
  start_local : options -> M W session;
  (** [webdriver.Remote(command_executor=url, options=...)] *)
  start_remote : option string -> options -> M W session;
  implicitly_wait : session -> Z -> M W unit;
  set_page_load_timeout : session -> Z -> M W unit;
  set_script_timeout : session -> Z -> M W unit;
  maximize_window : session -> M W unit;
  session_id : session -> string;
  (** [driver.quit()] *)
  quit : session -> M W unit
}.

Record DriverFactory : Type := mkDriverFactory {
  browser : string;
  headless : bool;
  remote_url : option string;
  driver : option session
}.

(** [__init__(browser="chrome", headless=False, remote_url=None)]. *)
Definition __init__ (browser : string) (headless : bool)
    (remote_url : option string) : DriverFactory :=
  {| browser := Py.lower browser; headless := headless;
     remote_url := remote_url; driver := None |}.

(** The state a factory method runs in. *)
Record state (W : Type) : Type := State {
  world : W;
  self : DriverFactory;
  log : list record
}.
Arguments State {W} _ _ _.
Arguments world {W} _.
Arguments self {W} _.
Arguments log {W} _.

Section Methods.
Context {W : Type} `{Backend W}.

Definition logger (l : level) (t : string) (a : list arg) : M (state W) unit :=
  fun s => (State (world s) (self s) (log s ++ [Log l t a]), inr tt).

Definition on_backend {A} (c : M W A) : M (state W) A :=
  fun s => match c (world s) with
           | (w', r) => (State w' (self s) (log s), r)
           end.

Definition this : M (state W) DriverFactory := fun s => (s, inr (self s)).

(** [self.driver = d]. *)
Definition set_driver (d : option session) : M (state W) unit :=
  fun s =>
    (State (world s)
       {| browser := browser (self s); headless := headless (self s);
          remote_url := remote_url (self s); driver := d |}
       (log s), inr tt).

Definition chrome_options (headless : bool) : options :=
  {| opt_family := Chrome;
     arguments :=
       ["--disable-gpu"; "--no-sandbox"; "--disable-dev-shm-usage";
        "--disable-extensions"; "--disable-infobars";
        "--disable-notifications"; "--incognito"]
       ++ (if headless then ["--headless=new"; "--window-size=1920,1080"]
           else []);
     settings := ["excludeSwitches"; "prefs"] |}.

Definition firefox_options (headless : bool) : options :=
  {| opt_family := Firefox;
     arguments :=
       if headless then ["--headless"; "--width=1920"; "--height=1080"]
       else [];
     settings := ["dom.webnotifications.enabled"; "media.volume_scale"] |}.

Definition edge_options (headless : bool) : options :=
  {| opt_family := Edge;
     arguments :=
       ["--disable-gpu"; "--no-sandbox"; "--disable-dev-shm-usage"]
       ++ (if headless then ["--headless"; "--window-size=1920,1080"]
           else []);
     settings := [] |}.

Definition _create_chrome_driver : M (state W) session :=
  f <- this ;; on_backend (start_local (chrome_options (headless f))).

Definition _create_firefox_driver : M (state W) session :=
  f <- this ;; on_backend (start_local (firefox_options (headless f))).

Definition _create_edge_driver : M (state W) session :=
  f <- this ;; on_backend (start_local (edge_options (headless f))).

(** [ChromeOptions() if self.browser == "chrome" else FirefoxOptions()],
    with [--headless] added when asked for. *)
Definition remote_options (f : DriverFactory) : options :=
  {| opt_family := if browser f =? "chrome" then Chrome else Firefox;
     arguments := if headless f then ["--headless"] else [];
     settings := [] |}.

(** [webdriver.Remote(command_executor=self.remote_url, options=options)];
    the session is returned and not stored in [self.driver]. *)
Definition _create_remote_driver : M (state W) session :=
  f <- this ;;
  logger INFO "Connecting to remote WebDriver at {}"
    [AStr (match remote_url f with Some u => u | None => "None" end)] ;;
  on_backend (start_remote (remote_url f) (remote_options f)).

Definition _configure_driver : M (state W) unit :=
  f <- this ;;
  match driver f with
  | None => ret tt
  | Some d =>
      on_backend (implicitly_wait d 10) ;;
      on_backend (set_page_load_timeout d 30) ;;
      on_backend (set_script_timeout d 30) ;;
      (if negb (headless f) then on_backend (maximize_window d) else ret tt) ;;
      logger INFO "Driver configured successfully: {}" [AStr (session_id d)]
  end.

Definition driver_map : list (string * M (state W) session) :=
  [ ("chrome", _create_chrome_driver);
    ("firefox", _create_firefox_driver);
    ("edge", _create_edge_driver) ].

Definition unsupported (browser : string) : exn :=
  Raise ValueError
    ("Unsupported browser: " ++ browser ++ ". Supported browsers: "
     ++ String.concat ", " (map fst driver_map)).

(** [if self.remote_url:] is true for a url that is not [None] and not
    empty. *)
Definition has_remote (f : DriverFactory) : bool :=
  match remote_url f with
  | Some u => negb (u =? "")
  | None => false
  end.

Definition create_driver : M (state W) session :=
  f <- this ;;
  logger INFO "Creating {} driver (headless={})"
    [AStr (browser f); ABool (headless f)] ;;
  if has_remote f then _create_remote_driver
  else
    match Py.assoc (browser f) driver_map with
    | None => raise (unsupported (browser f))
    | Some create =>
        d <- create ;;
        set_driver (Some d) ;;
        _configure_driver ;;
        ret d
    end.

(** [if self.driver: try: ... except Exception as e: ... finally:
    self.driver = None]. *)
Definition quit_driver : M (state W) unit :=
  f <- this ;;
  match driver f with
  | None => ret tt
  | Some d =>
      try_finally
        (try_except
           (logger INFO "Quitting driver: {}" [AStr (session_id d)] ;;
            on_backend (quit d))
           (fun _ => true)
           (fun e => logger ERROR "Error quitting driver: {}" [AExn e]))
        (fun s =>
           State (world s)
             {| browser := browser (self s); headless := headless (self s);
                remote_url := remote_url (self s); driver := None |}
             (log s))
  end.

(** [__enter__] and [__exit__]. *)
Definition __enter__ : M (state W) session := create_driver.
Definition __exit__ : M (state W) unit := quit_driver.

End Methods.
End Factory.

(** ** A small machine to run the factory on *)

Module Lab.
Import Selenium Factory.

(** The sessions that are open, with the options each was started with;
    whether a grid answers; what [quit] raises, if anything. *)
Record machine : Type := Machine {
  open_sessions : list (session * options);
  next_session : session;
  grid_up : bool;
  quit_error : option exn
}.

Definition open_session (o : options) : M machine session :=
  fun m =>
    ({| open_sessions := open_sessions m ++ [(next_session m, o)];
        next_session := S (next_session m);
        grid_up := grid_up m; quit_error := quit_error m |},
     inr (next_session m)).

Definition no_op : M machine unit := fun m => (m, inr tt).

#[export] Instance lab_backend : Backend machine := {
  start_local := open_session;
  start_remote url o := fun m =>
    if grid_up m then open_session o m
    else (m, inl (Raise WebDriverException "connection refused"));
  implicitly_wait _ _ := no_op;
  set_page_load_timeout _ _ := no_op;
  set_script_timeout _ _ := no_op;
  maximize_window _ := no_op;
  session_id d := match d with O => "session-0" | _ => "session-n" end;
  quit d := fun m =>
    match quit_error m with
    | Some e => (m, inl e)
    | None =>
        ({| open_sessions :=
              filter (fun so => negb (fst so =? d)%nat) (open_sessions m);
            next_session := next_session m;
            grid_up := grid_up m; quit_error := None |}, inr tt)
    end
}.

Definition idle : machine :=
  {| open_sessions := []; next_session := 0; grid_up := true;
     quit_error := None |}.

Definition GRID : string := "http://localhost:4444/wd/hub".

Definition boot (f : DriverFactory) : state machine := State idle f [].

End Lab.

(** ** framework/config/config_manager.py, the section methods *)

Module ConfigExt.
Import Py Config.

(** The exceptions of the section methods: those of subscripting, and
    [AttributeError] for a value that has no [get] or [update] method. *)
Inductive section_error : Type :=
| Lookup (e : lookup_error)
| AttributeError.


(** [d.update(values)]: the items of [values] are stored one after the
    other. *)
Definition dict_update (values d : dict) : dict :=
  fold_left (fun acc kv => dict_set (fst kv) (snd kv) acc) values d.

(** [update_section]: [if section not in self._config:
    self._config[section] = {}] and then
    [self._config[section].update(values)].  The only change made before
    an exception can come is the empty section, and [update] on it does
    not raise; so an exception leaves the configuration as it was. *)
Definition update_section (self : ConfigManager) (section : string)
    (values : dict) : ConfigManager * (section_error + unit) :=
  let config := _config self in
  match (let? present := contains config section in
         let? config1 := (if present then inr config
                          else setitem config section (PDict [])) in
         let? sec := getitem config1 section in
         inr (config1, sec)) with
  | inl e => (self, inl (Lookup e))
  | inr (config1, PDict sd) =>
      match setitem config1 section (PDict (dict_update values sd)) with
      | inr config' =>
          ({| _initialized := _initialized self; _config := config' |}, inr tt)
      | inl e => (self, inl (Lookup e))
      end
  | inr (_, _) => (self, inl AttributeError)
  end.

(** *** Notions used to state the properties of [set] and [_set_defaults] *)



(** Every section of the table is left out of the document or is a
    dictionary in it. *)
Definition mergeable (defs : list (string * dict)) (doc : pyval) : bool :=
  forallb (fun sv => fillable doc (fst sv)) defs.



End ConfigExt.

(** ** framework/core/base_page.py, the alert methods *)

Module PageExt.
Import Selenium Page.
Local Open Scope sel_scope.

(** The alert of the session, seen through the calls [BasePage] makes. *)
Class Alerts (B : Type) : Type := {
  (** whether [driver.switch_to.alert] finds an alert *)
  alert_present : B -> bool;
  (** [driver.switch_to.alert] followed by [alert.accept()],
      [alert.dismiss()], [alert.text] *)
  alert_accept : M B unit;
  alert_dismiss : M B unit;
  alert_text : M B string
}.

Section Methods.
Context {B : Type} `{WebDriver B} `{Alerts B}.

(** The condition [method] is false on the page [b] and on the pages of
    the next poll intervals, and gives [v] for the first time on the page
    that [k] poll intervals bring. *)
Definition holds_first_at {A} (method : B -> option A) (k : nat) (b : B)
    (v : A) : Prop :=
  (forall j, (j < k)%nat -> method (Nat.iter j sleep b) = None) /\
  method (Nat.iter k sleep b) = Some v.

(** The condition gives a true value on one of the pages on which a wait
    with [sleeps] sleeps tries it. *)
Definition holds_within {A} (method : B -> option A) (sleeps : nat) (b : B)
  : Prop :=
  exists k v, (k <= sleeps)%nat /\ method (Nat.iter k sleep b) = Some v.

(** [EC.alert_is_present()]: the alert, or [False] when there is none. *)
Definition alert_is_present (b : B) : option unit :=
  if alert_present b then Some tt else None.

(** The [try] block holds the wait and the call on the alert, so a
    [TimeoutException] of either is caught. *)
Definition accept_alert (self : BasePage) (timeout : option Z)
  : M (state B) unit :=
  let timeout := timeout_or timeout self in
  logger INFO "Accepting alert" [] ;;
  try_except
    (until timeout alert_is_present ;; on_driver alert_accept)
    is_timeout
    (fun _ => logger WARNING "No alert present to accept" []).

Definition dismiss_alert (self : BasePage) (timeout : option Z)
  : M (state B) unit :=
  let timeout := timeout_or timeout self in
  logger INFO "Dismissing alert" [] ;;
  try_except
    (until timeout alert_is_present ;; on_driver alert_dismiss)
    is_timeout
    (fun _ => logger WARNING "No alert present to dismiss" []).

Definition get_alert_text (self : BasePage) (timeout : option Z)
  : M (state B) (option string) :=
  let timeout := timeout_or timeout self in
  try_except
    (until timeout alert_is_present ;;
     text <- on_driver alert_text ;;
     ret (Some text))
    is_timeout
    (fun _ => logger WARNING "No alert present" [] ;; ret None).

End Methods.
End PageExt.

(** ** framework/pages/login_page.py *)

Module Login.
Import Selenium Page.
Local Open Scope sel_scope.

Definition URL : string := "https://www.saucedemo.com".

Definition USERNAME_INPUT : locator := (ID, "user-name").
Definition PASSWORD_INPUT : locator := (ID, "password").
Definition LOGIN_BUTTON : locator := (ID, "login-button").
Definition ERROR_MESSAGE : locator := (CSS_SELECTOR, "h3[data-test='error']").
Definition ERROR_BUTTON : locator := (CSS_SELECTOR, ".error-button").
Definition LOGO : locator := (CSS_SELECTOR, ".login_logo").
Definition BOT_LOGO : locator := (CSS_SELECTOR, ".bot_column").
Definition PRODUCTS_TITLE : locator := (CSS_SELECTOR, ".title").
Definition INVENTORY_CONTAINER : locator := (ID, "inventory_container").

Section Methods.
Context {B : Type} `{WebDriver B}.

(** [LoginPage(driver)]: [super().__init__(driver)] leaves the timeout at
    its default of 10 seconds. *)
Definition __init__ : M (state B) BasePage :=
  logger INFO "Initialized LoginPage" [] ;;
  ret (mkBasePage 10).

Definition wait_for_page_load (self : BasePage) : M (state B) unit :=
  wait_for_element self LOGO (Some 10%Z) ;;
  wait_for_element self USERNAME_INPUT (Some 10%Z) ;;
  logger INFO "Login page loaded successfully" [].

Definition enter_username (self : BasePage) (username : string)
  : M (state B) BasePage :=
  logger INFO "Entering username: {}" [AStr username] ;;
  enter_text self USERNAME_INPUT username true None ;;
  ret self.

Definition enter_password (self : BasePage) (password : string)
  : M (state B) BasePage :=
  logger INFO "Entering password" [] ;;
  enter_text self PASSWORD_INPUT password true None ;;
  ret self.

Definition click_login (self : BasePage) : M (state B) unit :=
  logger INFO "Clicking login button" [] ;;
  click self LOGIN_BUTTON None.

Definition login (self : BasePage) (username password : string)
  : M (state B) unit :=
  logger INFO "Logging in with user: {}" [AStr username] ;;
  enter_username self username ;;
  enter_password self password ;;
  click_login self.

Definition is_error_displayed (self : BasePage) : M (state B) bool :=
  is_element_visible self ERROR_MESSAGE (Some 3%Z).

Definition get_error_message (self : BasePage) : M (state B) string :=
  shown <- is_error_displayed self ;;
  if shown then
    error_text <- get_text self ERROR_MESSAGE None ;;
    logger INFO "Error message: {}" [AStr error_text] ;;
    ret error_text
  else ret "".

Definition clear_error (self : BasePage) : M (state B) BasePage :=
  shown <- is_error_displayed self ;;
  (if shown then
     logger INFO "Clearing error message" [] ;;
     click self ERROR_BUTTON None
   else ret tt) ;;
  ret self.

(** [try: ... return success  except Exception as e: <log>; return False]. *)
Definition is_login_successful (self : BasePage) : M (state B) bool :=
  try_except
    (wait_for_element self INVENTORY_CONTAINER (Some 10%Z) ;;
     products_title <- get_text self PRODUCTS_TITLE None ;;
     let success := products_title =? "Products" in
     (if success
      then logger INFO "Login successful - Products page loaded" []
      else logger WARNING "Login may have failed - unexpected page" []) ;;
     ret success)
    (fun _ => true)
    (fun e =>
       logger ERROR "Login verification failed: {}" [AExn e] ;;
       ret false).

Definition get_current_url : M (state B) string :=
  fun s => (s, inr (current_url (browser s))).

Definition is_on_inventory_page : M (state B) bool :=
  url <- get_current_url ;;
  ret (Py.is_infix "inventory.html" url).

Definition elements_to_check : list (locator * string) :=
  [ (USERNAME_INPUT, "Username field");
    (PASSWORD_INPUT, "Password field");
    (LOGIN_BUTTON, "Login button");
    (LOGO, "Logo") ].

(** The loop of [validate_page_elements], with [all_present] so far. *)
Fixpoint check_elements (self : BasePage) (elements : list (locator * string))
    (all_present : bool) : M (state B) bool :=
  match elements with
  | [] => ret all_present
  | (locator, name) :: rest =>
      present <- is_element_present self locator ;;
      if negb present then
        logger ERROR "Missing element: {}" [AStr name] ;;
        check_elements self rest false
      else
        logger DEBUG "âœ“ {} present" [AStr name] ;;
        check_elements self rest all_present
  end.

Definition validate_page_elements (self : BasePage) : M (state B) bool :=
  logger INFO "Validating login page elements" [] ;;
  check_elements self elements_to_check true.

(** The record the loop writes for an element on the page [b]. *)
Definition check_record (b : B) (element : locator * string) : record :=
  match find_elements b (fst element) with
  | [] => Log ERROR "Missing element: {}" [AStr (snd element)]
  | _ :: _ => Log DEBUG "âœ“ {} present" [AStr (snd element)]
  end.

Definition on_page (b : B) (element : locator * string) : bool :=
  match find_elements b (fst element) with
  | [] => false
  | _ :: _ => true
  end.

End Methods.
End Login.

(** ** A small browser with an alert *)

Module SimAlert.
Import Selenium Page PageExt Sim.

(** A window of [Sim], the alert that is open now (its text) and the
    alerts the next poll intervals bring. *)
Record dialog : Type := Dialog {
  base : Sim.window;
  alert_now : option string;
  alert_later : list (option string)
}.

(** A driver call on the window under the alert. *)
Definition on_base {A} (c : M Sim.window A) : M dialog A :=
  fun b => match c (base b) with
           | (w, r) => (Dialog w (alert_now b) (alert_later b), r)
           end.

Definition no_alert : exn := Raise WebDriverException "no such alert".

Definition close_alert : M dialog unit :=
  fun b => match alert_now b with
           | Some _ => (Dialog (base b) None (alert_later b), inr tt)
           | None => (b, inl no_alert)
           end.

#[export] Instance dialog_driver : WebDriver dialog := {
  find_elements b := find_elements (base b);
  is_displayed b := is_displayed (base b);
  is_enabled b := is_enabled (base b);
  current_url b := current_url (base b);
  sleep b :=
    match alert_later b with
    | [] => Dialog (sleep (base b)) (alert_now b) []
    | a :: later => Dialog (sleep (base b)) a later
    end;
  element_click h := on_base (element_click h);
  execute_script script h := on_base (execute_script script h);
  element_clear h := on_base (element_clear h);
  element_send_keys h t := on_base (element_send_keys h t);
  element_text h := on_base (element_text h);
  element_get_attribute h a := on_base (element_get_attribute h a);
  field_value b := field_value (base b)
}.

#[export] Instance dialog_alerts : Alerts dialog := {
  alert_present b := match alert_now b with Some _ => true | None => false end;
  alert_accept := close_alert;
  alert_dismiss := close_alert;
  alert_text := fun b => match alert_now b with
                         | Some t => (b, inr t)
                         | None => (b, inl no_alert)
                         end
}.

(** The login page without an alert, now or later. *)
Definition quiet : dialog := Dialog (Sim.loading "") None [].

End SimAlert.

(** ** Notions used to state the properties of the driver factory *)

Module FactoryExt.
Import Selenium Factory.

(** A computation that leaves the fields of the factory as they are. *)
Definition keeps_self {W A : Type} (c : M (state W) A) : Prop :=
  forall s s' r, c s = (s', r) -> self s' = self s.

(** The factory [f] with [d] in [self.driver]. *)
Definition holding (f : DriverFactory) (d : option session) : DriverFactory :=
  {| browser := browser f; headless := headless f;
     remote_url := remote_url f; driver := d |}.

(** The options of the three local drivers, by the name in [driver_map]. *)
Definition local_options (browser : string) (headless : bool)
  : option options :=
  if "chrome" =? browser then Some (chrome_options headless)
  else if "firefox" =? browser then Some (firefox_options headless)
  else if "edge" =? browser then Some (edge_options headless)
  else None.

End FactoryExt.

(** ** A machine in kiosk mode: windows cannot be maximized *)

Module Kiosk.
Import Selenium Factory Lab.

Record kiosk : Type := InKiosk { machine_of : machine }.

Definition lift {A} (c : M machine A) : M kiosk A :=
  fun k => match c (machine_of k) with
           | (m, r) => (InKiosk m, r)
           end.

#[export] Instance kiosk_backend : Backend kiosk := {
  start_local o := lift (start_local o);
  start_remote url o := lift (start_remote url o);
  implicitly_wait d t := lift (implicitly_wait d t);
  set_page_load_timeout d t := lift (set_page_load_timeout d t);
  set_script_timeout d t := lift (set_script_timeout d t);
  maximize_window d := fun k =>
    (k, inl (Raise WebDriverException "failed to change window state"));
  session_id := session_id (W := machine);
  quit d := lift (quit d)
}.

End Kiosk.

(** ** Forms: what editing one field leaves alone *)

Module Forms.
Import Selenium Page.

Section Laws.
Context {B : Type} `{WebDriver B}.

(** The page [b'] comes from [b] by a [clear] or a [send_keys] on the
    element [h] that went through. *)
Definition edits (h : handle) (b b' : B) : Prop :=
  element_clear h b = (b', inr tt) \/
  exists text, element_send_keys h text b = (b', inr tt).

(** What a driver must keep when a field is edited, for a form with more
    than one field: the elements the locators find, what is displayed and
    enabled, and the content and the readiness of every other field. *)
Class SteadyForm (accepts_input : B -> handle -> Prop) : Prop := {
  steady_elements : forall h b b',
    edits h b b' -> forall l, find_elements b' l = find_elements b l;
  steady_display : forall h b b',
    edits h b b' ->
    forall h', is_displayed b' h' = is_displayed b h' /\
               is_enabled b' h' = is_enabled b h';
  steady_fields : forall h b b',
    edits h b b' ->
    forall h', h' <> h ->
               field_value b' h' = field_value b h' /\
               (accepts_input b h' -> accepts_input b' h')
}.

End Laws.

(** The login form of the application under test, with what the two
    fields hold. *)
Definition password_node (content : string) : Sim.node :=
  {| Sim.id := 3; Sim.found_by := [(ID, "password")];
     Sim.displayed := true; Sim.enabled := true; Sim.editable := true;
     Sim.value := content; Sim.text := ""; Sim.attributes := [];
     Sim.native_click := None; Sim.script_click := None |}.

Definition login_form (username password : string) : Sim.window :=
  {| Sim.page := [Sim.username_node username; password_node password;
                  Sim.button_node];
     Sim.upcoming := []; Sim.url := "https://www.saucedemo.com";
     Sim.clicked := [] |}.

End Forms.

(** ** Notions used to state that merged defaults stay merged *)

Module MergeNotions.
Import Py Config.

(** Every key of [values] is [in] the section value [sec]. *)
Definition holds_keys (sec : pyval) (values : dict) : Prop :=
  forall key, In key (map fst values) -> contains sec key = inr true.

(** The configuration is a dictionary that has the section of the table
    entry, and the section has all the keys of the entry. *)
Definition settled (entry : string * dict) (c : pyval) : Prop :=
  exists d sec,
    c = PDict d /\ dict_get (fst entry) d = Some sec /\
    holds_keys sec (snd entry).

(** From [c] to [c'] sections and keys were only added. *)
Definition grows (c c' : pyval) : Prop :=
  exists d d',
    c = PDict d /\ c' = PDict d' /\
    forall s sec,
      dict_get s d = Some sec ->
      exists sec',
        dict_get s d' = Some sec' /\
        forall key, contains sec key = inr true -> contains sec' key = inr true.

End MergeNotions.

(** ** Case mapping of Python strings *)

Module Unicode.

(** A Python [str] is held as the bytes the operating system gets for it,
    its UTF-8 encoding.  A string with a lone surrogate has no such bytes
    ([os.getenv] raises UnicodeEncodeError on it) and is not a string of
    this development.  [str.upper] is the case mapping of Unicode, which
    no table here spells out; on a string of ASCII characters it is
    [Py.upper].  The methods below take the mapping as an interface and
    rely on nothing else. *)
Fixpoint is_ascii (s : string) : bool :=
  match s with
  | EmptyString => true
  | String c r => (nat_of_ascii c <? 128)%nat && is_ascii r
  end.

Class Casing : Type := {
  str_upper : string -> string;
  str_upper_ascii : forall s, is_ascii s = true -> str_upper s = Py.upper s
}.

(** The mapping that leaves every non-ASCII byte alone, for runs on ASCII
    keys. *)
Definition ascii_casing : Casing :=
  {| str_upper := Py.upper; str_upper_ascii := fun s _ => eq_refl |}.

End Unicode.

(** ** Python objects that are shared: dictionaries, lists and sets *)

Module Objects.

Definition address : Type := nat.

(** A value is a scalar or a reference to a container.  [VOpaque] stands
    for a float, a bytes object, a date or a timestamp, which YAML can
    give as well: such a value supports no [in] with a string, no
    subscript by a string and has no [update]; only its truth value
    matters. *)
Inductive value : Type :=
| VNone
| VBool (b : bool)
| VInt (z : Z)
| VStr (s : string)
| VOpaque (truth : bool)
| VRef (a : address).

(** The items of a dictionary under their string keys, in insertion order.
    Items under keys that are not strings are never reached by the string
    lookups of the code and are left out. *)
Definition items : Type := list (string * value).

(** [OList] is a list or a tuple. *)
Inductive object : Type :=
| ODict (d : items)
| OList (l : list value)
| OSet (l : list value).

(** The objects in the order they were made; a reference is a position. *)
Definition heap : Type := list object.

Inductive error : Type :=
| KeyError (k : string)
| TypeError
| IndexError
| AttributeError.

Definition result (A : Type) : Type := (error + A)%type.

Definition lookup {A : Type} (k : string) (d : list (string * A)) : option A :=
  Py.assoc k d.

Definition mem {A : Type} (k : string) (d : list (string * A)) : bool :=
  match lookup k d with Some _ => true | None => false end.

(** [d[k] = v]: an existing key keeps its position, a new one goes last. *)
Fixpoint put {A : Type} (k : string) (v : A) (d : list (string * A))
  : list (string * A) :=
  match d with
  | [] => [(k, v)]
  | (k', v') :: r =>
      if k' =? k then (k', v) :: r else (k', v') :: put k v r
  end.

(** The object a value refers to.  An address past the end of the heap
    does not occur in a running program; the operations treat it as an
    object without any method. *)
Definition fetch (h : heap) (v : value) : option object :=
  match v with
  | VRef a => nth_error h a
  | _ => None
  end.

(** In-place change of the object at an address. *)
Fixpoint store (a : address) (o : object) (h : heap) {struct h} : heap :=
  match h with
  | [] => []
  | x :: r =>
      match a with
      | O => o :: r
      | S a' => x :: store a' o r
      end
  end.

(** A new object. *)
Definition alloc (o : object) (h : heap) : heap * value :=
  ((h ++ [o])%list, VRef (length h)).

Definition has_string (k : string) (l : list value) : bool :=
  existsb (fun v => match v with VStr s => s =? k | _ => false end) l.

(** Python truth value, as [v or w] tests it. *)
Definition truthy (h : heap) (v : value) : bool :=
  match v with
  | VNone => false
  | VBool b => b
  | VInt z => negb (z =? 0)%Z
  | VStr s => negb (s =? "")
  | VOpaque t => t
  | VRef a =>
      match nth_error h a with
      | Some (ODict []) | Some (OList []) | Some (OSet []) => false
      | _ => true
      end
  end.

(** [k in c] for a string [k]: key membership on a dict, element
    membership on a list or a set, substring test on a str, TypeError on
    the other scalars. *)
Definition contains (h : heap) (c : value) (k : string) : result bool :=
  match c with
  | VStr s => inr (Py.is_infix k s)
  | VRef a =>
      match nth_error h a with
      | Some (ODict d) => inr (mem k d)
      | Some (OList l) | Some (OSet l) => inr (has_string k l)
      | None => inl TypeError
      end
  | VNone | VBool _ | VInt _ | VOpaque _ => inl TypeError
  end.

(** [c[k]] for a string [k]: only a dict can be subscripted by a string. *)
Definition getitem (h : heap) (c : value) (k : string) : result value :=
  match fetch h c with
  | Some (ODict d) =>
      match lookup k d with
      | Some v => inr v
      | None => inl (KeyError k)
      end
  | _ => inl TypeError
  end.

(** [c[k] = v] for a string [k]: the dictionary [c] refers to is changed
    where it is, for everyone who holds a reference to it. *)
Definition setitem (h : heap) (c : value) (k : string) (v : value)
  : result heap :=
  match c with
  | VRef a =>
      match nth_error h a with
      | Some (ODict d) => inr (store a (ODict (put k v d)) h)
      | _ => inl TypeError
      end
  | _ => inl TypeError
  end.

(** [d.update(values)]: the items of [values] are stored one after the
    other. *)
Definition dict_update (values d : items) : items :=
  fold_left (fun acc kv => put (fst kv) (snd kv) acc) values d.

(** [s.update(values)] on a set: the keys of [values] that the set lacks
    are added. *)
Definition set_update (keys : list string) (l : list value) : list value :=
  fold_left (fun acc k => if has_string k acc then acc
                          else (acc ++ [VStr k])%list) keys l.

(** [c.update(values)] for a dictionary [values]: dictionaries and sets
    have the method. *)
Definition update (h : heap) (c : value) (values : items)
  : heap * result unit :=
  match c with
  | VRef a =>
      match nth_error h a with
      | Some (ODict d) => (store a (ODict (dict_update values d)) h, inr tt)
      | Some (OSet l) =>
          (store a (OSet (set_update (map fst values) l)) h, inr tt)
      | _ => (h, inl AttributeError)
      end
  | _ => (h, inl AttributeError)
  end.

(** [if k not in c: c[k] = {}]; the empty dictionary is made before the
    assignment is tried. *)
Definition ensure (h : heap) (c : value) (k : string) : heap * result unit :=
  match contains h c k with
  | inl e => (h, inl e)
  | inr true => (h, inr tt)
  | inr false =>
      let (h1, empty) := alloc (ODict []) h in
      match setitem h1 c k empty with
      | inr h2 => (h2, inr tt)
      | inl e => (h1, inl e)
      end
  end.

(** *** Heaps without references into nothing *)

Definition valid (h : heap) (v : value) : bool :=
  match v with
  | VRef a => (a <? length h)%nat
  | _ => true
  end.

Definition closed_object (h : heap) (o : object) : bool :=
  match o with
  | ODict d => forallb (fun kv => valid h (snd kv)) d
  | OList l | OSet l => forallb (valid h) l
  end.

(** Every reference held by an object leads to an object. *)
Definition closed (h : heap) : bool := forallb (closed_object h) h.

End Objects.

(** ** framework/config/config_manager.py, on shared dictionaries

    [Config] above reads a configuration as a tree, which is what it is
    as long as no dictionary sits in two places.  A YAML document with an
    alias, or a caller who stores one dictionary under two keys, makes
    two places share one dictionary, and then an assignment through one
    place shows through the other.  Here the methods run on the heap of
    objects, and the environment key is built with the case mapping of
    [Unicode]. *)

Module Resolver.
Import Objects Unicode.

Definition environ : Type := Config.environ.
Definition getenv : string -> environ -> option string := Config.getenv.

(** *** The .env file *)

(** The bindings python-dotenv parses from the file, in file order, values
    unquoted and expanded; a name without [=] has no value. *)
Definition bindings : Type := list (string * option string).

(** [dotenv_values]: the bindings as a dictionary, so of two bindings of
    one name the later one counts. *)
Definition dotenv_values (file : bindings) : bindings :=
  fold_left (fun d kv => put (fst kv) (snd kv) d) file [].

(** [for k, v in values.items(): if k in os.environ: continue;
    if v is not None: os.environ[k] = v], which is [load_dotenv] without
    [override]. *)
Definition set_as_environment_variables (values : bindings) (env : environ)
  : environ :=
  fold_left (fun e kv =>
               match getenv (fst kv) e, snd kv with
               | None, Some v => (e ++ [(fst kv, v)])%list
               | _, _ => e
               end) values env.

Definition _load_env_variables (dotenv : option bindings) (env : environ)
  : environ :=
  match dotenv with
  | Some file => set_as_environment_variables (dotenv_values file) env
  | None => env
  end.

(** *** The configuration file *)

(** What [yaml.safe_load] builds from a file: the objects of the document,
    with references counted from the first of them, and the value of the
    document.  Aliases of the document show as two references to one
    object. *)
Definition document : Type := (heap * value)%type.

Definition relocate (n : nat) (v : value) : value :=
  match v with
  | VRef a => VRef (n + a)
  | _ => v
  end.

Definition relocate_object (n : nat) (o : object) : object :=
  match o with
  | ODict d => ODict (map (fun kv => (fst kv, relocate n (snd kv))) d)
  | OList l => OList (map (relocate n) l)
  | OSet l => OSet (map (relocate n) l)
  end.

(** The objects of the document are made after those the heap has. *)
Definition safe_load (doc : document) (h : heap) : heap * value :=
  ((h ++ map (relocate_object (length h)) (fst doc))%list,
   relocate (length h) (snd doc)).

(** [_load_config_file], returning the new [self._config]: [files] gives,
    for an environment name, the document of [<name>_config.yml], or
    [None] when the file is missing or cannot be read, and then [_config]
    stays what it was. *)
Definition _load_config_file (files : string -> option document)
    (env : environ) (h : heap) (config : value) : heap * value :=
  let name := match getenv "TEST_ENV" env with
              | Some e => e
              | None => "dev"
              end in
  match files name with
  | None => (h, config)
  | Some doc =>
      let (h1, v) := safe_load doc h in
      if truthy h1 v then (h1, v) else alloc (ODict []) h1
  end.

(** *** Defaults *)

Definition defaults : list (string * items) :=
  [ ("browser",
      [ ("type", VStr "chrome");
        ("headless", VBool false);
        ("timeout", VInt 10);
        ("page_load_timeout", VInt 30) ]);
    ("app",
      [ ("url", VStr "https://www.saucedemo.com");
        ("env", VStr "dev") ]);
    ("selenium",
      [ ("implicit_wait", VInt 10);
        ("explicit_wait", VInt 10);
        ("page_load_timeout", VInt 30) ]);
    ("reporting",
      [ ("screenshots_on_failure", VBool true);
        ("video_recording", VBool false);
        ("allure_results_dir", VStr "allure-results") ]);
    ("execution",
      [ ("parallel", VBool false);
        ("workers", VInt 4);
        ("retry_failed", VBool true);
        ("max_retries", VInt 2) ]);
    ("logging",
      [ ("level", VStr "INFO");
        ("file", VStr "logs/test_execution.log");
        ("console", VBool true) ]) ].

(** The inner loop of [_set_defaults]:
    [for key, value in values.items(): if key not in self._config[section]:
    self._config[section][key] = value].  [self._config[section]] is
    evaluated for the test and again for the assignment. *)
Fixpoint merge_keys (config : value) (section : string) (values : items)
    (h : heap) : heap * result unit :=
  match values with
  | [] => (h, inr tt)
  | (key, value) :: rest =>
      match getitem h config section with
      | inl e => (h, inl e)
      | inr sec =>
          match contains h sec key with
          | inl e => (h, inl e)
          | inr true => merge_keys config section rest h
          | inr false =>
              match getitem h config section with
              | inl e => (h, inl e)
              | inr sec' =>
                  match setitem h sec' key value with
                  | inl e => (h, inl e)
                  | inr h' => merge_keys config section rest h'
                  end
              end
          end
      end
  end.

(** The outer loop of [_set_defaults], over any table of defaults.  The
    dictionary of a section is a new object of this call; the one of a
    section the configuration has already is dropped after the loop, so
    only those that are stored are made here. *)
Fixpoint merge_sections (config : value) (defs : list (string * items))
    (h : heap) : heap * result unit :=
  match defs with
  | [] => (h, inr tt)
  | (section, values) :: rest =>
      match contains h config section with
      | inl e => (h, inl e)
      | inr false =>
          let (h1, made) := alloc (ODict values) h in
          match setitem h1 config section made with
          | inl e => (h1, inl e)
          | inr h2 => merge_sections config rest h2
          end
      | inr true =>
          match merge_keys config section values h with
          | (h1, inl e) => (h1, inl e)
          | (h1, inr _) => merge_sections config rest h1
          end
      end
  end.

Record ConfigManager : Type := mkConfigManager {
  _initialized : bool;
  _config : value
}.

Definition _set_defaults (h : heap) (self : ConfigManager)
  : heap * result unit :=
  merge_sections (_config self) defaults h.

(** The class attribute [_config = {}] is the first object, and what
    [__new__] makes refers to it. *)
Definition fresh_heap : heap := [ODict []].

Definition fresh : ConfigManager :=
  {| _initialized := false; _config := VRef 0 |}.

(** [__init__]: nothing is done on a singleton that is initialized
    already.  An exception of [_set_defaults] leaves [__init__], with the
    defaults merged as far as the loop came. *)
Definition __init__ (dotenv : option bindings)
    (files : string -> option document) (env : environ) (h : heap)
    (self : ConfigManager)
  : environ * (heap * result ConfigManager) :=
  if _initialized self then (env, (h, inr self))
  else
    let env1 := _load_env_variables dotenv env in
    let (h1, config) := _load_config_file files env1 h (_config self) in
    let self1 := {| _initialized := true; _config := config |} in
    match _set_defaults h1 self1 with
    | (h2, inl e) => (env1, (h2, inl e))
    | (h2, inr _) => (env1, (h2, inr self1))
    end.

(** *** Lookups *)

(** [for k in keys: value = value[k]]. *)
Fixpoint navigate (h : heap) (keys : list string) (v : value)
  : result value :=
  match keys with
  | [] => inr v
  | k :: rest =>
      match getitem h v k with
      | inl e => inl e
      | inr x => navigate h rest x
      end
  end.

Section Lookup.
Context `{Casing}.

(** [key.upper().replace('.', '_')]; a dot is one byte and no part of
    another character. *)
Definition env_key (key : string) : string :=
  Py.replace_char "." "_" (str_upper key).

(** [get(key, default)]; [except (KeyError, TypeError)] lets any other
    exception through. *)
Definition get (env : environ) (h : heap) (self : ConfigManager)
    (key : string) (default : value) : result value :=
  match getenv (env_key key) env with
  | Some env_value => inr (VStr env_value)
  | None =>
      match navigate h (Py.split "." key) (_config self) with
      | inr v => inr v
      | inl (KeyError _) => inr default
      | inl TypeError => inr default
      | inl e => inl e
      end
  end.

(** The convenience properties; [os] is the process environment. *)
Definition browser_type (os : environ) (h : heap) (self : ConfigManager) :=
  get os h self "browser.type" (VStr "chrome").
Definition headless (os : environ) (h : heap) (self : ConfigManager) :=
  get os h self "browser.headless" (VBool false).
Definition base_url (os : environ) (h : heap) (self : ConfigManager) :=
  get os h self "app.url" (VStr "").
Definition timeout (os : environ) (h : heap) (self : ConfigManager) :=
  get os h self "browser.timeout" (VInt 10).
Definition env (os : environ) (h : heap) (self : ConfigManager) :=
  get os h self "app.env" (VStr "dev").
Definition parallel_execution (os : environ) (h : heap)
    (self : ConfigManager) :=
  get os h self "execution.parallel" (VBool false).
Definition workers (os : environ) (h : heap) (self : ConfigManager) :=
  get os h self "execution.workers" (VInt 4).
Definition screenshots_on_failure (os : environ) (h : heap)
    (self : ConfigManager) :=
  get os h self "reporting.screenshots_on_failure" (VBool true).
Definition video_recording (os : environ) (h : heap)
    (self : ConfigManager) :=
  get os h self "reporting.video_recording" (VBool false).
Definition log_level (os : environ) (h : heap) (self : ConfigManager) :=
  get os h self "logging.level" (VStr "INFO").

(** The property with the environment variable that overrides it. *)
Definition properties
  : list ((environ -> heap -> ConfigManager -> result value) * string) :=
  [ (browser_type, "BROWSER_TYPE");
    (headless, "BROWSER_HEADLESS");
    (base_url, "APP_URL");
    (timeout, "BROWSER_TIMEOUT");
    (env, "APP_ENV");
    (parallel_execution, "EXECUTION_PARALLEL");
    (workers, "EXECUTION_WORKERS");
    (screenshots_on_failure, "REPORTING_SCREENSHOTS_ON_FAILURE");
    (video_recording, "REPORTING_VIDEO_RECORDING");
    (log_level, "LOGGING_LEVEL") ].

End Lookup.

(** *** Assignments *)

(** The body of [set] on the list of keys: [for k in keys[:-1]:
    if k not in config: config[k] = {}; config = config[k]] and then
    [config[keys[-1]] = value].  [keys[-1]] of an empty list raises
    IndexError. *)
Fixpoint set_path (keys : list string) (v : value) (config : value)
    (h : heap) : heap * result unit :=
  match keys with
  | [] => (h, inl IndexError)
  | k :: rest =>
      match rest with
      | [] =>
          match setitem h config k v with
          | inl e => (h, inl e)
          | inr h' => (h', inr tt)
          end
      | _ :: _ =>
          match ensure h config k with
          | (h1, inl e) => (h1, inl e)
          | (h1, inr _) =>
              match getitem h1 config k with
              | inl e => (h1, inl e)
              | inr child => set_path rest v child h1
              end
          end
      end
  end.

(** [set(key, value)]. *)
Definition set (h : heap) (self : ConfigManager) (key : string) (v : value)
  : heap * result unit :=
  set_path (Py.split "." key) v (_config self) h.

(** [update_section(section, values)]: [if section not in self._config:
    self._config[section] = {}] and then
    [self._config[section].update(values)]. *)
Definition update_section (h : heap) (self : ConfigManager)
    (section : string) (values : items) : heap * result unit :=
  match ensure h (_config self) section with
  | (h1, inl e) => (h1, inl e)
  | (h1, inr _) =>
      match getitem h1 (_config self) section with
      | inl e => (h1, inl e)
      | inr sec => update h1 sec values
      end
  end.

End Resolver.

(** ** Notions used to state the properties on shared dictionaries *)

Module ResolverNotions.
Import Objects Unicode Resolver.

(** The value the configuration holds under the top-level key [s]. *)
Definition section_value (h : heap) (config : value) (s : string)
  : option value :=
  match fetch h config with
  | Some (ODict d) => lookup s d
  | _ => None
  end.

(** The value the configuration gives to key [k] of section [s]. *)
Definition file_value (h : heap) (config : value) (s k : string)
  : option value :=
  match section_value h config s with
  | Some sec =>
      match fetch h sec with
      | Some (ODict sd) => lookup k sd
      | _ => None
      end
  | None => None
  end.

(** The built-in default of key [k] of section [s]. *)
Definition default_in (defs : list (string * items)) (s k : string)
  : option value :=
  match lookup s defs with
  | Some values => lookup k values
  | None => None
  end.

Definition builtin_default (s k : string) : option value :=
  default_in defaults s k.

(** The configuration is a dictionary in which section [s] is left out or
    is a dictionary itself. *)
Definition fillable (h : heap) (config : value) (s : string) : bool :=
  match fetch h config with
  | Some (ODict d) =>
      match lookup s d with
      | None => true
      | Some sec =>
          match fetch h sec with
          | Some (ODict _) => true
          | _ => false
          end
      end
  | _ => false
  end.

Definition refers (a : address) (v : option value) : bool :=
  match v with
  | Some (VRef b) => (b =? a)%nat
  | _ => false
  end.

(** Section [s] stands apart: what the configuration holds under [s] is
    not the configuration itself, and no section of the table is the
    configuration itself or, unless it is [s], the object held under
    [s]. *)
Definition apart (defs : list (string * items)) (h : heap) (config : value)
    (s : string) : bool :=
  match config with
  | VRef root =>
      negb (refers root (section_value h config s)) &&
      forallb (fun sv =>
                 match section_value h config (fst sv) with
                 | Some (VRef a) =>
                     negb (a =? root)%nat &&
                     ((fst sv =? s)
                      || negb (refers a (section_value h config s)))
                 | _ => true
                 end) defs
  | _ => true
  end.

(** What the inner loop of [_set_defaults] leaves of a section: the keys
    it lacks are added. *)
Definition fill (values d : items) : items :=
  fold_left (fun acc kv => if mem (fst kv) acc then acc
                           else put (fst kv) (snd kv) acc) values d.

(** The dictionaries [set] walks through on the way down the keys, as far
    as they exist before the call. *)
Fixpoint trail (h : heap) (keys : list string) (config : value)
  : list address :=
  match keys with
  | [] => []
  | k :: rest =>
      match config with
      | VRef a =>
          a :: match rest with
               | [] => []
               | _ :: _ =>
                   match getitem h config k with
                   | inr child => trail h rest child
                   | inl _ => []
                   end
               end
      | _ => []
      end
  end.

Fixpoint distinct (l : list address) : bool :=
  match l with
  | [] => true
  | a :: r => negb (existsb (Nat.eqb a) r) && distinct r
  end.

(** The one item of an existing dictionary that [set] assigns: the last
    key in the last dictionary, or the first missing key where the new
    levels are hung in. *)
Fixpoint written (h : heap) (keys : list string) (config : value)
  : option (address * string) :=
  match keys with
  | [] => None
  | k :: rest =>
      match config with
      | VRef a =>
          match rest with
          | [] => Some (a, k)
          | _ :: _ =>
              match getitem h config k with
              | inr child => written h rest child
              | inl _ => Some (a, k)
              end
          end
      | _ => None
      end
  end.

(** The items a lookup under the keys asks for. *)
Fixpoint reads (h : heap) (keys : list string) (v : value)
  : list (address * string) :=
  match keys with
  | [] => []
  | k :: rest =>
      match v with
      | VRef a =>
          (a, k) :: match getitem h v k with
                    | inr x => reads h rest x
                    | inl _ => []
                    end
      | _ => []
      end
  end.

Definition same_item (x y : address * string) : bool :=
  (fst x =? fst y)%nat && (snd x =? snd y).

(** [set] under the keys [p] assigns an item that a lookup under [q] asks
    for. *)
Definition disturbs (h : heap) (p q : list string) (config : value) : bool :=
  match written h p config with
  | Some item => existsb (same_item item) (reads h q config)
  | None => false
  end.

(** The configuration holds one and the same dictionary under [s] and
    under [section] (as it does when [s] is [section]). *)
Definition shares (h : heap) (config : value) (s section : string) : bool :=
  match section_value h config s, section_value h config section with
  | Some (VRef b), Some (VRef a) =>
      (b =? a)%nat && match nth_error h a with
                      | Some (ODict _) => true
                      | _ => false
                      end
  | _, _ => false
  end.


(** *** Sample runs *)

(** No configuration file. *)
Definition no_files (name : string) : option document := None.

(** A [dev_config.yml] that chooses Firefox. *)
Definition dev_document : document :=
  ([ODict [("browser", VRef 1)]; ODict [("type", VStr "firefox")]], VRef 0).

Definition dev_file (name : string) : option document :=
  if name =? "dev" then Some dev_document else None.

(** A [dev_config.yml] with an anchor and an alias,
    [browser: &b {type: firefox}] and [app: *b]: one dictionary under the
    two names. *)
Definition aliased_document : document :=
  ([ODict [("browser", VRef 1); ("app", VRef 1)];
    ODict [("type", VStr "firefox")]], VRef 0).

Definition aliased_file (name : string) : option document :=
  if name =? "dev" then Some aliased_document else None.

(** The manager and the heap [config = ConfigManager()] leaves with
    nothing on disk. *)
Definition stock : ConfigManager :=
  {| _initialized := true; _config := VRef 0 |}.

Definition stock_heap : heap :=
  fst (snd (__init__ None no_files [] fresh_heap fresh)).

End ResolverNotions.

(** * Properties *)

(** ** Dictionaries *)

Module DictFacts.
Import Py.

(** From [(let? x := c in k) = inr r]: [c] returned some [x]. *)
Ltac bind_inv H x E :=
  match type of H with
  | bind ?c _ = _ =>
      let e := fresh "e" in
      destruct c as [e|x] eqn:E; cbn [bind] in H; [discriminate H|]
  end.

Lemma dict_get_set_same (k : string) (v : pyval) (d : dict) :
  dict_get k (dict_set k v d) = Some v.
Proof.
  unfold dict_get.
  induction d as [|[k' v'] r IH]; simpl.
  - now rewrite String.eqb_refl.
  - destruct (String.eqb_spec k' k) as [->|Hne]; simpl.
    + now rewrite String.eqb_refl.
    + destruct (String.eqb_spec k' k); [contradiction | exact IH].
Qed.

Lemma dict_get_set_other (k k' : string) (v : pyval) (d : dict) :
  k' <> k -> dict_get k (dict_set k' v d) = dict_get k d.
Proof.
  unfold dict_get. intros Hne.
  induction d as [|[k0 v0] r IH]; simpl.
  - destruct (String.eqb_spec k' k); [contradiction | reflexivity].
  - destruct (String.eqb_spec k0 k') as [->|Hne0]; simpl.
    + destruct (String.eqb_spec k' k); [contradiction | reflexivity].
    + destruct (String.eqb_spec k0 k); [reflexivity | exact IH].
Qed.

Lemma dict_get_cons (k k' : string) (v : pyval) (d : dict) :
  dict_get k ((k', v) :: d) = if k' =? k then Some v else dict_get k d.
Proof. reflexivity. Qed.

Lemma dict_mem_false (k : string) (d : dict) :
  dict_mem k d = false -> dict_get k d = None.
Proof. unfold dict_mem. now destruct (dict_get k d). Qed.

Lemma dict_mem_true (k : string) (d : dict) :
  dict_mem k d = true -> exists v, dict_get k d = Some v.
Proof. unfold dict_mem. destruct (dict_get k d) as [v|]; [now exists v | discriminate]. Qed.

(** Only a dictionary takes an item under a string key. *)
Lemma setitem_inv (c : pyval) (k : string) (v c' : pyval) :
  setitem c k v = inr c' ->
  exists d, c = PDict d /\ c' = PDict (dict_set k v d).
Proof.
  destruct c; simpl; try discriminate.
  intros [= <-]. now eexists.
Qed.

Lemma getitem_inv (c : pyval) (k : string) (v : pyval) :
  getitem c k = inr v -> exists d, c = PDict d /\ dict_get k d = Some v.
Proof.
  destruct c; simpl; try discriminate.
  destruct (dict_get k d) eqn:E; [|discriminate].
  intros [= <-]. now eexists.
Qed.


End DictFacts.

(** ** Configuration resolver *)

Module ConfigFacts.
Import Py Config DictFacts.

(** *** The loop of [set] *)


(** *** Merging the defaults under the loaded document *)

Lemma assoc_not_in {A : Type} (s : string) (l : list (string * A)) :
  ~ In s (map fst l) -> assoc s l = None.
Proof.
  induction l as [|[k v] r IH]; simpl; [reflexivity|].
  intros Hn. destruct (String.eqb_spec k s) as [->|Hne].
  - exfalso. apply Hn. now left.
  - apply IH. intros Hin. apply Hn. now right.
Qed.

(** A new top-level section. *)
Lemma file_value_new_section (d : dict) (s' s k : string) (values : dict) :
  dict_mem s' d = false ->
  file_value (PDict (dict_set s' (PDict values) d)) s k =
  if s' =? s then dict_get k values else file_value (PDict d) s k.
Proof.
  intros Hm. unfold file_value.
  destruct (String.eqb_spec s' s) as [->|Hne].
  - now rewrite dict_get_set_same.
  - now rewrite dict_get_set_other.
Qed.

Lemma fillable_new_section (d : dict) (s' s : string) (values : dict) :
  dict_mem s' d = false ->
  fillable (PDict (dict_set s' (PDict values) d)) s = fillable (PDict d) s.
Proof.
  intros Hm. unfold fillable.
  destruct (String.eqb_spec s' s) as [->|Hne].
  - rewrite dict_get_set_same. now rewrite (dict_mem_false _ _ Hm).
  - now rewrite dict_get_set_other.
Qed.

(** A key stored in a section that is a dictionary. *)
Lemma file_value_new_key (d sd : dict) (s' key s k : string) (value : pyval) :
  dict_get s' d = Some (PDict sd) ->
  file_value (PDict (dict_set s' (PDict (dict_set key value sd)) d)) s k =
  if (s' =? s) && (key =? k) then Some value else file_value (PDict d) s k.
Proof.
  intros Hs. unfold file_value.
  destruct (String.eqb_spec s' s) as [->|Hne]; simpl.
  - rewrite dict_get_set_same, Hs.
    destruct (String.eqb_spec key k) as [->|Hk].
    + apply dict_get_set_same.
    + now apply dict_get_set_other.
  - now rewrite dict_get_set_other.
Qed.

Lemma fillable_new_key (d sd : dict) (s' s : string) (sec' : dict) :
  dict_get s' d = Some (PDict sd) ->
  fillable (PDict (dict_set s' (PDict sec') d)) s = fillable (PDict d) s.
Proof.
  intros Hs. unfold fillable.
  destruct (String.eqb_spec s' s) as [->|Hne].
  - now rewrite dict_get_set_same, Hs.
  - now rewrite dict_get_set_other.
Qed.

Lemma merge_keys_cons (section key : string) (value : pyval) (rest : dict)
    (config : pyval) :
  merge_keys section ((key, value) :: rest) config =
  (let? sec := getitem config section in
   let? present := contains sec key in
   let? config' := (if present then inr config
                    else let? sec' := setitem sec key value in
                         setitem config section sec') in
   merge_keys section rest config').
Proof. reflexivity. Qed.

(** The inner loop keeps what the document gives, fills the keys the
    section lacks, and touches no other section. *)
Lemma merge_keys_spec (s' : string) (values : dict) (s k : string) :
  forall c c', merge_keys s' values c = inr c' ->
  file_value c' s k =
    match file_value c s k with
    | Some v => Some v
    | None => if (s' =? s) && fillable c s then dict_get k values else None
    end
  /\ fillable c' s = fillable c s.
Proof.
  induction values as [|[key value] rest IH]; intros c c' Hm.
  - injection Hm as <-. split; [|reflexivity].
    destruct (file_value c s k); [reflexivity|].
    now destruct ((s' =? s) && fillable c s).
  - rewrite merge_keys_cons in Hm.
    bind_inv Hm sec Hsec. apply getitem_inv in Hsec as (d & -> & Hd).
    bind_inv Hm present Hp. bind_inv Hm c1 Hc1.
    destruct (IH _ _ Hm) as [Hv Hf]. rewrite Hv, Hf. clear IH Hm Hv Hf.
    destruct present.
    + (* the key is there already *)
      injection Hc1 as <-. split; [|reflexivity].
      destruct (file_value (PDict d) s k) eqn:Hfv; [reflexivity|].
      destruct (String.eqb_spec s' s) as [->|Hne]; cbn [andb]; [|reflexivity].
      destruct (fillable (PDict d) s) eqn:Hfill; [|reflexivity].
      rewrite dict_get_cons.
      destruct (String.eqb_spec key k) as [->|Hk]; [|reflexivity].
      exfalso. unfold file_value in Hfv. unfold fillable in Hfill.
      rewrite Hd in Hfv, Hfill.
      destruct sec; try discriminate. simpl in Hp. injection Hp as Hp.
      apply dict_mem_true in Hp as [v Hv]. congruence.
    + (* the key is stored *)
      bind_inv Hc1 sec' Hset.
      apply setitem_inv in Hset as (sd & -> & ->).
      simpl in Hc1. injection Hc1 as <-.
      simpl in Hp. injection Hp as Hp.
      rewrite (file_value_new_key _ _ _ _ _ _ _ Hd).
      rewrite (fillable_new_key _ _ _ _ _ Hd). split; [|reflexivity].
      destruct (String.eqb_spec s' s) as [->|Hne]; cbn [andb].
      * assert (Hfill : fillable (PDict d) s = true)
          by (unfold fillable; now rewrite Hd).
        rewrite Hfill. rewrite dict_get_cons.
        assert (Hfv : file_value (PDict d) s k = dict_get k sd)
          by (unfold file_value; now rewrite Hd).
        rewrite Hfv.
        destruct (String.eqb_spec key k) as [->|Hk].
        -- now rewrite (dict_mem_false _ _ Hp).
        -- reflexivity.
      * reflexivity.
Qed.

Lemma merge_sections_cons (section : string) (values : dict)
    (rest : list (string * dict)) (config : pyval) :
  merge_sections ((section, values) :: rest) config =
  (let? present := contains config section in
   let? config' := (if present then merge_keys section values config
                    else setitem config section (PDict values)) in
   merge_sections rest config').
Proof. reflexivity. Qed.

(** [_set_defaults] over a table with distinct section names: a value of
    the document stays; a key the document lacks gets its default when the
    section is absent or a dictionary; nothing else appears. *)
Lemma merge_sections_spec (defs : list (string * dict)) (s k : string) :
  NoDup (map fst defs) ->
  forall c c', merge_sections defs c = inr c' ->
  file_value c' s k =
    match file_value c s k with
    | Some v => Some v
    | None => if fillable c s then default_in defs s k else None
    end.
Proof.
  induction defs as [|[s' values] rest IH]; intros Hnd c c' Hm.
  - injection Hm as <-. destruct (file_value c s k); [reflexivity|].
    now destruct (fillable c s).
  - rewrite merge_sections_cons in Hm. simpl in Hnd.
    apply NoDup_cons_iff in Hnd as [Hnotin Hnd].
    bind_inv Hm present Hp. bind_inv Hm c1 Hc1.
    rewrite (IH Hnd _ _ Hm). clear IH Hm.
    unfold default_in at 2. simpl.
    destruct present.
    + (* the section is there: inner loop *)
      destruct (merge_keys_spec s' values s k _ _ Hc1) as [Hv Hf].
      rewrite Hv, Hf.
      destruct (String.eqb_spec s' s) as [->|Hne]; simpl.
      * unfold default_in. rewrite (assoc_not_in _ _ Hnotin).
        destruct (file_value c s k); [reflexivity|].
        destruct (fillable c s); [|reflexivity].
        now destruct (dict_get k values).
      * fold (default_in rest s k). now destruct (file_value c s k).
    + (* the section is new *)
      apply setitem_inv in Hc1 as (d & -> & ->).
      simpl in Hp. injection Hp as Hp.
      rewrite (file_value_new_section _ _ _ _ _ Hp).
      rewrite (fillable_new_section _ _ _ _ Hp).
      destruct (String.eqb_spec s' s) as [->|Hne].
      * unfold default_in. rewrite (assoc_not_in _ _ Hnotin).
        assert (Hfv : file_value (PDict d) s k = None)
          by (unfold file_value; now rewrite (dict_mem_false _ _ Hp)).
        assert (Hfill : fillable (PDict d) s = true)
          by (unfold fillable; now rewrite (dict_mem_false _ _ Hp)).
        rewrite Hfv, Hfill. now destruct (dict_get k values).
      * fold (default_in rest s k). reflexivity.
Qed.

Lemma defaults_distinct : NoDup (map fst defaults).
Proof.
  simpl. repeat (constructor; [simpl; intuition discriminate|]). constructor.
Qed.

(** A document that is a mapping of mappings always merges. *)
Lemma init_succeeds_without_file (dotenv : option environ) (env0 : environ) :
  exists cm,
    __init__ dotenv no_files env0 fresh
    = (_load_env_variables dotenv env0, inr cm)
    /\ _config cm = _config stock.
Proof. eexists. split; reflexivity. Qed.

(** *** Precedence of the sources *)

(** C1.  The class documents "Priority: Runtime > Environment Variables >
    Config File > Defaults", but [get] asks the environment first: with
    [BROWSER_TYPE=firefox] in the environment, [set("browser.type",
    "chrome")] succeeds and [get("browser.type")] still answers
    ["firefox"]; the value set is read back only once the variable is
    gone. *)
Theorem set_is_shadowed_by_environment :
  exists cm',
    set stock "browser.type" (PStr "chrome") = (cm', inr tt) /\
    getenv (env_key "browser.type") [("BROWSER_TYPE", "firefox")]
      = Some "firefox" /\
    get [("BROWSER_TYPE", "firefox")] cm' "browser.type" PNone
      = inr (PStr "firefox") /\
    get [] cm' "browser.type" PNone = inr (PStr "chrome").
Proof. eexists. repeat split. Qed.

End ConfigFacts.

(** ** Wait/interaction layer *)

Module PageFacts.
Import Selenium Page.
Local Open Scope sel_scope.

Section Waits.
Context {B : Type} `{WebDriver B}.

(** *** The polling loop *)

(** The loop raises nothing but its own [TimeoutException("")]. *)
Lemma until_loop_raises {A} (method : B -> option A) (sleeps : nat) :
  forall b b' e,
    until_loop method sleeps b = (b', inl e) -> e = Raise TimeoutException "".
Proof.
  induction sleeps as [|n IH]; intros b b' e; simpl;
    destruct (method b); try discriminate.
  - now intros [= _ <-].
  - apply IH.
Qed.

(** A value returned is the value of the condition on the page reached. *)
Lemma until_loop_returns {A} (method : B -> option A) (sleeps : nat) :
  forall b b' v,
    until_loop method sleeps b = (b', inr v) -> method b' = Some v.
Proof.
  induction sleeps as [|n IH]; intros b b' v; simpl;
    destruct (method b) eqn:E; try discriminate.
  - now intros [= <- <-].
  - now intros [= <- <-].
  - apply IH.
Qed.

(** A condition that stays false makes the loop raise after all its sleeps. *)
Lemma until_loop_expires {A} (method : B -> option A) (sleeps : nat) :
  forall b,
    never_within method sleeps b ->
    until_loop method sleeps b
    = (Nat.iter sleeps sleep b, inl (Raise TimeoutException "")).
Proof.
  induction sleeps as [|n IH]; intros b [Hb Hrest]; cbn [until_loop];
    rewrite Hb.
  - reflexivity.
  - rewrite (IH _ Hrest). now rewrite Nat.iter_succ_r.
Qed.

(** The loop always ends: with a value or with the timeout. *)
Lemma until_loop_total {A} (method : B -> option A) (sleeps : nat) (b : B) :
  exists b' r, until_loop method sleeps b = (b', r).
Proof. destruct (until_loop method sleeps b) as [b' r]. now exists b', r. Qed.

(** *** [timeout or self.timeout] *)

Lemma timeout_or_given (self : BasePage) (t : Z) :
  t <> 0%Z -> timeout_or (Some t) self = t.
Proof.
  intros Ht. unfold timeout_or.
  destruct (Z.eqb_spec t 0); [contradiction | reflexivity].
Qed.

Lemma timeout_or_zero (self : BasePage) :
  timeout_or (Some 0%Z) self = timeout self.
Proof. reflexivity. Qed.

Lemma timeout_or_none (self : BasePage) :
  timeout_or None self = timeout self.
Proof. reflexivity. Qed.

(** *** A wait that expires *)

Lemma raising_wait_expires {A} (method : B -> option A) (t : Z)
    (before after : record) (s : state B) :
  never_within method (polls t) (browser s) ->
  raising_wait method t before after s
  = (State (Nat.iter (polls t) sleep (browser s)) (log s ++ [before; after]),
     inl (Raise TimeoutException "")).
Proof.
  intros Hn. unfold raising_wait, bind, logger, try_except, until, on_driver.
  cbn [browser log]. rewrite (until_loop_expires _ _ _ Hn).
  cbn [is_timeout exn_class_of]. unfold reraise_logged, bind, logger, raise.
  cbn [browser log]. rewrite <- app_assoc.
  destruct before, after. reflexivity.
Qed.

Lemma raising_wait_returns {A} (method : B -> option A) (t : Z)
    (before after : record) (s s' : state B) (v : A) :
  raising_wait method t before after s = (s', inr v) ->
  method (browser s') = Some v /\ log s' = (log s ++ [before])%list.
Proof.
  unfold raising_wait, bind, logger, try_except, until, on_driver.
  cbn [browser log].
  destruct (until_loop method (polls t) (browser s)) as [b' [e|v']] eqn:E.
  - rewrite (until_loop_raises _ _ _ _ _ E). cbn. discriminate.
  - intros [= <- <-]. cbn [browser log].
    split; [exact (until_loop_returns _ _ _ _ _ E)|].
    now destruct before.
Qed.

(** The three raising waits are instances of the shared shape. *)
Lemma wait_for_element_shape (self : BasePage) (l : locator) (T : option Z) :
  wait_for_element self l T =
  raising_wait (visibility_of_element_located l) (timeout_or T self)
    (Log DEBUG "Waiting for element: {}" [ALocator l])
    (Log ERROR "Element not found within {}s: {}"
       [AInt (timeout_or T self); ALocator l]).
Proof. reflexivity. Qed.

Lemma wait_for_elements_shape (self : BasePage) (l : locator) (T : option Z) :
  wait_for_elements self l T =
  raising_wait (presence_of_all_elements_located l) (timeout_or T self)
    (Log DEBUG "Waiting for elements: {}" [ALocator l])
    (Log ERROR "Elements not found within {}s: {}"
       [AInt (timeout_or T self); ALocator l]).
Proof. reflexivity. Qed.

Lemma wait_for_element_clickable_shape (self : BasePage) (l : locator)
    (T : option Z) :
  wait_for_element_clickable self l T =
  raising_wait (element_to_be_clickable l) (timeout_or T self)
    (Log DEBUG "Waiting for element to be clickable: {}" [ALocator l])
    (Log ERROR "Element not clickable within {}s: {}"
       [AInt (timeout_or T self); ALocator l]).
Proof. reflexivity. Qed.

(** An action passes on what the wait in front of it raises. *)
Lemma bind_raises {S A C} (c : M S A) (k : A -> M S C) (s s' : S) (e : exn) :
  c s = (s', inl e) -> bind c k s = (s', inl e).
Proof. intros Hc. unfold bind. now rewrite Hc. Qed.

Lemma bind_returns {S A C} (c : M S A) (k : A -> M S C) (s s' : S) (a : A) :
  c s = (s', inr a) -> bind c k s = k a s'.
Proof. intros Hc. unfold bind. now rewrite Hc. Qed.

(** C2, amended.  When the condition of a raising wait stays false until
    the deadline, the wait writes an ERROR record that holds the timeout
    and the locator, and raises again the exception of [WebDriverWait],
    which is a [TimeoutException] with the empty message: the locator and
    the operation are in the log, not in the exception.  [enter_text],
    [get_text], [get_attribute] and [click] end in the same state with the
    same exception as the wait they start with. *)
Theorem timeout_is_logged_and_reraised (self : BasePage) (l : locator)
    (T : option Z) (s : state B) :
  let t := timeout_or T self in
  let after := Nat.iter (polls t) sleep (browser s) in
  (never_within (visibility_of_element_located l) (polls t) (browser s) ->
   let s' := State after
               (log s ++ [Log DEBUG "Waiting for element: {}" [ALocator l];
                          Log ERROR "Element not found within {}s: {}"
                            [AInt t; ALocator l]]) in
   wait_for_element self l T s = (s', inl (Raise TimeoutException "")) /\
   (forall text clear_first,
      enter_text self l text clear_first T s
      = (s', inl (Raise TimeoutException ""))) /\
   get_text self l T s = (s', inl (Raise TimeoutException "")) /\
   (forall name,
      get_attribute self l name T s = (s', inl (Raise TimeoutException ""))))
  /\
  (never_within (presence_of_all_elements_located l) (polls t) (browser s) ->
   wait_for_elements self l T s
   = (State after
        (log s ++ [Log DEBUG "Waiting for elements: {}" [ALocator l];
                   Log ERROR "Elements not found within {}s: {}"
                     [AInt t; ALocator l]]),
      inl (Raise TimeoutException "")))
  /\
  (never_within (element_to_be_clickable l) (polls t) (browser s) ->
   let s' := State after
               (log s ++ [Log DEBUG "Waiting for element to be clickable: {}"
                            [ALocator l];
                          Log ERROR "Element not clickable within {}s: {}"
                            [AInt t; ALocator l]]) in
   wait_for_element_clickable self l T s
   = (s', inl (Raise TimeoutException "")) /\
   click self l T s = (s', inl (Raise TimeoutException ""))).
Proof.
  intros t after. repeat split.
  - rewrite wait_for_element_shape. now apply raising_wait_expires.
  - intros text clear_first. unfold enter_text. apply bind_raises.
    rewrite wait_for_element_shape. now apply raising_wait_expires.
  - unfold get_text. apply bind_raises.
    rewrite wait_for_element_shape. now apply raising_wait_expires.
  - intros name. unfold get_attribute. apply bind_raises.
    rewrite wait_for_element_shape. now apply raising_wait_expires.
  - rewrite wait_for_elements_shape. now apply raising_wait_expires.
  - rewrite wait_for_element_clickable_shape. now apply raising_wait_expires.
  - unfold click. apply bind_raises.
    rewrite wait_for_element_clickable_shape. now apply raising_wait_expires.
Qed.

(** C5.  Once the element is clickable: when the direct click goes
    through, [click] returns; when the direct click raises, [click] logs a
    warning and its outcome is the outcome of the script click on the same
    handle.  So [click] raises only when both clicks raise, and then it
    raises what the script click raised. *)
Theorem click_falls_back_to_script (self : BasePage) (l : locator)
    (T : option Z) (s s1 : state B) (h : handle)
    (b1 b2 : B) (r1 r2 : exn + unit) :
  wait_for_element_clickable self l T s = (s1, inr h) ->
  element_click h (browser s1) = (b1, r1) ->
  execute_script "arguments[0].click();" h b1 = (b2, r2) ->
  exists s' r,
    click self l T s = (s', r) /\
    (r1 = inr tt -> r = inr tt /\ browser s' = b1) /\
    (forall e1, r1 = inl e1 ->
       r = r2 /\ browser s' = b2 /\
       log s' = (log s1 ++
                 [Log INFO "Clicking element: {}" [ALocator l];
                  Log WARNING
                    "Regular click failed, trying JavaScript click: {}"
                    [AExn e1]])%list) /\
    (forall e, r = inl e <-> (exists e1, r1 = inl e1) /\ r2 = inl e).
Proof.
  intros Hw Hc Hs.
  unfold click. rewrite (bind_returns _ _ _ _ _ Hw).
  unfold bind, logger, try_except, on_driver. cbn [browser log].
  rewrite Hc. destruct r1 as [e1|[]]; cbn [browser log].
  - rewrite Hs. do 2 eexists. split; [reflexivity|].
    split; [intros Hd; discriminate Hd|]. split.
    + intros e0 [= <-]. split; [reflexivity|]. split; [reflexivity|].
      cbn [log]. now rewrite <- app_assoc.
    + intros e. split.
      * intros ->. split; [now exists e1 | reflexivity].
      * now intros [_ ->].
  - do 2 eexists. split; [reflexivity|].
    split; [intros _; split; reflexivity|]. split.
    + intros e1 Hd. discriminate Hd.
    + intros e. split.
      * intros Hd. discriminate Hd.
      * intros [[e1 He1] _]. discriminate He1.
Qed.

(** C6.  The two boolean waits never raise, and they answer [False] when
    their condition stays false until the deadline. *)
Theorem boolean_waits_absorb_timeout (self : BasePage) (l : locator)
    (T : option Z) (s : state B) :
  let t := timeout_or T self in
  (exists s' r, is_element_visible self l T s = (s', inr r)) /\
  (exists s' r, wait_for_element_invisible self l T s = (s', inr r)) /\
  (never_within (visibility_of_element_located l) (polls t) (browser s) ->
   exists s', is_element_visible self l T s = (s', inr false)) /\
  (never_within (invisibility_of_element_located l) (polls t) (browser s) ->
   exists s', wait_for_element_invisible self l T s = (s', inr False_)).
Proof.
  intros t. repeat split.
  - unfold is_element_visible, try_except, bind, until, on_driver, ret.
    fold t.
    destruct (until_loop _ (polls t) (browser s)) as [b' [e|v]] eqn:E.
    + rewrite (until_loop_raises _ _ _ _ _ E). cbn. now do 2 eexists.
    + now do 2 eexists.
  - unfold wait_for_element_invisible, try_except, bind, until, on_driver,
      ret, logger. fold t. cbn [browser log].
    destruct (until_loop _ (polls t) (browser s)) as [b' [e|v]] eqn:E.
    + rewrite (until_loop_raises _ _ _ _ _ E). cbn. now do 2 eexists.
    + now do 2 eexists.
  - intros Hn.
    unfold is_element_visible, try_except, bind, until, on_driver, ret.
    fold t. rewrite (until_loop_expires _ _ _ Hn). cbn. now eexists.
  - intros Hn.
    unfold wait_for_element_invisible, try_except, bind, until, on_driver,
      ret, logger. fold t. cbn [browser log].
    rewrite (until_loop_expires _ _ _ Hn). cbn. now eexists.
Qed.

(** C9.  On a driver whose form fields behave as [TextInput] says: when
    the wait finds the element visible and the element accepts input,
    [enter_text] returns, and the field then holds the text alone when
    [clear_first] is true, and its content at that moment followed by the
    text when [clear_first] is false. *)
Theorem enter_text_field_content (accepts_input : B -> handle -> Prop)
    (driver_fields : TextInput accepts_input)
    (self : BasePage) (l : locator) (text : string) (clear_first : bool)
    (T : option Z) (s s1 : state B) (h : handle) :
  wait_for_element self l T s = (s1, inr h) ->
  accepts_input (browser s1) h ->
  visibility_of_element_located l (browser s1) = Some h /\
  exists s2,
    enter_text self l text clear_first T s = (s2, inr tt) /\
    field_value (browser s2) h =
      if clear_first then text else field_value (browser s1) h ++ text.
Proof.
  intros Hw Hacc. split.
  - rewrite wait_for_element_shape in Hw.
    now apply raising_wait_returns in Hw as [Hv _].
  - unfold enter_text. rewrite (bind_returns _ _ _ _ _ Hw).
    destruct clear_first;
      unfold bind, logger, on_driver, ret; cbn [browser log].
    + destruct (clear_empties _ _ Hacc) as (b' & Hclear & Hempty & Hacc').
      rewrite Hclear. cbn [browser log].
      destruct (send_keys_appends _ _ text Hacc') as (b'' & Hsend & Hval).
      rewrite Hsend. eexists. split; [reflexivity|]. cbn [browser].
      now rewrite Hval, Hempty.
    + destruct (send_keys_appends _ _ text Hacc) as (b'' & Hsend & Hval).
      rewrite Hsend. eexists. split; [reflexivity|]. exact Hval.
Qed.

End Waits.
(** *** The small browser *)

Import Sim.

Lemma node_of_update (h : handle) (f : node -> node) (b : window) :
  (forall n, id (f n) = id n) ->
  node_of (update h f b) h = option_map f (node_of b h).
Proof.
  intros Hid. unfold node_of, update, with_page. cbn [page].
  induction (page b) as [|n r IH]; [reflexivity|]. cbn [map find].
  destruct (Nat.eqb_spec (id n) h) as [Hh|Hh].
  - rewrite Hid. destruct (Nat.eqb_spec (id n) h); [reflexivity|contradiction].
  - destruct (Nat.eqb_spec (id n) h); [contradiction|exact IH].
Qed.

(** The small browser treats its form fields as [TextInput] asks. *)
Lemma sim_text_input : TextInput accepts_input.
Proof.
  split.
  - intros b h Hacc. unfold accepts_input in Hacc.
    destruct (node_of b h) as [n|] eqn:Hn; [|contradiction].
    exists (update h (set_value "") b).
    cbn [element_clear sim_driver field_value]. unfold on_node, accepts_input.
    rewrite Hn, Hacc, (node_of_update h (set_value "") b (fun _ => eq_refl)), Hn.
    repeat split. exact Hacc.
  - intros b h text Hacc. unfold accepts_input in Hacc.
    destruct (node_of b h) as [n|] eqn:Hn; [|contradiction].
    exists (update h (set_value (value n ++ text)) b).
    cbn [element_send_keys sim_driver field_value]. unfold on_node.
    rewrite Hn, Hacc,
      (node_of_update h (set_value (value n ++ text)) b (fun _ => eq_refl)), Hn.
    split; reflexivity.
Qed.

(** C2, the claim as stated fails: the error message never appears on the
    login page, the wait for it expires, and the exception raised has the
    empty message; it holds neither the selector nor the name of the
    method or of the condition. *)
Lemma timeout_exception_lacks_locator :
  exists s',
    wait_for_element page10 ERROR_MESSAGE (Some 1%Z) (start (loading ""))
    = (s', inl (Raise TimeoutException "")) /\
    exn_msg (Raise TimeoutException "") = "" /\
    mentions (Raise TimeoutException "") (snd ERROR_MESSAGE) = false /\
    mentions (Raise TimeoutException "") "wait_for_element" = false /\
    mentions (Raise TimeoutException "") "visibility_of_element_located"
    = false.
Proof. eexists. repeat split. Qed.

Lemma timeout_is_logged_and_reraised_witness :
  never_within (visibility_of_element_located ERROR_MESSAGE)
    (polls (timeout_or (Some 1%Z) page10)) (loading "") /\
  wait_for_element page10 ERROR_MESSAGE (Some 1%Z) (start (loading ""))
  = (State (Nat.iter 2 sleep (loading ""))
       [Log DEBUG "Waiting for element: {}" [ALocator ERROR_MESSAGE];
        Log ERROR "Element not found within {}s: {}"
          [AInt 1; ALocator ERROR_MESSAGE]],
     inl (Raise TimeoutException "")).
Proof.
  assert (Hn : never_within (visibility_of_element_located ERROR_MESSAGE)
                 (polls (timeout_or (Some 1%Z) page10)) (loading ""))
    by (cbn; repeat split).
  split; [exact Hn|].
  exact (proj1 (proj1 (timeout_is_logged_and_reraised page10 ERROR_MESSAGE
                         (Some 1%Z) (start (loading ""))) Hn)).
Defined.

Lemma click_falls_back_to_script_witness :
  exists s',
    click page10 LOGIN_BUTTON None (start (loading "")) = (s', inr tt) /\
    clicked (browser s') = [2].
Proof.
  pose (s1 := fst (wait_for_element_clickable page10 LOGIN_BUTTON None
                     (start (loading "")))).
  pose (b1 := Window (login_page "") [] "https://www.saucedemo.com" []).
  pose (b2 := Window (login_page "") [] "https://www.saucedemo.com" [2]).
  assert (Hw : wait_for_element_clickable page10 LOGIN_BUTTON None
                 (start (loading "")) = (s1, inr 2)) by reflexivity.
  assert (Hc : element_click 2 (browser s1) = (b1, inl intercepted))
    by reflexivity.
  assert (Hs : execute_script "arguments[0].click();" 2 b1 = (b2, inr tt))
    by reflexivity.
  destruct (click_falls_back_to_script page10 LOGIN_BUTTON None
              (start (loading "")) s1 2 b1 b2 (inl intercepted) (inr tt)
              Hw Hc Hs)
    as (s' & r & Hclick & _ & Hfall & _).
  destruct (Hfall intercepted eq_refl) as (Hr & Hb & _).
  exists s'. split.
  - rewrite Hclick, Hr. reflexivity.
  - rewrite Hb. reflexivity.
Defined.

Lemma boolean_waits_absorb_timeout_witness :
  never_within (visibility_of_element_located ERROR_MESSAGE)
    (polls (timeout_or (Some 3%Z) page10)) (loading "") /\
  exists s',
    is_element_visible page10 ERROR_MESSAGE (Some 3%Z) (start (loading ""))
    = (s', inr false).
Proof.
  assert (Hn : never_within (visibility_of_element_located ERROR_MESSAGE)
                 (polls (timeout_or (Some 3%Z) page10)) (loading ""))
    by (cbn; repeat split).
  split; [exact Hn|].
  exact (proj1 (proj2 (proj2 (boolean_waits_absorb_timeout page10
                                ERROR_MESSAGE (Some 3%Z)
                                (start (loading "")))))
           Hn).
Defined.

(** C7.  [timeout or self.timeout] takes a per-call timeout of 0 for a
    missing one: on a page that shows the field after two poll intervals,
    [is_element_visible(locator, timeout=0)] of a page object with the
    default 10 answers [True], where a wait bounded by 0 expires. *)
Theorem zero_timeout_is_replaced_by_default :
  timeout_or (Some 0%Z) page10 = 10%Z /\
  (exists s',
     is_element_visible page10 USERNAME_INPUT (Some 0%Z) (start (loading ""))
     = (s', inr true)) /\
  (exists s',
     until 0 (visibility_of_element_located USERNAME_INPUT)
       (start (loading ""))
     = (s', inl (Raise TimeoutException ""))).
Proof. split; [reflexivity|]. split; eexists; reflexivity. Qed.

Lemma enter_text_field_content_witness :
  (exists s2,
     enter_text page10 USERNAME_INPUT "xy" false None (start (loading "ab"))
     = (s2, inr tt) /\
     field_value (browser s2) 1 = "abxy") /\
  (exists s2,
     enter_text page10 USERNAME_INPUT "xy" true None (start (loading "ab"))
     = (s2, inr tt) /\
     field_value (browser s2) 1 = "xy").
Proof.
  pose (s1 := fst (wait_for_element page10 USERNAME_INPUT None
                     (start (loading "ab")))).
  assert (Hw : wait_for_element page10 USERNAME_INPUT None
                 (start (loading "ab")) = (s1, inr 1)) by reflexivity.
  assert (Hacc : accepts_input (browser s1) 1) by reflexivity.
  split.
  - exact (proj2 (enter_text_field_content accepts_input sim_text_input
                    page10 USERNAME_INPUT "xy" false None
                    (start (loading "ab")) s1 1 Hw Hacc)).
  - exact (proj2 (enter_text_field_content accepts_input sim_text_input
                    page10 USERNAME_INPUT "xy" true None
                    (start (loading "ab")) s1 1 Hw Hacc)).
Defined.

End PageFacts.

(** ** Driver lifecycle manager *)

Module FactoryFacts.
Import Selenium Factory.
Local Open Scope sel_scope.

Section Lifecycle.
Context {W : Type} `{Backend W}.

(** Without a remote url, a name outside [driver_map] is refused before
    anything is started. *)
Lemma create_driver_local_unsupported (s : state W) :
  has_remote (self s) = false ->
  Py.assoc (browser (self s)) driver_map = None ->
  create_driver s
  = (State (world s) (self s)
       (log s ++ [Log INFO "Creating {} driver (headless={})"
                    [AStr (browser (self s)); ABool (headless (self s))]]),
     inl (unsupported (browser (self s)))).
Proof.
  intros Hr Hm. unfold create_driver, bind, this, logger.
  cbn [self world log]. now rewrite Hr, Hm.
Qed.

(** With a remote url, [create_driver] is [_create_remote_driver]: the
    name of the browser is not looked up in [driver_map]. *)
Lemma create_driver_remote (s : state W) :
  has_remote (self s) = true ->
  create_driver s
  = _create_remote_driver
      (State (world s) (self s)
         (log s ++ [Log INFO "Creating {} driver (headless={})"
                      [AStr (browser (self s)); ABool (headless (self s))]])).
Proof.
  intros Hr. unfold create_driver, bind, this, logger.
  cbn [self world log]. now rewrite Hr.
Qed.

(** C8.  [quit_driver] always returns.  Afterwards no driver is held and a
    second call changes nothing; without a driver the first call changes
    nothing either.  When [driver.quit()] raises, the exception is logged
    as an ERROR record and the call still returns. *)
Theorem quit_driver_idempotent (s : state W) :
  exists s',
    quit_driver s = (s', inr tt) /\
    driver (self s') = None /\
    (driver (self s) = None -> s' = s) /\
    quit_driver s' = (s', inr tt) /\
    (forall d w' e,
       driver (self s) = Some d ->
       quit d (world s) = (w', inl e) ->
       world s' = w' /\
       log s' = (log s ++
                 [Log INFO "Quitting driver: {}" [AStr (session_id d)];
                  Log ERROR "Error quitting driver: {}" [AExn e]])%list).
Proof.
  unfold quit_driver, bind, this.
  destruct (driver (self s)) as [d|] eqn:Hd.
  - unfold try_finally, try_except, bind, logger, on_backend.
    cbn [world self log].
    destruct (quit d (world s)) as [w' [e|[]]] eqn:Hq; cbn [world self log].
    + eexists. split; [reflexivity|]. cbn [self driver].
      split; [reflexivity|]. split; [discriminate|]. split; [reflexivity|].
      intros d0 w0 e0 [= <-]. rewrite Hq. intros [= <- <-].
      split; [reflexivity|]. cbn [log]. now rewrite <- app_assoc.
    + eexists. split; [reflexivity|]. cbn [self driver].
      split; [reflexivity|]. split; [discriminate|]. split; [reflexivity|].
      intros d0 w0 e0 [= <-]. rewrite Hq. discriminate.
  - exists s. unfold ret. rewrite Hd.
    split; [reflexivity|]. split; [reflexivity|]. split; [reflexivity|].
    split; [reflexivity|]. discriminate.
Qed.

End Lifecycle.

(** *** On the small machine *)

Import Lab.

(** C3.  A factory with a remote url never checks the browser name:
    ["Safari"] is not in [driver_map], the local factory refuses it with
    ValueError, and the remote factory opens a grid session with Firefox
    options instead. *)
Theorem remote_factory_skips_browser_check :
  Py.assoc (Py.lower "Safari") (driver_map (W := machine)) = None /\
  (exists s',
     create_driver (boot (__init__ "Safari" false None))
     = (s', inl (unsupported (W := machine) "safari")) /\
     open_sessions (world s') = []) /\
  (exists s',
     create_driver (boot (__init__ "Safari" false (Some GRID)))
     = (s', inr 0) /\
     open_sessions (world s')
     = [(0, {| opt_family := Firefox; arguments := []; settings := [] |})]).
Proof. split; [reflexivity|]. split; eexists; split; reflexivity. Qed.

Lemma quit_driver_idempotent_witness :
  let e := Raise WebDriverException "chrome not reachable" in
  let s := State (Machine [] 1 true (Some e))
             (mkDriverFactory "chrome" false None (Some 0)) [] in
  exists s',
    quit_driver s = (s', inr tt) /\
    driver (self s') = None /\
    log s' = [Log INFO "Quitting driver: {}" [AStr "session-0"];
              Log ERROR "Error quitting driver: {}" [AExn e]].
Proof.
  intros e s.
  destruct (quit_driver_idempotent s) as (s' & Hq & Hd & _ & _ & Hlog).
  exists s'. split; [exact Hq|]. split; [exact Hd|].
  exact (proj2 (Hlog 0 (world s) e eq_refl eq_refl)).
Defined.

End FactoryFacts.

(** ** Configuration resolver: lookups, [set] and the section methods *)

Module ConfigExtFacts.
Import Py Config ConfigExt DictFacts ConfigFacts.

(** *** [set] *)





(** *** [update_section] *)






(** *** [_set_defaults]: when it succeeds and when it raises *)

(** On a section that is a dictionary the inner loop succeeds; the section
    stays a dictionary and the other sections stay as they are. *)
Lemma merge_keys_dict (s' : string) (values : dict) :
  forall d sd,
    dict_get s' d = Some (PDict sd) ->
    exists d' sd',
      merge_keys s' values (PDict d) = inr (PDict d') /\
      dict_get s' d' = Some (PDict sd') /\
      forall s, s <> s' -> dict_get s d' = dict_get s d.
Proof.
  induction values as [|[key value] rest IH]; intros d sd Hs.
  - exists d, sd. now repeat split.
  - rewrite merge_keys_cons. cbn [getitem]. rewrite Hs. cbn [bind contains].
    destruct (dict_mem key sd); cbn [bind setitem].
    + exact (IH d sd Hs).
    + destruct (IH (dict_set s' (PDict (dict_set key value sd)) d)
                  (dict_set key value sd) (dict_get_set_same _ _ _))
        as (d' & sd' & Hm & Hs' & Hfr).
      exists d', sd'. split; [exact Hm|]. split; [exact Hs'|].
      intros s Hne. rewrite (Hfr s Hne).
      apply dict_get_set_other. congruence.
Qed.


Lemma fillable_agree (d d' : dict) (s : string) :
  dict_get s d' = dict_get s d -> fillable (PDict d') s = fillable (PDict d) s.
Proof. unfold fillable. now intros ->. Qed.

Lemma merge_sections_succeeds (defs : list (string * dict)) :
  forall d,
    mergeable defs (PDict d) = true ->
    exists merged, merge_sections defs (PDict d) = inr merged.
Proof.
  unfold mergeable.
  induction defs as [|[s' values] rest IH]; intros d Hm; [now eexists|].
  cbn [forallb fst] in Hm. apply andb_prop in Hm as [Hs' Hrest].
  rewrite merge_sections_cons. cbn [contains bind].
  assert (Hkeep : forall d',
             (forall s, s <> s' -> dict_get s d' = dict_get s d) ->
             (exists sd', dict_get s' d' = Some (PDict sd')) ->
             forallb (fun sv => fillable (PDict d') (fst sv)) rest = true).
  { intros d' Hfr [sd' Hsd'].
    apply forallb_forall. intros sv Hin.
    rewrite forallb_forall in Hrest. specialize (Hrest sv Hin).
    destruct (String.eqb_spec (fst sv) s') as [->|Hne].
    - unfold fillable. now rewrite Hsd'.
    - now rewrite (fillable_agree d d' _ (Hfr _ Hne)). }
  unfold dict_mem, fillable in *.
  destruct (dict_get s' d) as [x|] eqn:Hx.
  - destruct x; try discriminate. cbn [bind].
    destruct (merge_keys_dict s' values d d0 Hx) as (d' & sd' & -> & Hsd' & Hfr).
    cbn [bind]. apply IH, Hkeep; [exact Hfr | now exists sd'].
  - cbn [bind setitem]. apply IH, Hkeep.
    + intros s Hne. apply dict_get_set_other. congruence.
    + exists values. apply dict_get_set_same.
Qed.

Lemma assoc_in {A : Type} (s : string) (l : list (string * A)) (v : A) :
  assoc s l = Some v -> In (s, v) l.
Proof.
  induction l as [|[k x] r IH]; cbn [assoc]; [discriminate|].
  destruct (String.eqb_spec k s) as [->|Hne].
  - intros [= ->]. now left.
  - intros H. right. now apply IH.
Qed.

(** A document in which every default section is left out or is a
    dictionary always merges, and then every key that has a built-in
    default is found in the merged configuration. *)
Theorem set_defaults_succeeds (doc : pyval) :
  mergeable defaults doc = true ->
  exists merged,
    _set_defaults doc = inr merged /\
    forall s k dv,
      builtin_default s k = Some dv ->
      exists v, file_value merged s k = Some v.
Proof.
  intros Hm.
  assert (Hd : exists d, doc = PDict d)
    by (destruct doc; try discriminate; now eexists).
  destruct Hd as [d ->].
  destruct (merge_sections_succeeds defaults d Hm) as [merged Hok].
  exists merged. split; [exact Hok|].
  intros s k dv Hdv.
  rewrite (merge_sections_spec _ s k defaults_distinct _ _ Hok).
  destruct (file_value (PDict d) s k) as [v|]; [now exists v|].
  assert (Hfill : fillable (PDict d) s = true).
  { unfold builtin_default, default_in in Hdv.
    destruct (assoc s defaults) as [values|] eqn:Ha; [|discriminate].
    unfold mergeable in Hm. rewrite forallb_forall in Hm.
    exact (Hm (s, values) (assoc_in _ _ _ Ha)). }
  rewrite Hfill. fold (builtin_default s k). rewrite Hdv. now exists dv.
Qed.

Lemma set_defaults_succeeds_witness :
  exists merged,
    _set_defaults (_load_config_file dev_file []) = inr merged /\
    exists v, file_value merged "logging" "level" = Some v.
Proof.
  destruct (set_defaults_succeeds (_load_config_file dev_file []) eq_refl)
    as (merged & Hok & Hall).
  exists merged. split; [exact Hok|].
  exact (Hall "logging" "level" (PStr "INFO") eq_refl).
Defined.





End ConfigExtFacts.


(** ** Wait/interaction layer: waits that succeed, and the alert methods *)

Module PageExtFacts.
Import Selenium Page PageExt PageFacts.
Local Open Scope sel_scope.

Section Waits.
Context {B : Type} `{WebDriver B}.

(** *** The polling loop, when the condition comes true *)

Lemma until_loop_first_true {A} (method : B -> option A) (k : nat) :
  forall sleeps b v,
    (k <= sleeps)%nat ->
    holds_first_at method k b v ->
    until_loop method sleeps b = (Nat.iter k sleep b, inr v).
Proof.
  induction k as [|k IH]; intros sleeps b v Hle [Hbefore Hat].
  - change (method b = Some v) in Hat.
    destruct sleeps; cbn [until_loop]; now rewrite Hat.
  - destruct sleeps as [|n]; [lia|]. cbn [until_loop].
    assert (Hb : method b = None) by exact (Hbefore 0%nat ltac:(lia)).
    rewrite Hb.
    rewrite Nat.iter_succ_r. apply IH; [lia|]. split.
    + intros j Hj. rewrite <- Nat.iter_succ_r. apply Hbefore. lia.
    + now rewrite <- Nat.iter_succ_r.
Qed.

Lemma first_or_never {A} (method : B -> option A) (sleeps : nat) :
  forall b,
    never_within method sleeps b \/
    exists k v, (k <= sleeps)%nat /\ holds_first_at method k b v.
Proof.
  induction sleeps as [|n IH]; intros b.
  - destruct (method b) as [v|] eqn:Hb.
    + right. exists 0%nat, v. split; [lia|]. split; [intros j Hj; lia | exact Hb].
    + left. now split.
  - destruct (method b) as [v|] eqn:Hb.
    + right. exists 0%nat, v. split; [lia|]. split; [intros j Hj; lia | exact Hb].
    + destruct (IH (sleep b)) as [Hn | (k & v & Hle & Hbefore & Hat)].
      * left. now split.
      * right. exists (S k), v. split; [lia|]. split.
        -- intros [|j] Hj; [exact Hb|].
           rewrite Nat.iter_succ_r. apply Hbefore. lia.
        -- now rewrite Nat.iter_succ_r.
Qed.

Lemma never_within_all {A} (method : B -> option A) (sleeps : nat) :
  forall b,
    never_within method sleeps b ->
    forall j, (j <= sleeps)%nat -> method (Nat.iter j sleep b) = None.
Proof.
  induction sleeps as [|n IH]; intros b [Hb Hrest] j Hj.
  - now replace j with 0%nat by lia.
  - destruct j as [|j]; [exact Hb|].
    rewrite Nat.iter_succ_r. apply IH; [exact Hrest | lia].
Qed.

Lemma never_excludes_within {A} (method : B -> option A) (sleeps : nat)
    (b : B) :
  never_within method sleeps b -> ~ holds_within method sleeps b.
Proof.
  intros Hn (k & v & Hle & Hat).
  rewrite (never_within_all _ _ _ Hn k Hle) in Hat. discriminate.
Qed.

Lemma first_is_within {A} (method : B -> option A) (sleeps k : nat) (b : B)
    (v : A) :
  (k <= sleeps)%nat -> holds_first_at method k b v ->
  holds_within method sleeps b.
Proof. intros Hle [_ Hat]. now exists k, v. Qed.

(** What [WebDriverWait(...).until(method)] does, case by case. *)
Lemma until_cases {A} (method : B -> option A) (t : Z) (s : state B) :
  (never_within method (polls t) (browser s) /\
   until t method s
   = (State (Nat.iter (polls t) sleep (browser s)) (log s),
      inl (Raise TimeoutException "")))
  \/
  (exists k v,
     (k <= polls t)%nat /\ holds_first_at method k (browser s) v /\
     until t method s = (State (Nat.iter k sleep (browser s)) (log s), inr v)).
Proof.
  unfold until, on_driver.
  destruct (first_or_never method (polls t) (browser s))
    as [Hn | (k & v & Hle & Hfirst)].
  - left. split; [exact Hn|]. now rewrite (until_loop_expires _ _ _ Hn).
  - right. exists k, v. split; [exact Hle|]. split; [exact Hfirst|].
    now rewrite (until_loop_first_true _ _ _ _ _ Hle Hfirst).
Qed.

Lemma raising_wait_first_true {A} (method : B -> option A) (t : Z)
    (before after : record) (s : state B) (k : nat) (v : A) :
  (k <= polls t)%nat ->
  holds_first_at method k (browser s) v ->
  raising_wait method t before after s
  = (State (Nat.iter k sleep (browser s)) (log s ++ [before]), inr v).
Proof.
  intros Hle Hfirst.
  unfold raising_wait, bind, logger, try_except, until, on_driver.
  cbn [browser log]. rewrite (until_loop_first_true _ _ _ _ _ Hle Hfirst).
  now destruct before.
Qed.

(** A raising wait returns at the first poll at which its condition holds,
    when that poll comes before the deadline: it has slept that many
    intervals and no more, it returns what the condition gave, and it has
    written its DEBUG record only. *)
Theorem waits_return_at_first_poll (self : BasePage) (l : locator)
    (T : option Z) (s : state B) (k : nat) :
  (k <= polls (timeout_or T self))%nat ->
  let page := Nat.iter k sleep (browser s) in
  (forall h,
     holds_first_at (visibility_of_element_located l) k (browser s) h ->
     wait_for_element self l T s
     = (State page (log s ++ [Log DEBUG "Waiting for element: {}"
                                [ALocator l]]), inr h))
  /\
  (forall hs,
     holds_first_at (presence_of_all_elements_located l) k (browser s) hs ->
     wait_for_elements self l T s
     = (State page (log s ++ [Log DEBUG "Waiting for elements: {}"
                                [ALocator l]]), inr hs))
  /\
  (forall h,
     holds_first_at (element_to_be_clickable l) k (browser s) h ->
     wait_for_element_clickable self l T s
     = (State page (log s ++ [Log DEBUG "Waiting for element to be clickable: {}"
                                [ALocator l]]), inr h)).
Proof.
  intros Hle page. repeat split; intros v Hfirst.
  - rewrite wait_for_element_shape. now apply raising_wait_first_true.
  - rewrite wait_for_elements_shape. now apply raising_wait_first_true.
  - rewrite wait_for_element_clickable_shape.
    now apply raising_wait_first_true.
Qed.

(** The page a wait returns on is one of the pages it polled. *)
Lemma until_loop_page {A} (method : B -> option A) (sleeps : nat) :
  forall b b' r,
    until_loop method sleeps b = (b', r) ->
    exists k, (k <= sleeps)%nat /\ b' = Nat.iter k sleep b.
Proof.
  induction sleeps as [|n IH]; intros b b' r; cbn [until_loop];
    destruct (method b).
  - intros [= <- _]. now exists 0%nat.
  - intros [= <- _]. now exists 0%nat.
  - intros [= <- _]. exists 0%nat. split; [lia | reflexivity].
  - intros Hu. destruct (IH _ _ _ Hu) as (k & Hle & ->).
    exists (S k). split; [lia|]. now rewrite Nat.iter_succ_r.
Qed.

Lemma raising_wait_page {A} (method : B -> option A) (t : Z)
    (before after : record) (s s' : state B) (v : A) :
  raising_wait method t before after s = (s', inr v) ->
  exists k, (k <= polls t)%nat /\ browser s' = Nat.iter k sleep (browser s).
Proof.
  unfold raising_wait, bind, logger, try_except, until, on_driver.
  cbn [browser log].
  destruct (until_loop method (polls t) (browser s)) as [b' [e|v']] eqn:E.
  - rewrite (until_loop_raises _ _ _ _ _ E). cbn. discriminate.
  - intros [= <- <-]. cbn [browser]. exact (until_loop_page _ _ _ _ _ E).
Qed.

(** What a raising wait returns is true of the page it returns on, which is
    a page polled before the deadline: the element of [wait_for_element]
    is the first match and is displayed, that of
    [wait_for_element_clickable] is enabled as well, and the list of
    [wait_for_elements] is the list of all matches and is not empty. *)
Theorem waits_return_what_the_page_shows (self : BasePage) (l : locator)
    (T : option Z) (s s' : state B) :
  let within :=
    exists k, (k <= polls (timeout_or T self))%nat /\
              browser s' = Nat.iter k sleep (browser s) in
  (forall h,
     wait_for_element self l T s = (s', inr h) ->
     within /\
     (exists rest, find_elements (browser s') l = h :: rest) /\
     is_displayed (browser s') h = true)
  /\
  (forall h,
     wait_for_element_clickable self l T s = (s', inr h) ->
     within /\
     (exists rest, find_elements (browser s') l = h :: rest) /\
     is_displayed (browser s') h = true /\ is_enabled (browser s') h = true)
  /\
  (forall hs,
     wait_for_elements self l T s = (s', inr hs) ->
     within /\ find_elements (browser s') l = hs /\ hs <> []).
Proof.
  intros within. split; [|split]; intros x Hw.
  - rewrite wait_for_element_shape in Hw.
    split; [exact (raising_wait_page _ _ _ _ _ _ _ Hw)|].
    apply raising_wait_returns in Hw as [Hv _].
    unfold visibility_of_element_located in Hv.
    destruct (find_elements (browser s') l) as [|e rest]; [discriminate|].
    destruct (is_displayed (browser s') e) eqn:Hd; [|discriminate].
    injection Hv as <-. split; [now exists rest | exact Hd].
  - rewrite wait_for_element_clickable_shape in Hw.
    split; [exact (raising_wait_page _ _ _ _ _ _ _ Hw)|].
    apply raising_wait_returns in Hw as [Hv _].
    unfold element_to_be_clickable in Hv.
    destruct (find_elements (browser s') l) as [|e rest]; [discriminate|].
    destruct (is_displayed (browser s') e) eqn:Hd; [|discriminate].
    destruct (is_enabled (browser s') e) eqn:He; [|discriminate].
    injection Hv as <-. split; [now exists rest|]. now split.
  - rewrite wait_for_elements_shape in Hw.
    split; [exact (raising_wait_page _ _ _ _ _ _ _ Hw)|].
    apply raising_wait_returns in Hw as [Hv _].
    unfold presence_of_all_elements_located in Hv.
    destruct (find_elements (browser s') l) as [|e rest]; [discriminate|].
    injection Hv as <-. split; [reflexivity | discriminate].
Qed.

(** The boolean waits answer true exactly when their condition holds at a
    poll before the deadline, and they never raise; [is_element_visible]
    writes nothing to the log. *)
Theorem boolean_waits_are_exact (self : BasePage) (l : locator)
    (text : string) (T : option Z) (s : state B) :
  let n := polls (timeout_or T self) in
  (exists s' r,
     is_element_visible self l T s = (s', inr r) /\
     log s' = log s /\
     (r = true <->
      holds_within (visibility_of_element_located l) n (browser s)))
  /\
  (exists s' r,
     wait_for_element_invisible self l T s = (s', inr r) /\
     (answer_bool r = true <->
      holds_within (invisibility_of_element_located l) n (browser s)))
  /\
  (exists s' r,
     wait_for_url_contains self text T s = (s', inr r) /\
     (answer_bool r = true <->
      holds_within (url_contains text) n (browser s))).
Proof.
  intros n. split; [|split].
  - unfold is_element_visible, try_except, bind, ret.
    destruct (until_cases (visibility_of_element_located l)
                (timeout_or T self) s)
      as [[Hn ->] | (k & v & Hle & Hfirst & ->)]; cbn.
    + do 2 eexists. split; [reflexivity|]. split; [reflexivity|].
      split; [discriminate|].
      intros Hw. now destruct (never_excludes_within _ _ _ Hn).
    + do 2 eexists. split; [reflexivity|]. split; [reflexivity|].
      split; [|reflexivity].
      intros _. exact (first_is_within _ _ _ _ _ Hle Hfirst).
  - unfold wait_for_element_invisible, try_except, bind, ret.
    unfold logger at 1.
    destruct (until_cases (invisibility_of_element_located l)
                (timeout_or T self)
                (State (browser s)
                   (log s ++ [Log DEBUG "Waiting for element to be invisible: {}"
                                [ALocator l]])))
      as [[Hn ->] | (k & v & Hle & Hfirst & ->)]; cbn.
    + do 2 eexists. split; [reflexivity|].
      split; [discriminate|].
      intros Hw. now destruct (never_excludes_within _ _ _ Hn).
    + do 2 eexists. split; [reflexivity|]. split; [|reflexivity].
      intros _. exact (first_is_within _ _ _ _ _ Hle Hfirst).
  - unfold wait_for_url_contains, try_except, bind, ret.
    unfold logger at 1.
    destruct (until_cases (url_contains text) (timeout_or T self)
                (State (browser s)
                   (log s ++ [Log DEBUG "Waiting for URL to contain: {}"
                                [AStr text]])))
      as [[Hn ->] | (k & v & Hle & Hfirst & ->)]; cbn.
    + do 2 eexists. split; [reflexivity|].
      split; [discriminate|].
      intros Hw. now destruct (never_excludes_within _ _ _ Hn).
    + do 2 eexists. split; [reflexivity|]. split; [|reflexivity].
      intros _. exact (first_is_within _ _ _ _ _ Hle Hfirst).
Qed.

End Waits.

Section AlertMethods.
Context {B : Type} `{WebDriver B} `{Alerts B}.

(** A [try ... except TimeoutException] block lets no timeout out. *)
Lemma try_except_timeout {S A} (c : M S A) (handler : exn -> M S A)
    (s s' : S) (e : exn) :
  (forall e0 s0 s1 e1, handler e0 s0 = (s1, inl e1) -> is_timeout e1 = false) ->
  try_except c is_timeout handler s = (s', inl e) ->
  is_timeout e = false.
Proof.
  intros Hh. unfold try_except.
  destruct (c s) as [s1 [e1|v]]; [|discriminate].
  destruct (is_timeout e1) eqn:Ht.
  - apply Hh.
  - now intros [= _ <-].
Qed.

(** The alert methods let no [TimeoutException] out.  When no alert shows
    up before the deadline they write a WARNING record and return
    ([get_alert_text] returns [None]), and the session has only been
    polled. *)
Theorem alert_methods_absorb_timeout (self : BasePage) (T : option Z)
    (s : state B) :
  let t := timeout_or T self in
  let after := Nat.iter (polls t) sleep (browser s) in
  (forall s' e, accept_alert self T s = (s', inl e) -> is_timeout e = false) /\
  (forall s' e, dismiss_alert self T s = (s', inl e) -> is_timeout e = false) /\
  (forall s' e, get_alert_text self T s = (s', inl e) -> is_timeout e = false) /\
  (never_within alert_is_present (polls t) (browser s) ->
   accept_alert self T s
   = (State after (log s ++ [Log INFO "Accepting alert" [];
                             Log WARNING "No alert present to accept" []]),
      inr tt) /\
   dismiss_alert self T s
   = (State after (log s ++ [Log INFO "Dismissing alert" [];
                             Log WARNING "No alert present to dismiss" []]),
      inr tt) /\
   get_alert_text self T s
   = (State after (log s ++ [Log WARNING "No alert present" []]), inr None)).
Proof.
  intros t after. split; [|split; [|split]].
  - intros s' e. unfold accept_alert, bind at 1. unfold logger at 1.
    apply try_except_timeout. intros e0 s0 s1 e1. unfold logger. discriminate.
  - intros s' e. unfold dismiss_alert, bind at 1. unfold logger at 1.
    apply try_except_timeout. intros e0 s0 s1 e1. unfold logger. discriminate.
  - intros s' e. unfold get_alert_text.
    apply try_except_timeout. intros e0 s0 s1 e1.
    unfold bind, logger, ret. discriminate.
  - intros Hn. split; [|split].
    + unfold accept_alert, try_except, bind, logger, until, on_driver.
      cbn [browser log]. fold t. rewrite (until_loop_expires _ _ _ Hn).
      cbn. now rewrite <- app_assoc.
    + unfold dismiss_alert, try_except, bind, logger, until, on_driver.
      cbn [browser log]. fold t. rewrite (until_loop_expires _ _ _ Hn).
      cbn. now rewrite <- app_assoc.
    + unfold get_alert_text, try_except, bind, logger, until, on_driver, ret.
      cbn [browser log]. fold t. rewrite (until_loop_expires _ _ _ Hn).
      reflexivity.
Qed.

End AlertMethods.

(** *** On the small browsers *)

Import Sim.

Lemma waits_return_at_first_poll_witness :
  holds_first_at (element_to_be_clickable LOGIN_BUTTON) 2 (loading "") 2 /\
  wait_for_element_clickable page10 LOGIN_BUTTON (Some 1%Z)
    (start (loading ""))
  = (State (Nat.iter 2 sleep (loading ""))
       [Log DEBUG "Waiting for element to be clickable: {}"
          [ALocator LOGIN_BUTTON]],
     inr 2).
Proof.
  assert (Hfirst : holds_first_at (element_to_be_clickable LOGIN_BUTTON) 2
                     (loading "") 2).
  { split; [|reflexivity].
    intros [|[|j]] Hj; [reflexivity | reflexivity | lia]. }
  split; [exact Hfirst|].
  assert (Hle : (2 <= polls (timeout_or (Some 1%Z) page10))%nat)
    by (cbn; lia).
  exact (proj2 (proj2 (waits_return_at_first_poll page10 LOGIN_BUTTON
                         (Some 1%Z) (start (loading "")) 2 Hle))
           2 Hfirst).
Defined.

Lemma waits_return_what_the_page_shows_witness :
  exists s',
    wait_for_element page10 USERNAME_INPUT None (start (loading "ab"))
    = (s', inr 1) /\
    is_displayed (browser s') 1 = true.
Proof.
  pose (s' := fst (wait_for_element page10 USERNAME_INPUT None
                     (start (loading "ab")))).
  assert (Hw : wait_for_element page10 USERNAME_INPUT None
                 (start (loading "ab")) = (s', inr 1)) by reflexivity.
  exists s'. split; [exact Hw|].
  exact (proj2 (proj2 (proj1 (waits_return_what_the_page_shows page10
                                USERNAME_INPUT None (start (loading "ab")) s')
                         1 Hw))).
Defined.

Import SimAlert.

Lemma alert_methods_absorb_timeout_witness :
  never_within alert_is_present (polls (timeout_or (Some 1%Z) page10)) quiet /\
  get_alert_text page10 (Some 1%Z) (State quiet [])
  = (State (Nat.iter 2 sleep quiet) [Log WARNING "No alert present" []],
     inr None).
Proof.
  assert (Hn : never_within alert_is_present
                 (polls (timeout_or (Some 1%Z) page10)) quiet)
    by (cbn; repeat split).
  split; [exact Hn|].
  exact (proj2 (proj2 (proj2 (proj2 (proj2
           (alert_methods_absorb_timeout page10 (Some 1%Z) (State quiet []))))
           Hn))).
Defined.

End PageExtFacts.

(** ** Login page *)

Module LoginFacts.
Import Selenium Page PageExt PageFacts PageExtFacts Login.
Local Open Scope sel_scope.

Section LoginPage.
Context {B : Type} `{WebDriver B}.

Lemma bind_logger {A} (l : level) (t : string) (a : list arg)
    (k : unit -> M (state B) A) (s : state B) :
  bind (logger l t a) k s = k tt (State (browser s) (log s ++ [Log l t a])).
Proof. reflexivity. Qed.

(** [login] on a page that does not show the username field before the
    deadline: the wait of [enter_username] expires, [login] raises its
    [TimeoutException], and the session has only been polled; nothing was
    typed and nothing was clicked.  The log holds the user name and the
    locator. *)
Theorem login_stops_without_username_field (self : BasePage)
    (username password : string) (s : state B) :
  let t := timeout_or None self in
  never_within (visibility_of_element_located USERNAME_INPUT) (polls t)
    (browser s) ->
  login self username password s
  = (State (Nat.iter (polls t) sleep (browser s))
       (log s ++
        [Log INFO "Logging in with user: {}" [AStr username];
         Log INFO "Entering username: {}" [AStr username];
         Log DEBUG "Waiting for element: {}" [ALocator USERNAME_INPUT];
         Log ERROR "Element not found within {}s: {}"
           [AInt t; ALocator USERNAME_INPUT]]),
     inl (Raise TimeoutException "")).
Proof.
  intros t Hn. unfold login. rewrite bind_logger. apply bind_raises.
  unfold enter_username. rewrite bind_logger. apply bind_raises.
  unfold enter_text. apply bind_raises.
  rewrite wait_for_element_shape, raising_wait_expires by exact Hn.
  cbn [browser log]. fold t. now rewrite <- !app_assoc.
Qed.

(** Without an error message on the page for three seconds,
    [get_error_message] returns the empty text and [clear_error] clicks
    nothing: neither raises, neither writes to the log, and the session
    has only been polled. *)
Theorem error_helpers_without_error (self : BasePage) (s : state B) :
  never_within (visibility_of_element_located ERROR_MESSAGE) (polls 3)
    (browser s) ->
  let after := State (Nat.iter (polls 3) sleep (browser s)) (log s) in
  is_error_displayed self s = (after, inr false) /\
  get_error_message self s = (after, inr "") /\
  clear_error self s = (after, inr self).
Proof.
  intros Hn after.
  assert (Hshown : is_error_displayed self s = (after, inr false)).
  { unfold is_error_displayed, is_element_visible, try_except, bind, until,
      on_driver, ret.
    change (timeout_or (Some 3%Z) self) with 3%Z.
    now rewrite (until_loop_expires _ _ _ Hn). }
  split; [exact Hshown|]. split.
  - unfold get_error_message. now rewrite (bind_returns _ _ _ _ _ Hshown).
  - unfold clear_error. now rewrite (bind_returns _ _ _ _ _ Hshown).
Qed.

(** [is_login_successful] never raises.  It answers [False] when the
    inventory container is not visible before its deadline of ten seconds,
    so an answer [True] means the container was visible at a poll within
    that time. *)
Theorem is_login_successful_never_raises (self : BasePage) (s : state B) :
  exists s' r,
    is_login_successful self s = (s', inr r) /\
    (never_within (visibility_of_element_located INVENTORY_CONTAINER)
       (polls 10) (browser s) -> r = false) /\
    (r = true ->
     holds_within (visibility_of_element_located INVENTORY_CONTAINER)
       (polls 10) (browser s)).
Proof.
  assert (Hexp :
    never_within (visibility_of_element_located INVENTORY_CONTAINER)
      (polls 10) (browser s) ->
    exists s', is_login_successful self s = (s', inr false)).
  { intros Hn. unfold is_login_successful, try_except.
    rewrite (bind_raises _ _ s _ _
               (eq_trans (f_equal (fun w => w s)
                            (wait_for_element_shape self INVENTORY_CONTAINER
                               (Some 10%Z)))
                         (raising_wait_expires _ _ _ _ s Hn))).
    now eexists. }
  unfold is_login_successful, try_except in *.
  match goal with
  | |- context [match ?body s with _ => _ end] =>
      destruct (body s) as [s1 [e|r]] eqn:Hbody
  end.
  - cbn. do 2 eexists. split; [reflexivity|].
    split; [reflexivity | discriminate].
  - exists s1, r. split; [reflexivity|]. split.
    + intros Hn. destruct (Hexp Hn) as [s' Hs']. now injection Hs'.
    + intros ->.
      destruct (first_or_never (visibility_of_element_located
                                  INVENTORY_CONTAINER) (polls 10) (browser s))
        as [Hn | (k & v & Hle & Hfirst)].
      * destruct (Hexp Hn) as [s' Hs']. discriminate.
      * exact (first_is_within _ _ _ _ _ Hle Hfirst).
Qed.

(** The loop of [validate_page_elements]: one record for each element,
    the page left alone, and the conjunction of the checks returned. *)
Lemma check_elements_spec (self : BasePage)
    (elements : list (locator * string)) :
  forall all_present s,
    check_elements self elements all_present s
    = (State (browser s) (log s ++ map (check_record (browser s)) elements),
       inr (all_present && forallb (on_page (browser s)) elements)).
Proof.
  induction elements as [|[l name] rest IH]; intros all_present s.
  - cbn. rewrite app_nil_r, andb_true_r. now destruct s.
  - cbn [check_elements]. unfold bind at 1, is_element_present.
    cbn [map forallb]. unfold check_record at 1, on_page at 1. cbn [fst snd].
    destruct (find_elements (browser s) l) as [|e es]; cbn [negb].
    + rewrite bind_logger, IH. cbn [browser log].
      now rewrite <- app_assoc, andb_false_r.
    + rewrite bind_logger, IH. cbn [browser log].
      now rewrite <- app_assoc.
Qed.

(** [validate_page_elements] never raises and leaves the page as it is.
    It looks for all four elements, also after one is missing, writes a
    record for each, and answers [True] exactly when each of the four
    locators finds an element. *)
Theorem validate_page_elements_checks_all (self : BasePage) (s : state B) :
  validate_page_elements self s
  = (State (browser s)
       (log s ++ Log INFO "Validating login page elements" []
          :: map (check_record (browser s)) elements_to_check),
     inr (forallb (on_page (browser s)) elements_to_check)).
Proof.
  unfold validate_page_elements. rewrite bind_logger, check_elements_spec.
  cbn [browser log andb]. now rewrite <- app_assoc.
Qed.

End LoginPage.

(** *** On the small browser *)

Import Sim.

Lemma login_stops_without_username_field_witness :
  let blank := Window [] [] "about:blank" [] in
  never_within (visibility_of_element_located Login.USERNAME_INPUT)
    (polls (timeout_or None page10)) blank /\
  exists s',
    login page10 "standard_user" "secret_sauce" (start blank)
    = (s', inl (Raise TimeoutException "")) /\
    browser s' = blank.
Proof.
  intros blank.
  assert (Hn : never_within
                 (visibility_of_element_located Login.USERNAME_INPUT)
                 (polls (timeout_or None page10)) blank)
    by (cbn; repeat split).
  split; [exact Hn|].
  eexists. split.
  - exact (login_stops_without_username_field page10 "standard_user"
             "secret_sauce" (start blank) Hn).
  - reflexivity.
Defined.

Lemma error_helpers_without_error_witness :
  never_within (visibility_of_element_located Login.ERROR_MESSAGE) (polls 3)
    (loading "") /\
  get_error_message page10 (start (loading ""))
  = (State (Nat.iter (polls 3) sleep (loading "")) [], inr "").
Proof.
  assert (Hn : never_within
                 (visibility_of_element_located Login.ERROR_MESSAGE)
                 (polls 3) (loading ""))
    by (cbn; repeat split).
  split; [exact Hn|].
  exact (proj1 (proj2 (error_helpers_without_error page10
                         (start (loading "")) Hn))).
Defined.

End LoginFacts.


(** ** Driver lifecycle manager: what becomes of the session *)

Module FactoryExtFacts.
Import Selenium Factory FactoryExt FactoryFacts.
Local Open Scope sel_scope.

Section Sessions.
Context {W : Type} `{Backend W}.

Lemma bind_logger_factory {A} (l : level) (t : string) (a : list arg)
    (k : unit -> M (state W) A) (s : state W) :
  bind (logger l t a) k s
  = k tt (State (world s) (self s) (log s ++ [Log l t a])).
Proof. reflexivity. Qed.

(** *** Computations that leave the factory alone *)

Lemma keeps_self_bind {A C} (c : M (state W) A) (k : A -> M (state W) C) :
  keeps_self c -> (forall a, keeps_self (k a)) -> keeps_self (bind c k).
Proof.
  intros Hc Hk s s' r. unfold bind.
  destruct (c s) as [s1 [e|a]] eqn:E.
  - intros [= <- _]. exact (Hc _ _ _ E).
  - intros Hka. rewrite (Hk a _ _ _ Hka). exact (Hc _ _ _ E).
Qed.

Lemma keeps_self_on_backend {A} (c : M W A) : keeps_self (on_backend c).
Proof.
  intros s s' r. unfold on_backend.
  destruct (c (world s)) as [w r']. now intros [= <- _].
Qed.

Lemma keeps_self_logger (l : level) (t : string) (a : list arg) :
  keeps_self (logger (W := W) l t a).
Proof. intros s s' r. unfold logger. now intros [= <- _]. Qed.

Lemma keeps_self_ret {A} (a : A) : keeps_self (ret (S := state W) a).
Proof. intros s s' r. unfold ret. now intros [= <- _]. Qed.

Lemma keeps_self_this : keeps_self (this (W := W)).
Proof. intros s s' r. unfold this. now intros [= <- _]. Qed.

Lemma keeps_self_configure : keeps_self (_configure_driver (W := W)).
Proof.
  unfold _configure_driver.
  apply keeps_self_bind; [exact keeps_self_this|]. intros f.
  destruct (driver f) as [d|]; [|apply keeps_self_ret].
  repeat (apply keeps_self_bind; [apply keeps_self_on_backend | intros _]).
  apply keeps_self_bind.
  - destruct (negb (headless f));
      [apply keeps_self_on_backend | apply keeps_self_ret].
  - intros _. apply keeps_self_logger.
Qed.

Lemma keeps_self_remote : keeps_self (_create_remote_driver (W := W)).
Proof.
  unfold _create_remote_driver.
  apply keeps_self_bind; [exact keeps_self_this|]. intros f.
  apply keeps_self_bind; [apply keeps_self_logger|]. intros _.
  apply keeps_self_on_backend.
Qed.

(** *** Remote sessions *)

(** A factory with a remote url never stores the session it opens: after
    [create_driver], whatever its outcome, the factory is as before, and
    [quit_driver] on a factory that held no driver does nothing at all, so
    the remote session is not closed by it. *)
Theorem remote_session_is_never_quit (s s1 : state W) (r : exn + session) :
  has_remote (self s) = true ->
  create_driver s = (s1, r) ->
  self s1 = self s /\
  (driver (self s) = None -> quit_driver s1 = (s1, inr tt)).
Proof.
  intros Hr Hc. rewrite (create_driver_remote s Hr) in Hc.
  apply keeps_self_remote in Hc. cbn [self] in Hc.
  split; [exact Hc|].
  intros Hd. unfold quit_driver, bind, this. now rewrite Hc, Hd.
Qed.

(** *** Local sessions *)

(** The three entries of [driver_map] start a local session with the
    options of their browser. *)
Lemma driver_map_entry (b : string) (create : M (state W) session) :
  Py.assoc b driver_map = Some create ->
  exists opts,
    (forall h, local_options b h = Some (opts h)) /\
    forall s,
      create s =
      match start_local (opts (headless (self s))) (world s) with
      | (w, r) => (State w (self s) (log s), r)
      end.
Proof.
  unfold driver_map, local_options. cbn [Py.assoc].
  destruct ("chrome" =? b);
    [intros [= <-]; exists chrome_options; now split|].
  destruct ("firefox" =? b);
    [intros [= <-]; exists firefox_options; now split|].
  destruct ("edge" =? b);
    [intros [= <-]; exists edge_options; now split|].
  discriminate.
Qed.

(** The ways a local [create_driver] can go. *)
Lemma create_driver_local_cases (s s1 : state W) (r : exn + session) :
  has_remote (self s) = false ->
  create_driver s = (s1, r) ->
  (local_options (browser (self s)) (headless (self s)) = None /\
   r = inl (unsupported (browser (self s))) /\
   self s1 = self s /\ world s1 = world s)
  \/
  (exists o,
     local_options (browser (self s)) (headless (self s)) = Some o /\
     ((exists e, start_local o (world s) = (world s1, inl e) /\
                 r = inl e /\ self s1 = self s)
      \/
      (exists w1 d, start_local o (world s) = (w1, inr d) /\
                    self s1 = holding (self s) (Some d) /\
                    (r = inr d \/ exists e, r = inl e)))).
Proof.
  intros Hr. unfold create_driver, bind at 1, this.
  rewrite bind_logger_factory. cbn [self world log]. rewrite Hr.
  destruct (Py.assoc (browser (self s)) driver_map) as [create|] eqn:Hm.
  - destruct (driver_map_entry _ _ Hm) as (opts & Hopts & Hcreate).
    intros Hc. right. exists (opts (headless (self s))).
    split; [apply Hopts|].
    unfold bind at 1 in Hc. rewrite Hcreate in Hc. cbn [self world log] in Hc.
    destruct (start_local (opts (headless (self s))) (world s))
      as [w1 [e|d]] eqn:Hstart.
    + left. injection Hc as <- <-. exists e. now repeat split.
    + right. exists w1, d. split; [reflexivity|].
      unfold bind at 1, set_driver in Hc. cbn [self world log] in Hc.
      unfold bind at 1 in Hc.
      match type of Hc with
      | context [_configure_driver ?s0] =>
          destruct (_configure_driver s0) as [s2 [e|[]]] eqn:Hconf;
          pose proof (keeps_self_configure _ _ _ Hconf) as Hself;
          cbn [self] in Hself
      end.
      * injection Hc as <- <-. split; [exact Hself|]. right. now exists e.
      * unfold ret in Hc. injection Hc as <- <-. split; [exact Hself|].
        now left.
  - unfold raise. intros [= <- <-]. left. repeat split.
    unfold driver_map, local_options in *. cbn [Py.assoc] in Hm.
    destruct ("chrome" =? browser (self s)); [discriminate|].
    destruct ("firefox" =? browser (self s)); [discriminate|].
    destruct ("edge" =? browser (self s)); [discriminate|]. reflexivity.
Qed.

(** A local [create_driver] that returns a session holds that very session
    in [self.driver] and has changed no other field; [quit_driver] then
    calls [quit] on it, returns whatever [quit] does, and holds nothing. *)
Theorem local_session_is_held_and_quit (s s1 : state W) (d : session) :
  has_remote (self s) = false ->
  create_driver s = (s1, inr d) ->
  self s1 = holding (self s) (Some d) /\
  exists s2,
    quit_driver s1 = (s2, inr tt) /\
    world s2 = fst (quit d (world s1)) /\
    self s2 = holding (self s) None.
Proof.
  intros Hr Hc.
  destruct (create_driver_local_cases s s1 _ Hr Hc)
    as [(_ & Hx & _) | (o & _ & [(e & _ & Hx & _) | (w1 & d' & _ & Hself & Hres)])];
    try discriminate.
  destruct Hres as [[= <-] | [e He]]; [|discriminate].
  split; [exact Hself|].
  unfold quit_driver, bind at 1, this. rewrite Hself. cbn [driver holding].
  unfold try_finally, try_except, bind, logger, on_backend.
  cbn [world self log].
  destruct (quit d (world s1)) as [w' [e|[]]]; cbn [world self log fst];
    eexists; split; try reflexivity; cbn [world self]; rewrite Hself;
    now split.
Qed.

(** [quit_driver] on a factory that holds a session calls [quit] on it,
    returns whatever [quit] does, and holds nothing afterwards. *)
Lemma quit_driver_of_held (s1 : state W) (f : DriverFactory) (d : session) :
  self s1 = holding f (Some d) ->
  exists s2,
    quit_driver s1 = (s2, inr tt) /\
    world s2 = fst (quit d (world s1)) /\
    self s2 = holding f None.
Proof.
  intros Hself.
  unfold quit_driver, bind at 1, this. rewrite Hself. cbn [driver holding].
  unfold try_finally, try_except, bind, logger, on_backend.
  cbn [world self log].
  destruct (quit d (world s1)) as [w' [e|[]]]; cbn [world self log fst];
    eexists; split; try reflexivity; cbn [world self]; rewrite Hself;
    now split.
Qed.

(** What a local [create_driver] that raises leaves behind, by what
    happened.  The name is not supported: the ValueError is raised,
    nothing was started, the factory is as before.  Starting the browser
    raised: that exception leaves, the factory is as before.  The browser
    was started and configuring it raised: the session is held in
    [self.driver], and [quit_driver] calls [quit] on it. *)
Theorem local_failure_keeps_started_session (s s1 : state W) (e : exn) :
  has_remote (self s) = false ->
  create_driver s = (s1, inl e) ->
  match local_options (browser (self s)) (headless (self s)) with
  | None =>
      e = unsupported (browser (self s)) /\
      self s1 = self s /\ world s1 = world s
  | Some o =>
      match start_local o (world s) with
      | (w1, inl e') => e = e' /\ self s1 = self s /\ world s1 = w1
      | (w1, inr d) =>
          self s1 = holding (self s) (Some d) /\
          exists s2,
            quit_driver s1 = (s2, inr tt) /\
            world s2 = fst (quit d (world s1)) /\
            self s2 = holding (self s) None
      end
  end.
Proof.
  intros Hr Hc.
  destruct (create_driver_local_cases s s1 _ Hr Hc)
    as [(Ho & He & Hself & Hw)
       | (o & Ho & [(e' & Hstart & He & Hself)
                   | (w1 & d & Hstart & Hself & _)])];
    rewrite Ho.
  - injection He as ->. now repeat split.
  - rewrite Hstart. injection He as ->. now repeat split.
  - rewrite Hstart. split; [exact Hself|].
    exact (quit_driver_of_held s1 (self s) d Hself).
Qed.

(** A local factory refuses a browser that is not in [driver_map] with a
    ValueError that names the browser and lists the supported ones; it has
    started nothing and the factory is as before. *)
Theorem unsupported_browser_is_refused (s : state W) :
  has_remote (self s) = false ->
  local_options (browser (self s)) (headless (self s)) = None ->
  create_driver s
  = (State (world s) (self s)
       (log s ++ [Log INFO "Creating {} driver (headless={})"
                    [AStr (browser (self s)); ABool (headless (self s))]]),
     inl (Raise ValueError
            ("Unsupported browser: " ++ browser (self s)
             ++ ". Supported browsers: chrome, firefox, edge"))).
Proof.
  intros Hr Ho.
  rewrite (create_driver_local_unsupported s Hr); [reflexivity|].
  unfold driver_map, local_options in *. cbn [Py.assoc].
  destruct ("chrome" =? browser (self s)); [discriminate|].
  destruct ("firefox" =? browser (self s)); [discriminate|].
  destruct ("edge" =? browser (self s)); [discriminate|]. reflexivity.
Qed.

End Sessions.

(** *** On the small machines *)

Import Lab.

Lemma remote_session_is_never_quit_witness :
  exists s1,
    create_driver (boot (__init__ "chrome" false (Some GRID))) = (s1, inr 0) /\
    quit_driver s1 = (s1, inr tt) /\
    map fst (open_sessions (world s1)) = [0].
Proof.
  pose (s := boot (__init__ "chrome" false (Some GRID))).
  pose (s1 := fst (create_driver s)).
  assert (Hc : create_driver s = (s1, inr 0)) by reflexivity.
  exists s1. split; [exact Hc|]. split; [|reflexivity].
  exact (proj2 (remote_session_is_never_quit s s1 (inr 0) eq_refl Hc) eq_refl).
Defined.

Lemma local_session_is_held_and_quit_witness :
  exists s1 s2,
    create_driver (boot (__init__ "Firefox" true None)) = (s1, inr 0) /\
    driver (self s1) = Some 0 /\
    quit_driver s1 = (s2, inr tt) /\
    open_sessions (world s2) = [].
Proof.
  pose (s := boot (__init__ "Firefox" true None)).
  pose (s1 := fst (create_driver s)).
  assert (Hc : create_driver s = (s1, inr 0)) by reflexivity.
  destruct (local_session_is_held_and_quit s s1 0 eq_refl Hc)
    as (Hself & s2 & Hq & Hw & _).
  exists s1, s2. split; [exact Hc|]. split; [now rewrite Hself|].
  split; [exact Hq|]. rewrite Hw. reflexivity.
Defined.

Lemma unsupported_browser_is_refused_witness :
  create_driver (boot (__init__ "Opera" false (Some "")))
  = (State idle (__init__ "Opera" false (Some ""))
       [Log INFO "Creating {} driver (headless={})"
          [AStr "opera"; ABool false]],
     inl (Raise ValueError
            "Unsupported browser: opera. Supported browsers: chrome, firefox, edge")).
Proof.
  exact (unsupported_browser_is_refused
           (boot (__init__ "Opera" false (Some ""))) eq_refl eq_refl).
Defined.

Import Kiosk.

Lemma local_failure_keeps_started_session_witness :
  let s := State (InKiosk idle) (__init__ "edge" false None) [] in
  exists s1 e s2,
    create_driver s = (s1, inl e) /\
    driver (self s1) = Some 0 /\
    map fst (open_sessions (machine_of (world s1))) = [0] /\
    quit_driver s1 = (s2, inr tt) /\
    driver (self s2) = None /\
    open_sessions (machine_of (world s2)) = [].
Proof.
  intros s.
  pose (s1 := fst (create_driver s)).
  pose (e := Raise WebDriverException "failed to change window state").
  assert (Hc : create_driver s = (s1, inl e)) by reflexivity.
  destruct (local_failure_keeps_started_session s s1 e eq_refl Hc)
    as (Hself & s2 & Hq & Hw & Hs2).
  exists s1, e, s2. split; [exact Hc|].
  split; [now rewrite Hself|]. split; [reflexivity|].
  split; [exact Hq|]. split; [now rewrite Hs2|].
  rewrite Hw. reflexivity.
Defined.

End FactoryExtFacts.


(** ** Login page: the whole of [login] *)

Module LoginFlowFacts.
Import Selenium Page PageExt Forms PageFacts PageExtFacts Login LoginFacts.
Local Open Scope sel_scope.

Section Flow.
Context {B : Type} `{WebDriver B}.
Context (accepts_input : B -> handle -> Prop).
Context (fields : TextInput accepts_input) (steady : SteadyForm accepts_input).

Lemma steady_visibility (h : handle) (b b' : B) (l : locator) :
  edits h b b' ->
  visibility_of_element_located l b' = visibility_of_element_located l b.
Proof.
  intros He. unfold visibility_of_element_located.
  rewrite (steady_elements _ _ _ He).
  destruct (find_elements b l) as [|e rest]; [reflexivity|].
  now rewrite (proj1 (steady_display _ _ _ He e)).
Qed.

Lemma steady_clickable (h : handle) (b b' : B) (l : locator) :
  edits h b b' ->
  element_to_be_clickable l b' = element_to_be_clickable l b.
Proof.
  intros He. unfold element_to_be_clickable.
  rewrite (steady_elements _ _ _ He).
  destruct (find_elements b l) as [|e rest]; [reflexivity|].
  destruct (steady_display _ _ _ He e) as [-> ->]. reflexivity.
Qed.

(** [enter_text] with [clear_first] on a field that is visible now and
    accepts input: no waiting, one [clear], one [send_keys]. *)
Lemma enter_text_now (self : BasePage) (l : locator) (text : string)
    (s : state B) (h : handle) :
  visibility_of_element_located l (browser s) = Some h ->
  accepts_input (browser s) h ->
  exists b1 b2,
    edits h (browser s) b1 /\ edits h b1 b2 /\
    field_value b2 h = text /\
    enter_text self l text true None s
    = (State b2
         (log s ++ [Log DEBUG "Waiting for element: {}" [ALocator l];
                    Log INFO "Entering text into: {}" [ALocator l]]),
       inr tt).
Proof.
  intros Hvis Hacc.
  destruct (clear_empties _ _ Hacc) as (b1 & Hclear & Hempty & Hacc1).
  destruct (send_keys_appends _ _ text Hacc1) as (b2 & Hsend & Hval).
  exists b1, b2. split; [now left|]. split; [right; now exists text|].
  split; [now rewrite Hval, Hempty|].
  unfold enter_text.
  assert (Hw : wait_for_element self l None s
               = (State (browser s)
                    (log s ++ [Log DEBUG "Waiting for element: {}"
                                 [ALocator l]]), inr h)).
  { rewrite wait_for_element_shape.
    apply (raising_wait_first_true _ _ _ _ s 0%nat h); [lia|].
    split; [intros j Hj; lia | exact Hvis]. }
  rewrite (bind_returns _ _ _ _ _ Hw), bind_logger.
  unfold bind, on_driver. cbn [browser log].
  rewrite Hclear. cbn [browser log]. rewrite Hsend.
  now rewrite <- app_assoc.
Qed.

(** [login] on a form that shows both fields and the button: the user
    name and the password are typed into their fields in place of what
    was there, nothing else is waited for, and [login] ends as
    [click_login] does on the form so filled, where the button is still
    clickable. *)
Theorem login_fills_both_fields (self : BasePage)
    (username password : string) (s : state B) (hu hp hb : handle) :
  visibility_of_element_located USERNAME_INPUT (browser s) = Some hu ->
  visibility_of_element_located PASSWORD_INPUT (browser s) = Some hp ->
  element_to_be_clickable LOGIN_BUTTON (browser s) = Some hb ->
  hu <> hp ->
  accepts_input (browser s) hu ->
  accepts_input (browser s) hp ->
  exists s',
    login self username password s = click_login self s' /\
    field_value (browser s') hu = username /\
    field_value (browser s') hp = password /\
    element_to_be_clickable LOGIN_BUTTON (browser s') = Some hb.
Proof.
  intros Hu Hp Hb Hne Haccu Haccp.
  unfold login. rewrite bind_logger.
  set (s0 := State (browser s) _).
  destruct (enter_text_now self USERNAME_INPUT username
              (State (browser s0)
                 (log s0 ++ [Log INFO "Entering username: {}" [AStr username]]))
              hu Hu Haccu)
    as (b1 & b2 & He1 & He2 & Hvalu & Hrun1).
  cbn [browser log] in He1, Hrun1.
  assert (Hp2 : visibility_of_element_located PASSWORD_INPUT b2 = Some hp)
    by (rewrite (steady_visibility _ _ _ _ He2),
                (steady_visibility _ _ _ _ He1); exact Hp).
  assert (Haccp2 : accepts_input b2 hp).
  { apply (proj2 (steady_fields _ _ _ He2 hp ltac:(congruence))).
    now apply (proj2 (steady_fields _ _ _ He1 hp ltac:(congruence))). }
  unfold enter_username at 1. unfold bind at 1.
  rewrite bind_logger. unfold bind at 1. rewrite Hrun1.
  unfold ret at 1.
  set (s2 := State b2 _).
  destruct (enter_text_now self PASSWORD_INPUT password
              (State (browser s2)
                 (log s2 ++ [Log INFO "Entering password" []]))
              hp Hp2 Haccp2)
    as (b3 & b4 & He3 & He4 & Hvalp & Hrun2).
  cbn [browser log] in He3, Hrun2.
  unfold enter_password at 1. unfold bind at 1.
  rewrite bind_logger. unfold bind at 1. rewrite Hrun2.
  unfold ret at 1.
  eexists. split; [reflexivity|]. cbn [browser].
  split; [|split].
  - rewrite (proj1 (steady_fields _ _ _ He4 hu Hne)),
            (proj1 (steady_fields _ _ _ He3 hu Hne)).
    exact Hvalu.
  - exact Hvalp.
  - rewrite (steady_clickable _ _ _ _ He4), (steady_clickable _ _ _ _ He3),
            (steady_clickable _ _ _ _ He2), (steady_clickable _ _ _ _ He1).
    exact Hb.
Qed.

End Flow.

(** *** On the small browser *)

Import Sim.

Lemma sim_edits_inv (h : handle) (b b' : window) :
  edits h b b' -> exists v, b' = update h (set_value v) b.
Proof.
  intros [Hc | [text Hs]].
  - cbn [element_clear sim_driver] in Hc. unfold on_node in Hc.
    destruct (node_of b h) as [n|]; [|discriminate].
    destruct (accepts n); [|discriminate].
    injection Hc as <-. now eexists.
  - cbn [element_send_keys sim_driver] in Hs. unfold on_node in Hs.
    destruct (node_of b h) as [n|]; [|discriminate].
    destruct (accepts n); [|discriminate].
    injection Hs as <-. now eexists.
Qed.

Lemma sim_find_elements_update (h : handle) (v : string) (b : window)
    (l : locator) :
  find_elements (update h (set_value v) b) l = find_elements b l.
Proof.
  cbn [find_elements sim_driver]. unfold update, with_page. cbn [page].
  induction (page b) as [|n r IH]; [reflexivity|]. cbn [map filter].
  assert (Hsame : found_by (if (id n =? h)%nat then set_value v n else n)
                  = found_by n /\
                  id (if (id n =? h)%nat then set_value v n else n) = id n)
    by (destruct (id n =? h)%nat; now split).
  destruct Hsame as [-> Hid].
  destruct (existsb (locator_eqb l) (found_by n)); cbn [map];
    now rewrite ?Hid, IH.
Qed.

Lemma sim_node_of_update (h h' : handle) (v : string) (b : window) :
  node_of (update h (set_value v) b) h'
  = option_map (fun n => if (id n =? h)%nat then set_value v n else n)
      (node_of b h').
Proof.
  unfold node_of, update, with_page. cbn [page].
  induction (page b) as [|n r IH]; [reflexivity|]. cbn [map find].
  assert (Hid : id (if (id n =? h)%nat then set_value v n else n) = id n)
    by now destruct (id n =? h)%nat.
  rewrite Hid. destruct (id n =? h')%nat; [reflexivity | exact IH].
Qed.

Lemma sim_node_of_id (b : window) (h : handle) (n : node) :
  node_of b h = Some n -> id n = h.
Proof.
  unfold node_of. intros Hf. apply find_some in Hf as [_ Hid].
  now apply Nat.eqb_eq.
Qed.

(** The small browser keeps a form steady. *)
Lemma sim_steady_form : SteadyForm accepts_input.
Proof.
  split; intros h b b' He; apply sim_edits_inv in He as [v ->].
  - intros l. apply sim_find_elements_update.
  - intros h'. cbn [is_displayed is_enabled sim_driver].
    rewrite sim_node_of_update.
    destruct (node_of b h') as [n|]; [|now split]. cbn [option_map].
    destruct (id n =? h)%nat; now split.
  - intros h' Hne. cbn [field_value sim_driver]. unfold accepts_input.
    rewrite sim_node_of_update.
    destruct (node_of b h') as [n|] eqn:Hn; [|now split]. cbn [option_map].
    apply sim_node_of_id in Hn.
    destruct (Nat.eqb_spec (id n) h); [congruence | now split].
Qed.

Lemma login_fills_both_fields_witness :
  let form := login_form "old_user" "old_password" in
  exists s',
    login page10 "standard_user" "secret_sauce" (start form)
    = click_login page10 s' /\
    field_value (browser s') 1 = "standard_user" /\
    field_value (browser s') 3 = "secret_sauce" /\
    element_to_be_clickable Login.LOGIN_BUTTON (browser s') = Some 2.
Proof.
  intros form.
  assert (Hu : visibility_of_element_located Login.USERNAME_INPUT
                 (browser (start form)) = Some 1) by reflexivity.
  assert (Hp : visibility_of_element_located Login.PASSWORD_INPUT
                 (browser (start form)) = Some 3) by reflexivity.
  assert (Hb : element_to_be_clickable Login.LOGIN_BUTTON
                 (browser (start form)) = Some 2) by reflexivity.
  assert (Haccu : accepts_input (browser (start form)) 1) by reflexivity.
  assert (Haccp : accepts_input (browser (start form)) 3) by reflexivity.
  exact (login_fills_both_fields accepts_input sim_text_input sim_steady_form
           page10 "standard_user" "secret_sauce" (start form) 1 3 2
           Hu Hp Hb ltac:(discriminate) Haccu Haccp).
Defined.

End LoginFlowFacts.

(** ** Timeouts given per call *)

Module OverrideFacts.
Import Selenium Page PageFacts.
Local Open Scope sel_scope.

Section PerCall.
Context {B : Type} `{WebDriver B}.

(** A timeout given per call that is not 0 takes the place of the default
    in every wait: the call does what the same call without a timeout does
    on a page object whose default is that timeout, whatever the default
    of its own page object is. *)
Theorem nonzero_timeout_overrides_default (self : BasePage) (l : locator)
    (text : string) (T : Z) (s : state B) :
  T <> 0%Z ->
  let other := mkBasePage T in
  wait_for_element self l (Some T) s = wait_for_element other l None s /\
  wait_for_elements self l (Some T) s = wait_for_elements other l None s /\
  wait_for_element_clickable self l (Some T) s
  = wait_for_element_clickable other l None s /\
  wait_for_element_invisible self l (Some T) s
  = wait_for_element_invisible other l None s /\
  wait_for_url_contains self text (Some T) s
  = wait_for_url_contains other text None s /\
  is_element_visible self l (Some T) s = is_element_visible other l None s.
Proof.
  intros HT other.
  unfold wait_for_element, wait_for_elements, wait_for_element_clickable,
    wait_for_element_invisible, wait_for_url_contains, is_element_visible.
  rewrite (timeout_or_given self T HT), (timeout_or_none other).
  cbn [timeout other]. repeat split.
Qed.

End PerCall.

Import Sim.

Lemma nonzero_timeout_overrides_default_witness :
  is_element_visible (mkBasePage 0) USERNAME_INPUT (Some 1%Z)
    (start (loading ""))
  = is_element_visible (mkBasePage 1) USERNAME_INPUT None
      (start (loading "")).
Proof.
  exact (proj2 (proj2 (proj2 (proj2 (proj2
           (nonzero_timeout_overrides_default (mkBasePage 0) USERNAME_INPUT
              "" 1 (start (loading "")) ltac:(discriminate))))))).
Defined.

End OverrideFacts.


(** ** Driver options *)

Module OptionsFacts.
Import Selenium Factory FactoryExt FactoryFacts FactoryExtFacts.
Local Open Scope sel_scope.

Lemma local_options_headless (b : string) (h : bool) (o : options) :
  local_options b h = Some o ->
  existsb (String.prefix "--headless") (arguments o) = h.
Proof.
  unfold local_options.
  destruct ("chrome" =? b); [intros [= <-]; now destruct h|].
  destruct ("firefox" =? b); [intros [= <-]; now destruct h|].
  destruct ("edge" =? b); [intros [= <-]; now destruct h|].
  discriminate.
Qed.

Section Started.
Context {W : Type} `{Backend W}.

(** Every session [create_driver] returns was started, locally or on the
    grid, with options that carry a [--headless] argument exactly when the
    factory is headless. *)
Theorem started_session_follows_headless (s s1 : state W) (d : session) :
  create_driver s = (s1, inr d) ->
  exists o w1,
    (start_local o (world s) = (w1, inr d) \/
     start_remote (remote_url (self s)) o (world s) = (w1, inr d)) /\
    existsb (String.prefix "--headless") (arguments o) = headless (self s).
Proof.
  intros Hc. destruct (has_remote (self s)) eqn:Hr.
  - rewrite (create_driver_remote s Hr) in Hc.
    unfold _create_remote_driver, bind, this, logger, on_backend in Hc.
    cbn [world self log] in Hc.
    destruct (start_remote (remote_url (self s)) (remote_options (self s))
                (world s)) as [w1 [e|d']] eqn:Hs; [discriminate|].
    injection Hc as _ <-.
    exists (remote_options (self s)), w1. split; [now right|].
    unfold remote_options. cbn [arguments]. now destruct (headless (self s)).
  - destruct (create_driver_local_cases s s1 _ Hr Hc)
      as [(_ & Hx & _)
         | (o & Ho & [(e & _ & Hx & _) | (w1 & d' & Hstart & _ & Hres)])];
      try discriminate.
    destruct Hres as [[= <-] | [e He]]; [|discriminate].
    exists o, w1. split; [now left|]. exact (local_options_headless _ _ _ Ho).
Qed.

End Started.

Import Lab.

Lemma started_session_follows_headless_witness :
  exists s1 o w1,
    create_driver (boot (__init__ "Chrome" true None)) = (s1, inr 0) /\
    (start_local o idle = (w1, inr 0) \/
     start_remote None o idle = (w1, inr 0)) /\
    existsb (String.prefix "--headless") (arguments o) = true.
Proof.
  pose (s := boot (__init__ "Chrome" true None)).
  pose (s1 := fst (create_driver s)).
  assert (Hc : create_driver s = (s1, inr 0)) by reflexivity.
  destruct (started_session_follows_headless s s1 0 Hc)
    as (o & w1 & Hstart & Hh).
  exists s1, o, w1. split; [exact Hc|]. split; [exact Hstart | exact Hh].
Defined.

End OptionsFacts.

(** ** Merged defaults stay merged *)

Module MergeFacts.
Import Py Config ConfigExt MergeNotions DictFacts ConfigFacts ConfigExtFacts.

Lemma grows_refl (d : dict) : grows (PDict d) (PDict d).
Proof. exists d, d. repeat split. intros s sec Hs. now exists sec. Qed.

Lemma grows_trans (c1 c2 c3 : pyval) :
  grows c1 c2 -> grows c2 c3 -> grows c1 c3.
Proof.
  intros (d1 & d2 & -> & -> & H12) (d2' & d3 & [= <-] & -> & H23).
  exists d1, d3. repeat split. intros s sec Hs.
  destruct (H12 s sec Hs) as (sec2 & Hs2 & Hm2).
  destruct (H23 s sec2 Hs2) as (sec3 & Hs3 & Hm3).
  exists sec3. split; [exact Hs3|]. intros key Hk. now apply Hm3, Hm2.
Qed.

Lemma settled_grows (entry : string * dict) (c c' : pyval) :
  settled entry c -> grows c c' -> settled entry c'.
Proof.
  intros (d & sec & -> & Hs & Hkeys) (d0 & d' & [= <-] & -> & Hg).
  destruct (Hg _ _ Hs) as (sec' & Hs' & Hm).
  exists d', sec'. repeat split; [exact Hs'|].
  intros key Hin. apply Hm, Hkeys, Hin.
Qed.

Lemma dict_mem_set_same (k : string) (v : pyval) (d : dict) :
  dict_mem k (dict_set k v d) = true.
Proof. unfold dict_mem. now rewrite dict_get_set_same. Qed.

Lemma dict_mem_set_mono (k key : string) (v : pyval) (d : dict) :
  dict_mem k d = true -> dict_mem k (dict_set key v d) = true.
Proof.
  destruct (String.eqb_spec key k) as [->|Hne].
  - intros _. apply dict_mem_set_same.
  - unfold dict_mem. now rewrite dict_get_set_other.
Qed.

Lemma grows_new_key (d sd : dict) (s key : string) (value : pyval) :
  dict_get s d = Some (PDict sd) ->
  grows (PDict d) (PDict (dict_set s (PDict (dict_set key value sd)) d)).
Proof.
  intros Hs. eexists _, _. repeat split. intros s0 sec Hs0.
  destruct (String.eqb_spec s s0) as [<-|Hne].
  - rewrite dict_get_set_same. eexists. split; [reflexivity|].
    rewrite Hs in Hs0. injection Hs0 as <-. cbn [contains].
    intros k [= Hk]. now rewrite dict_mem_set_mono.
  - rewrite dict_get_set_other by assumption. now exists sec.
Qed.

Lemma grows_new_section (d : dict) (s : string) (x : pyval) :
  dict_mem s d = false ->
  grows (PDict d) (PDict (dict_set s x d)).
Proof.
  intros Hm. eexists _, _. repeat split. intros s0 sec Hs0.
  destruct (String.eqb_spec s s0) as [<-|Hne].
  - rewrite (dict_mem_false _ _ Hm) in Hs0. discriminate.
  - rewrite dict_get_set_other by assumption. now exists sec.
Qed.

(** The inner loop only adds keys, and after it the section has all the
    keys of the entry. *)
Lemma merge_keys_grows (s : string) (values : dict) :
  forall d c',
    dict_mem s d = true ->
    merge_keys s values (PDict d) = inr c' ->
    grows (PDict d) c' /\ settled (s, values) c'.
Proof.
  induction values as [|[key value] rest IH]; intros d c' Hm Hk.
  - injection Hk as <-. split; [apply grows_refl|].
    destruct (dict_mem_true _ _ Hm) as [sec Hs].
    exists d, sec. repeat split; [exact Hs|]. intros key [].
  - rewrite merge_keys_cons in Hk.
    destruct (dict_mem_true _ _ Hm) as [sec Hs].
    cbn [getitem] in Hk. rewrite Hs in Hk. cbn [bind] in Hk.
    bind_inv Hk present Hp.
    assert (Hadd : forall d1,
               grows (PDict d) (PDict d1) ->
               (exists sec1, dict_get s d1 = Some sec1 /\
                             contains sec1 key = inr true) ->
               dict_mem s d1 = true ->
               merge_keys s rest (PDict d1) = inr c' ->
               grows (PDict d) c' /\ settled (s, (key, value) :: rest) c').
    { intros d1 Hg1 (sec1 & Hs1 & Hkey1) Hm1 Hrest.
      destruct (IH d1 c' Hm1 Hrest) as [Hg Hset].
      split; [exact (grows_trans _ _ _ Hg1 Hg)|].
      destruct Hg as (d1' & d' & [= <-] & -> & Hgrow).
      destruct (Hgrow _ _ Hs1) as (sec' & Hs' & Hmono).
      destruct Hset as (d'' & sec'' & [= <-] & Hs'' & Hkeys).
      cbn [fst snd] in *. rewrite Hs' in Hs''. injection Hs'' as <-.
      exists d', sec'. repeat split; [exact Hs'|].
      intros k [<-|Hin]; [now apply Hmono | now apply Hkeys]. }
    destruct present.
    + cbn [bind] in Hk.
      apply (Hadd d (grows_refl d)); [now exists sec | exact Hm | exact Hk].
    + bind_inv Hk c1 Hc1. bind_inv Hc1 sec' Hset.
      apply setitem_inv in Hset as (sd & -> & ->).
      cbn [setitem] in Hc1. injection Hc1 as <-.
      apply (Hadd (dict_set s (PDict (dict_set key value sd)) d)
               (grows_new_key d sd s key value Hs)); [| |exact Hk].
      * eexists. split; [apply dict_get_set_same|].
        cbn [contains]. now rewrite dict_mem_set_same.
      * apply dict_mem_set_same.
Qed.

Lemma dict_mem_in (key : string) (values : dict) :
  In key (map fst values) -> dict_mem key values = true.
Proof.
  unfold dict_mem, dict_get.
  induction values as [|[k v] r IH]; cbn [map fst In assoc]; [contradiction|].
  destruct (String.eqb_spec k key) as [->|Hne]; [reflexivity|].
  intros [Heq|Hin]; [contradiction | now apply IH].
Qed.

(** The outer loop only adds sections and keys, and after it every entry
    of the table is settled. *)
Lemma merge_sections_grows (defs : list (string * dict)) :
  forall d c',
    merge_sections defs (PDict d) = inr c' ->
    grows (PDict d) c' /\ forall entry, In entry defs -> settled entry c'.
Proof.
  induction defs as [|[s values] rest IH]; intros d c' Hm.
  - injection Hm as <-. split; [apply grows_refl | intros entry []].
  - rewrite merge_sections_cons in Hm. cbn [contains bind] in Hm.
    assert (Hstep : forall d1,
               grows (PDict d) (PDict d1) ->
               settled (s, values) (PDict d1) ->
               merge_sections rest (PDict d1) = inr c' ->
               grows (PDict d) c' /\
               forall entry, In entry ((s, values) :: rest) ->
                             settled entry c').
    { intros d1 Hg1 Hset1 Hrest.
      destruct (IH d1 c' Hrest) as [Hg Hall].
      split; [exact (grows_trans _ _ _ Hg1 Hg)|].
      intros entry [<-|Hin]; [exact (settled_grows _ _ _ Hset1 Hg)|].
      now apply Hall. }
    destruct (dict_mem s d) eqn:Hmem.
    + bind_inv Hm c1 Hc1.
      destruct (merge_keys_grows s values d c1 Hmem Hc1) as [Hg1 Hset1].
      destruct Hg1 as (d0 & d1 & [= <-] & -> & Hgrow).
      apply (Hstep d1); [|exact Hset1|exact Hm].
      exists d, d1. now repeat split.
    + cbn [setitem bind] in Hm.
      apply (Hstep (dict_set s (PDict values) d)
               (grows_new_section d s (PDict values) Hmem)); [|exact Hm].
      eexists _, _. split; [reflexivity|]. cbn [fst snd].
      split; [apply dict_get_set_same|].
      intros key Hin. cbn [contains]. now rewrite (dict_mem_in _ _ Hin).
Qed.

Lemma merge_keys_settled (s : string) (d : dict) (sec : pyval) :
  dict_get s d = Some sec ->
  forall values,
    holds_keys sec values ->
    merge_keys s values (PDict d) = inr (PDict d).
Proof.
  intros Hs. induction values as [|[key value] rest IH]; intros Hkeys;
    [reflexivity|].
  rewrite merge_keys_cons. cbn [getitem]. rewrite Hs. cbn [bind].
  rewrite (Hkeys key (or_introl eq_refl)). cbn [bind].
  apply IH. intros k Hin. apply Hkeys. now right.
Qed.

Lemma merge_sections_settled (defs : list (string * dict)) (d : dict) :
  (forall entry, In entry defs -> settled entry (PDict d)) ->
  merge_sections defs (PDict d) = inr (PDict d).
Proof.
  induction defs as [|[s values] rest IH]; intros Hall; [reflexivity|].
  rewrite merge_sections_cons. cbn [contains bind].
  destruct (Hall (s, values) (or_introl eq_refl))
    as (d0 & sec & [= <-] & Hs & Hkeys).
  cbn [fst snd] in *. unfold dict_mem. rewrite Hs. cbn [bind].
  rewrite (merge_keys_settled s d sec Hs values Hkeys). cbn [bind].
  apply IH. intros entry Hin. apply Hall. now right.
Qed.

(** [_set_defaults] is idempotent: on the configuration it has produced it
    succeeds again and changes nothing. *)
Theorem set_defaults_idempotent (doc merged : pyval) :
  _set_defaults doc = inr merged ->
  _set_defaults merged = inr merged.
Proof.
  unfold _set_defaults. intros Hm.
  assert (Hd : exists d, doc = PDict d).
  { destruct doc as [| | |t|l|d]; try discriminate; [| |now eexists].
    - cbn in Hm. now destruct (is_infix "browser" t).
    - cbn in Hm. now destruct (existsb _ l). }
  destruct Hd as [d ->].
  destruct (merge_sections_grows defaults d merged Hm) as [Hg Hall].
  destruct Hg as (d0 & d' & _ & -> & _).
  now apply merge_sections_settled.
Qed.

Lemma set_defaults_idempotent_witness :
  exists merged,
    _set_defaults (_load_config_file text_section_file []) = inr merged /\
    _set_defaults merged = inr merged.
Proof.
  pose (doc := _load_config_file text_section_file []).
  pose (merged := match _set_defaults doc with
                  | inr c => c
                  | inl _ => PNone
                  end).
  assert (Hm : _set_defaults doc = inr merged) by reflexivity.
  exists merged. split; [exact Hm|].
  exact (set_defaults_idempotent doc merged Hm).
Defined.

End MergeFacts.

(** ** Objects *)

Module ObjectFacts.
Import Objects.

Lemma lookup_put_same {A : Type} (k : string) (v : A) (d : list (string * A)) :
  lookup k (put k v d) = Some v.
Proof.
  unfold lookup.
  induction d as [|[k' v'] r IH]; cbn [put Py.assoc].
  - now rewrite String.eqb_refl.
  - destruct (String.eqb_spec k' k) as [->|Hne]; cbn [Py.assoc].
    + now rewrite String.eqb_refl.
    + destruct (String.eqb_spec k' k); [contradiction | exact IH].
Qed.

Lemma lookup_put_other {A : Type} (k k' : string) (v : A)
    (d : list (string * A)) :
  k' <> k -> lookup k (put k' v d) = lookup k d.
Proof.
  unfold lookup. intros Hne.
  induction d as [|[k0 v0] r IH]; cbn [put Py.assoc].
  - destruct (String.eqb_spec k' k); [contradiction | reflexivity].
  - destruct (String.eqb_spec k0 k') as [->|Hne0]; cbn [Py.assoc].
    + destruct (String.eqb_spec k' k); [contradiction | reflexivity].
    + destruct (String.eqb_spec k0 k); [reflexivity | exact IH].
Qed.

Lemma lookup_cons {A : Type} (k k' : string) (v : A) (d : list (string * A)) :
  lookup k ((k', v) :: d) = if k' =? k then Some v else lookup k d.
Proof. reflexivity. Qed.

Lemma mem_lookup {A : Type} (k : string) (d : list (string * A)) :
  mem k d = match lookup k d with Some _ => true | None => false end.
Proof. reflexivity. Qed.

Lemma lookup_in {A : Type} (k : string) (d : list (string * A)) (v : A) :
  lookup k d = Some v -> In (k, v) d.
Proof.
  unfold lookup.
  induction d as [|[k' x] r IH]; cbn [Py.assoc]; [discriminate|].
  destruct (String.eqb_spec k' k) as [->|Hne].
  - intros [= ->]. now left.
  - intros Hl. right. now apply IH.
Qed.

Lemma lookup_not_in {A : Type} (k : string) (d : list (string * A)) :
  ~ In k (map fst d) -> lookup k d = None.
Proof.
  unfold lookup.
  induction d as [|[k' x] r IH]; cbn [Py.assoc map fst]; [reflexivity|].
  intros Hn. destruct (String.eqb_spec k' k) as [->|Hne].
  - exfalso. apply Hn. now left.
  - apply IH. intros Hin. apply Hn. now right.
Qed.

Lemma store_length (a : address) (o : object) (h : heap) :
  length (store a o h) = length h.
Proof.
  revert a. induction h as [|x r IH]; intros a; [reflexivity|].
  destruct a; cbn [store length]; [reflexivity | now rewrite IH].
Qed.

Lemma store_hit (a : address) (o : object) (h : heap) :
  a < length h -> nth_error (store a o h) a = Some o.
Proof.
  revert a. induction h as [|x r IH]; intros a Hlt; cbn [length] in Hlt;
    [lia|].
  destruct a; cbn [store nth_error]; [reflexivity|]. apply IH. lia.
Qed.

Lemma store_miss (a b : address) (o : object) (h : heap) :
  b <> a -> nth_error (store a o h) b = nth_error h b.
Proof.
  revert a b. induction h as [|x r IH]; intros a b Hne; [reflexivity|].
  destruct a, b; cbn [store nth_error]; try reflexivity; [contradiction|].
  apply IH. congruence.
Qed.

Lemma store_same (a : address) (o : object) (h : heap) :
  nth_error h a = Some o -> store a o h = h.
Proof.
  revert a. induction h as [|x r IH]; intros a; [reflexivity|].
  destruct a; cbn [store nth_error].
  - now intros [= ->].
  - intros Hn. now rewrite IH.
Qed.

Lemma store_store (a : address) (o o' : object) (h : heap) :
  store a o (store a o' h) = store a o h.
Proof.
  revert a. induction h as [|x r IH]; intros a; [reflexivity|].
  destruct a; cbn [store]; [reflexivity | now rewrite IH].
Qed.

Lemma store_app (a : address) (o : object) (h t : heap) :
  a < length h -> store a o (h ++ t)%list = (store a o h ++ t)%list.
Proof.
  revert a. induction h as [|x r IH]; intros a Hlt; cbn [length] in Hlt;
    [lia|].
  destruct a; cbn [store app]; [reflexivity|]. rewrite IH; [reflexivity|lia].
Qed.

Lemma nth_error_lt (h : heap) (a : address) (o : object) :
  nth_error h a = Some o -> a < length h.
Proof. intros Hn. apply nth_error_Some. congruence. Qed.

Lemma alloc_old (h : heap) (o : object) (a : address) :
  a < length h -> nth_error (h ++ [o])%list a = nth_error h a.
Proof. intros Hlt. now apply nth_error_app1. Qed.

Lemma alloc_new (h : heap) (o : object) :
  nth_error (h ++ [o])%list (length h) = Some o.
Proof. rewrite nth_error_app2 by lia. now rewrite Nat.sub_diag. Qed.

(** In a closed heap the items of a dictionary lead to objects. *)
Lemma closed_lookup (h : heap) (a : address) (d : items) (k : string)
    (v : value) :
  closed h = true ->
  nth_error h a = Some (ODict d) ->
  lookup k d = Some v ->
  valid h v = true.
Proof.
  intros Hc Ha Hk. unfold closed in Hc. rewrite forallb_forall in Hc.
  specialize (Hc _ (nth_error_In _ _ Ha)). cbn [closed_object] in Hc.
  rewrite forallb_forall in Hc.
  exact (Hc _ (lookup_in _ _ _ Hk)).
Qed.

Lemma valid_ref (h : heap) (a : address) :
  valid h (VRef a) = true -> a < length h.
Proof. cbn [valid]. now intros Hv%Nat.ltb_lt. Qed.

End ObjectFacts.

(** ** Configuration resolver on shared dictionaries *)

Module ResolverFacts.
Import Objects Unicode Resolver ResolverNotions ObjectFacts.

(** *** Lookups *)

(** [navigate] fails with KeyError or TypeError only, the two classes
    [get] catches. *)
Lemma navigate_raises (h : heap) (keys : list string) (c : value) (e : error) :
  navigate h keys c = inl e -> e = TypeError \/ exists k, e = KeyError k.
Proof.
  revert c. induction keys as [|k rest IH]; cbn [navigate]; intros c;
    [discriminate|].
  destruct (getitem h c k) as [e'|x] eqn:Hg; [|apply IH].
  intros [= <-]. unfold getitem in Hg.
  destruct (fetch h c) as [[d|l|l]|]; try (injection Hg as <-; now left).
  destruct (lookup k d); [discriminate|].
  injection Hg as <-. right. now eexists.
Qed.

(** A two-level key is found exactly when the configuration gives it a
    value. *)
Lemma navigate_two_levels (h : heap) (c : value) (s k : string) :
  match file_value h c s k with
  | Some v => navigate h [s; k] c = inr v
  | None => exists e, navigate h [s; k] c = inl e
  end.
Proof.
  unfold file_value, section_value. cbn [navigate]. unfold getitem.
  destruct (fetch h c) as [[d|l|l]|]; try (now eexists).
  destruct (lookup s d) as [sec|]; [|now eexists].
  destruct (fetch h sec) as [[sd|l|l]|]; try (now eexists).
  destruct (lookup k sd); [reflexivity | now eexists].
Qed.

Section Lookups.
Context `{Casing}.

Lemma get_reads_environment_first (env : environ) (h : heap)
    (cm : ConfigManager) (key ev : string) (default : value) :
  getenv (env_key key) env = Some ev ->
  get env h cm key default = inr (VStr ev).
Proof. intros Henv. unfold get. now rewrite Henv. Qed.

(** What [get] answers for a two-level key. *)
Lemma get_of_two_levels (env : environ) (h : heap) (cm : ConfigManager)
    (key s k : string) (default : value) :
  Py.split "." key = [s; k] ->
  get env h cm key default =
  inr match getenv (env_key key) env with
      | Some ev => VStr ev
      | None =>
          match file_value h (_config cm) s k with
          | Some v => v
          | None => default
          end
      end.
Proof.
  intros Hk. unfold get. rewrite Hk.
  destruct (getenv (env_key key) env); [reflexivity|].
  pose proof (navigate_two_levels h (_config cm) s k) as Hn.
  destruct (file_value h (_config cm) s k) as [v|].
  - now rewrite Hn.
  - destruct Hn as [e He]. rewrite He.
    destruct (navigate_raises _ _ _ _ He) as [->|[k0 ->]]; reflexivity.
Qed.

End Lookups.

(** *** Merging the defaults in place *)

Lemma fill_cons (key : string) (v : value) (rest d : items) :
  fill ((key, v) :: rest) d =
  fill rest (if mem key d then d else put key v d).
Proof. reflexivity. Qed.

(** After the inner loop a key reads as before when the section had it,
    else as in the defaults. *)
Lemma lookup_fill (k : string) (values : items) :
  forall d,
    lookup k (fill values d) =
    match lookup k d with
    | Some v => Some v
    | None => lookup k values
    end.
Proof.
  induction values as [|[key v] rest IH]; intros d.
  - unfold fill, lookup. cbn. now destruct (Py.assoc k d).
  - rewrite fill_cons, IH, lookup_cons, mem_lookup.
    destruct (lookup key d) as [x|] eqn:Hkey.
    + destruct (lookup k d) eqn:Hk; [reflexivity|].
      destruct (String.eqb_spec key k) as [->|Hne]; [congruence | reflexivity].
    + destruct (String.eqb_spec key k) as [->|Hne].
      * now rewrite lookup_put_same, Hkey.
      * now rewrite lookup_put_other.
Qed.

(** On a section that is a dictionary of its own the inner loop fills
    that dictionary and touches nothing else. *)
Lemma merge_keys_fills (root a : address) (s' : string) (d : items) :
  a <> root ->
  lookup s' d = Some (VRef a) ->
  forall values h sd,
    nth_error h root = Some (ODict d) ->
    nth_error h a = Some (ODict sd) ->
    merge_keys (VRef root) s' values h
    = (store a (ODict (fill values sd)) h, inr tt).
Proof.
  intros Hne Hs.
  induction values as [|[key v] rest IH]; intros h sd Hroot Ha.
  - cbn. now rewrite (store_same _ _ _ Ha).
  - cbn [merge_keys]. unfold getitem. cbn [fetch]. rewrite Hroot, Hs.
    unfold contains. rewrite Ha. rewrite fill_cons.
    destruct (mem key sd).
    + now apply IH.
    + unfold setitem. rewrite Ha.
      rewrite (IH (store a (ODict (put key v sd)) h) (put key v sd)).
      * now rewrite store_store.
      * now rewrite store_miss by congruence.
      * apply store_hit. exact (nth_error_lt _ _ _ Ha).
Qed.

(** On a section that is no dictionary the inner loop changes nothing
    when it comes through. *)
Lemma merge_keys_still (config : value) (s' : string) (sec : value) :
  forall values h h',
    getitem h config s' = inr sec ->
    (forall sd, fetch h sec <> Some (ODict sd)) ->
    merge_keys config s' values h = (h', inr tt) ->
    h' = h.
Proof.
  induction values as [|[key v] rest IH]; intros h h' Hg Hsec;
    cbn [merge_keys].
  - now intros [= <-].
  - rewrite Hg. destruct (contains h sec key) as [e|[|]]; [discriminate| |].
    + now apply IH.
    + unfold setitem. destruct sec as [| | | | |a]; try discriminate.
      cbn [fetch] in Hsec.
      destruct (nth_error h a) as [[sd|l|l]|]; try discriminate.
      now destruct (Hsec sd).
Qed.

(** What a change of the heap leaves of a section: the configuration
    holds the same value under [s], and the object under [s], if any, is
    as before. *)
Lemma section_frame (h h2 : heap) (root : address) (d d2 : items)
    (s k : string) :
  nth_error h root = Some (ODict d) ->
  nth_error h2 root = Some (ODict d2) ->
  lookup s d2 = lookup s d ->
  (forall a, lookup s d = Some (VRef a) -> nth_error h2 a = nth_error h a) ->
  file_value h2 (VRef root) s k = file_value h (VRef root) s k /\
  fillable h2 (VRef root) s = fillable h (VRef root) s.
Proof.
  intros Hr Hr2 Hl Hsame.
  unfold file_value, section_value, fillable. cbn [fetch].
  rewrite Hr, Hr2, Hl.
  destruct (lookup s d) as [[| | | | |a]|]; try (now split).
  cbn [fetch]. now rewrite (Hsame a eq_refl).
Qed.

Lemma default_in_head (s : string) (values : items)
    (rest : list (string * items)) (k : string) :
  default_in ((s, values) :: rest) s k = lookup k values.
Proof. unfold default_in, lookup. cbn. now rewrite String.eqb_refl. Qed.

Lemma default_in_tail (s' : string) (values : items)
    (rest : list (string * items)) (s k : string) :
  s' <> s -> default_in ((s', values) :: rest) s k = default_in rest s k.
Proof.
  intros Hne. unfold default_in, lookup. cbn.
  now destruct (String.eqb_spec s' s).
Qed.

Lemma default_in_absent (defs : list (string * items)) (s k : string) :
  ~ In s (map fst defs) -> default_in defs s k = None.
Proof. intros Hn. unfold default_in. now rewrite lookup_not_in. Qed.

(** [_set_defaults] over a table with distinct section names, for a
    section that stands apart: a value of the document stays; a key the
    document lacks gets its default when the section is absent or a
    dictionary; nothing else appears. *)
Lemma merge_sections_result (s k : string) (root : address) :
  forall defs,
    NoDup (map fst defs) ->
    forall h h' d,
      nth_error h root = Some (ODict d) ->
      (forall s' a, lookup s' d = Some (VRef a) -> a < length h) ->
      lookup s d <> Some (VRef root) ->
      (forall s', In s' (map fst defs) -> lookup s' d <> Some (VRef root)) ->
      (forall s' a, In s' (map fst defs) -> s' <> s ->
                    lookup s d = Some (VRef a) ->
                    lookup s' d <> Some (VRef a)) ->
      merge_sections (VRef root) defs h = (h', inr tt) ->
      file_value h' (VRef root) s k =
      match file_value h (VRef root) s k with
      | Some v => Some v
      | None => if fillable h (VRef root) s then default_in defs s k else None
      end.
Proof.
  induction defs as [|[s' values] rest IH];
    intros Hnd h h' d Hroot Hval Hb Ha Hc Hm.
  - injection Hm as <-. destruct (file_value h (VRef root) s k); [reflexivity|].
    now destruct (fillable h (VRef root) s).
  - cbn [map fst] in Hnd. apply NoDup_cons_iff in Hnd as [Hnotin Hnd].
    cbn [merge_sections] in Hm. unfold contains in Hm. rewrite Hroot in Hm.
    pose proof (nth_error_lt _ _ _ Hroot) as Hlt.
    rewrite mem_lookup in Hm.
    destruct (lookup s' d) as [sec|] eqn:Hs'.
    + (* the section is there: inner loop *)
      destruct (merge_keys (VRef root) s' values h) as [h1 [e|[]]] eqn:Hk;
        [discriminate|].
      assert (Hsec : (exists a sd, sec = VRef a /\
                                   nth_error h a = Some (ODict sd))
                     \/ forall sd, fetch h sec <> Some (ODict sd)).
      { destruct sec as [| | | | |a]; try (right; intros sd; discriminate).
        cbn [fetch]. destruct (nth_error h a) as [[sd|l|l]|] eqn:Hobj;
          try (right; intros sd'; discriminate).
        left. now exists a, sd. }
      destruct Hsec as [(a & sd & -> & Hobj) | Hno].
      * (* a dictionary *)
        assert (Hne : a <> root).
        { intros ->. exact (Ha s' (or_introl eq_refl) Hs'). }
        rewrite (merge_keys_fills root a s' d Hne Hs' values h sd Hroot Hobj)
          in Hk.
        injection Hk as <-.
        assert (Hroot1 : nth_error (store a (ODict (fill values sd)) h) root
                         = Some (ODict d))
          by (rewrite store_miss by congruence; exact Hroot).
        rewrite (IH Hnd _ _ d Hroot1); try assumption.
        -- destruct (String.eqb_spec s' s) as [->|Hdiff].
           ++ unfold file_value, section_value, fillable. cbn [fetch].
              rewrite Hroot1, Hroot, Hs'. cbn [fetch].
              rewrite (store_hit _ _ _ (nth_error_lt _ _ _ Hobj)), Hobj.
              rewrite lookup_fill, default_in_head.
              rewrite (default_in_absent rest s k Hnotin).
              destruct (lookup k sd); [reflexivity|].
              now destruct (lookup k values).
           ++ destruct (section_frame h (store a (ODict (fill values sd)) h)
                          root d d s k Hroot Hroot1 eq_refl) as [-> ->].
              ** intros b Hsb. apply store_miss.
                 intros ->. exact (Hc s' a (or_introl eq_refl) Hdiff Hsb Hs').
              ** now rewrite (default_in_tail _ _ _ _ _ Hdiff).
        -- intros s0 a0 Hl. rewrite store_length. exact (Hval _ _ Hl).
        -- intros s0 Hin. apply Ha. now right.
        -- intros s0 a0 Hin. apply Hc. now right.
      * (* anything else *)
        assert (Hg : getitem h (VRef root) s' = inr sec)
          by (unfold getitem; cbn [fetch]; now rewrite Hroot, Hs').
        rewrite (merge_keys_still _ _ _ _ _ _ Hg Hno Hk) in Hm.
        rewrite (IH Hnd _ _ d Hroot); try assumption.
        -- destruct (String.eqb_spec s' s) as [->|Hdiff].
           ++ assert (Hfv : file_value h (VRef root) s k = None).
              { unfold file_value, section_value. cbn [fetch].
                rewrite Hroot, Hs'.
                destruct (fetch h sec) as [[sd|l|l]|] eqn:Hf; try reflexivity.
                now destruct (Hno sd). }
              assert (Hfill : fillable h (VRef root) s = false).
              { unfold fillable. cbn [fetch]. rewrite Hroot, Hs'.
                destruct (fetch h sec) as [[sd|l|l]|] eqn:Hf; try reflexivity.
                now destruct (Hno sd). }
              now rewrite Hfv, Hfill.
           ++ now rewrite (default_in_tail _ _ _ _ _ Hdiff).
        -- intros s0 Hin. apply Ha. now right.
        -- intros s0 a0 Hin. apply Hc. now right.
    + (* the section is new *)
      cbn [alloc] in Hm. unfold setitem in Hm.
      rewrite (alloc_old _ _ _ Hlt), Hroot in Hm.
      set (n := length h) in *.
      set (d2 := put s' (VRef n) d) in *.
      set (h2 := store root (ODict d2) (h ++ [ODict values])%list) in *.
      assert (Hlen : length h2 = S n).
      { unfold h2. rewrite store_length, length_app. cbn. lia. }
      assert (Hroot2 : nth_error h2 root = Some (ODict d2)).
      { unfold h2. apply store_hit. rewrite length_app. cbn. lia. }
      assert (Hold : forall a, a < n -> a <> root ->
                               nth_error h2 a = nth_error h a).
      { intros a Hal Har. unfold h2. rewrite store_miss by exact Har.
        now apply alloc_old. }
      assert (Hnew : nth_error h2 n = Some (ODict values)).
      { unfold h2. rewrite store_miss by (unfold n; lia). apply alloc_new. }
      rewrite (IH Hnd _ _ d2 Hroot2); try assumption.
      * destruct (String.eqb_spec s' s) as [->|Hdiff].
        -- unfold file_value, section_value, fillable. cbn [fetch].
           rewrite Hroot2, Hroot, Hs'. unfold d2.
           rewrite lookup_put_same. cbn [fetch]. rewrite Hnew.
           rewrite default_in_head, (default_in_absent rest s k Hnotin).
           now destruct (lookup k values).
        -- destruct (section_frame h h2 root d d2 s k Hroot Hroot2) as [-> ->].
           ++ unfold d2. now apply lookup_put_other.
           ++ intros a Hsa. apply Hold; [exact (Hval _ _ Hsa)|].
              intros ->. exact (Hb Hsa).
           ++ now rewrite (default_in_tail _ _ _ _ _ Hdiff).
      * intros s0 a0. unfold d2.
        destruct (String.eqb_spec s' s0) as [->|Hdiff].
        -- rewrite lookup_put_same. intros [= <-]. lia.
        -- rewrite lookup_put_other by exact Hdiff. intros Hl.
           specialize (Hval _ _ Hl). fold n in Hval. lia.
      * unfold d2. destruct (String.eqb_spec s' s) as [->|Hdiff].
        -- rewrite lookup_put_same. intros [= Heq]. unfold n in Heq. lia.
        -- now rewrite lookup_put_other.
      * intros s0 Hin. unfold d2.
        rewrite lookup_put_other by (intros ->; contradiction).
        apply Ha. now right.
      * intros s0 a0 Hin Hne. unfold d2.
        rewrite (lookup_put_other s0) by (intros ->; contradiction).
        destruct (String.eqb_spec s' s) as [->|Hdiff].
        -- rewrite lookup_put_same. intros [= <-] Hl.
           specialize (Hval _ _ Hl). fold n in Hval. lia.
        -- rewrite lookup_put_other by exact Hdiff.
           apply Hc; [now right | exact Hne].
Qed.

(** [_set_defaults] comes through only on a configuration that is a
    dictionary. *)
Lemma set_defaults_needs_dict (h h' : heap) (cm : ConfigManager) :
  _set_defaults h cm = (h', inr tt) ->
  exists root d, _config cm = VRef root /\ nth_error h root = Some (ODict d).
Proof.
  unfold _set_defaults, defaults. cbn [merge_sections].
  destruct (_config cm) as [| | |t| |a]; cbn [contains]; try discriminate.
  - destruct (Py.is_infix "browser" t); cbn; discriminate.
  - destruct (nth_error h a) as [[d|l|l]|] eqn:Ha; try discriminate.
    + intros _. now exists a, d.
    + destruct (has_string "browser" l).
      * cbn [merge_keys]. unfold getitem. cbn [fetch]. rewrite Ha.
        discriminate.
      * cbn [alloc]. unfold setitem.
        rewrite (alloc_old _ _ _ (nth_error_lt _ _ _ Ha)), Ha. discriminate.
    + destruct (has_string "browser" l).
      * cbn [merge_keys]. unfold getitem. cbn [fetch]. rewrite Ha.
        discriminate.
      * cbn [alloc]. unfold setitem.
        rewrite (alloc_old _ _ _ (nth_error_lt _ _ _ Ha)), Ha. discriminate.
Qed.

Lemma defaults_distinct_sections : NoDup (map fst defaults).
Proof.
  cbn. repeat (constructor; [cbn; intuition discriminate|]). constructor.
Qed.

(** What [apart] says of the dictionary of the configuration. *)
Lemma apart_inv (defs : list (string * items)) (h : heap) (root : address)
    (d : items) (s : string) :
  apart defs h (VRef root) s = true ->
  nth_error h root = Some (ODict d) ->
  lookup s d <> Some (VRef root) /\
  (forall s', In s' (map fst defs) -> lookup s' d <> Some (VRef root)) /\
  (forall s' a, In s' (map fst defs) -> s' <> s ->
                lookup s d = Some (VRef a) -> lookup s' d <> Some (VRef a)).
Proof.
  unfold apart, section_value. cbn [fetch]. intros Hap Hroot.
  rewrite Hroot in Hap. apply andb_prop in Hap as [Hown Hall].
  rewrite forallb_forall in Hall.
  split; [|split].
  - intros Heq. rewrite Heq in Hown. cbn [refers] in Hown.
    now rewrite Nat.eqb_refl in Hown.
  - intros s' Hin Heq. apply in_map_iff in Hin as (sv & <- & Hin).
    specialize (Hall sv Hin). cbn beta in Hall. rewrite Heq in Hall.
    now rewrite Nat.eqb_refl in Hall.
  - intros s' a Hin Hne Hs Hs'. apply in_map_iff in Hin as (sv & <- & Hin).
    specialize (Hall sv Hin). cbn beta in Hall. rewrite Hs', Hs in Hall.
    cbn [refers] in Hall. rewrite Nat.eqb_refl in Hall.
    destruct (String.eqb_spec (fst sv) s); [contradiction|].
    now destruct (negb (a =? root)%nat).
Qed.

(** From a fresh singleton, a successful [__init__] leaves the
    environment extended by the .env file and the defaults merged into
    the configuration as it was loaded. *)
Lemma init_steps (dotenv : option bindings)
    (files : string -> option document) (env0 env : environ) (h : heap)
    (cm : ConfigManager) :
  __init__ dotenv files env0 fresh_heap fresh = (env, (h, inr cm)) ->
  env = _load_env_variables dotenv env0 /\
  _initialized cm = true /\
  exists h1,
    _load_config_file files env fresh_heap (_config fresh) = (h1, _config cm)
    /\ _set_defaults h1 cm = (h, inr tt).
Proof.
  unfold __init__. cbn [_initialized fresh].
  destruct (_load_config_file files (_load_env_variables dotenv env0)
              fresh_heap (_config fresh)) as [h1 config] eqn:Hload.
  destruct (_set_defaults h1 _) as [h2 [e|[]]] eqn:Hm; [discriminate|].
  intros [= <- <- <-]. split; [reflexivity|]. split; [reflexivity|].
  exists h1. now split.
Qed.

Section Precedence.
Context `{Casing}.

(** C4, amended.  After a successful construction, for a key
    [section.name] whose section stands apart in the loaded document (no
    alias makes it one object with another section that has defaults, or
    with the document), [get] answers: the environment variable when it
    is set; else the value of the loaded file; else the built-in default
    of the key, when it has one and the file leaves the section out or
    gives it as a mapping; else the default argument of the caller.
    [h1] is the heap as the file was loaded into it; that it is [closed]
    is true of every heap Python builds. *)
Theorem get_precedence (dotenv : option bindings)
    (files : string -> option document) (env0 env : environ) (h1 h : heap)
    (cm : ConfigManager) (key s k : string) (default : value) :
  __init__ dotenv files env0 fresh_heap fresh = (env, (h, inr cm)) ->
  _load_config_file files env fresh_heap (_config fresh) = (h1, _config cm) ->
  closed h1 = true ->
  apart defaults h1 (_config cm) s = true ->
  Py.split "." key = [s; k] ->
  get env h cm key default =
  inr match getenv (env_key key) env with
      | Some ev => VStr ev
      | None =>
          match file_value h1 (_config cm) s k with
          | Some fv => fv
          | None =>
              match builtin_default s k with
              | Some dv => if fillable h1 (_config cm) s then dv else default
              | None => default
              end
          end
      end.
Proof.
  intros Hinit Hload Hclosed Hapart Hkey.
  apply init_steps in Hinit as (_ & _ & h1' & Hload' & Hmerge).
  rewrite Hload in Hload'. injection Hload' as <-.
  rewrite (get_of_two_levels _ _ _ _ _ _ _ Hkey).
  destruct (getenv (env_key key) env); [reflexivity|].
  destruct (set_defaults_needs_dict _ _ _ Hmerge) as (root & d & Hc & Hroot).
  rewrite Hc in *.
  destruct (apart_inv _ _ _ _ _ Hapart Hroot) as (Hb & Ha & Hsep).
  unfold _set_defaults in Hmerge. rewrite Hc in Hmerge.
  rewrite (merge_sections_result s k root defaults defaults_distinct_sections
             h1 h d Hroot); try assumption.
  - fold (builtin_default s k).
    destruct (file_value h1 (VRef root) s k); [reflexivity|].
    destruct (builtin_default s k);
      now destruct (fillable h1 (VRef root) s).
  - intros s' a Hl. apply valid_ref.
    exact (closed_lookup _ _ _ _ _ Hclosed Hroot Hl).
Qed.

(** C10, amended.  When the environment variable of a key is set, [get]
    returns that string as it is, whatever the stored value and the
    default are, and so does every convenience property whose variable
    is set.  The string counts as true exactly when it is not empty:
    ["false"] is true. *)
Theorem env_override_is_raw_string (env : environ) (h : heap)
    (cm : ConfigManager) :
  (forall key ev default,
     getenv (env_key key) env = Some ev ->
     get env h cm key default = inr (VStr ev) /\
     truthy h (VStr ev) = negb (ev =? "")) /\
  (forall property var ev,
     In (property, var) properties ->
     getenv var env = Some ev ->
     property env h cm = inr (VStr ev) /\
     truthy h (VStr ev) = negb (ev =? "")).
Proof.
  split.
  - intros key ev default Henv. split; [|reflexivity].
    now apply get_reads_environment_first.
  - intros property var ev Hin Henv. split; [|reflexivity].
    cbn [properties In] in Hin.
    repeat (destruct Hin as [[= <- <-]|Hin];
            [apply get_reads_environment_first; unfold env_key;
             rewrite str_upper_ascii by reflexivity; exact Henv|]).
    contradiction.
Qed.

(** [get] never raises: the two exceptions a lookup can end in are the
    two it catches.  Its answer is the environment variable of the key
    when that is set, else the value found under the keys, else the
    default argument. *)
Theorem get_never_raises (env : environ) (h : heap) (cm : ConfigManager)
    (key : string) (default : value) :
  get env h cm key default =
  inr match getenv (env_key key) env with
      | Some ev => VStr ev
      | None =>
          match navigate h (Py.split "." key) (_config cm) with
          | inr v => v
          | inl _ => default
          end
      end.
Proof.
  unfold get. destruct (getenv (env_key key) env); [reflexivity|].
  destruct (navigate h (Py.split "." key) (_config cm)) as [e|v] eqn:Hn;
    [|reflexivity].
  destruct (navigate_raises _ _ _ _ Hn) as [->|[k ->]]; reflexivity.
Qed.

End Precedence.

(** *** [set] *)

(** One round of the loop of [set] that comes through: the configuration
    is a dictionary, and the next level is the one it had under the key or
    a new, empty dictionary hung in under the key. *)
Lemma level_inv (h h1 : heap) (c child : value) (k : string) :
  ensure h c k = (h1, inr tt) ->
  getitem h1 c k = inr child ->
  exists a d,
    c = VRef a /\ nth_error h a = Some (ODict d) /\
    ((lookup k d = Some child /\ h1 = h)
     \/
     (lookup k d = None /\ child = VRef (length h) /\
      h1 = (store a (ODict (put k (VRef (length h)) d)) h
            ++ [ODict []])%list)).
Proof.
  unfold ensure.
  destruct c as [| | |t| |a]; cbn [contains]; try discriminate.
  destruct (nth_error h a) as [[d|l|l]|] eqn:Ha; try discriminate.
  - pose proof (nth_error_lt _ _ _ Ha) as Hlt.
    rewrite mem_lookup. destruct (lookup k d) as [x|] eqn:Hk.
    + intros [= <-]. unfold getitem. cbn [fetch]. rewrite Ha, Hk.
      intros [= <-]. exists a, d. split; [reflexivity|]. split; [exact Ha|].
      left. now split.
    + cbn [alloc]. unfold setitem. rewrite (alloc_old _ _ _ Hlt), Ha.
      intros [= <-]. unfold getitem. cbn [fetch].
      rewrite store_hit by (rewrite length_app; cbn; lia).
      rewrite lookup_put_same. intros [= <-].
      exists a, d. split; [reflexivity|]. split; [exact Ha|].
      right. split; [exact Hk|]. split; [reflexivity|].
      now apply store_app.
  - destruct (has_string k l).
    + intros [= <-]. unfold getitem. cbn [fetch]. rewrite Ha. discriminate.
    + cbn [alloc]. unfold setitem.
      rewrite (alloc_old _ _ _ (nth_error_lt _ _ _ Ha)), Ha. discriminate.
  - destruct (has_string k l).
    + intros [= <-]. unfold getitem. cbn [fetch]. rewrite Ha. discriminate.
    + cbn [alloc]. unfold setitem.
      rewrite (alloc_old _ _ _ (nth_error_lt _ _ _ Ha)), Ha. discriminate.
Qed.

Lemma set_path_last (k : string) (v c : value) (h : heap) :
  set_path [k] v c h =
  match setitem h c k v with
  | inl e => (h, inl e)
  | inr h' => (h', inr tt)
  end.
Proof. reflexivity. Qed.

Lemma set_path_level (k k2 : string) (rest : list string) (v c : value)
    (h : heap) :
  set_path (k :: k2 :: rest) v c h =
  match ensure h c k with
  | (h1, inl e) => (h1, inl e)
  | (h1, inr _) =>
      match getitem h1 c k with
      | inl e => (h1, inl e)
      | inr child => set_path (k2 :: rest) v child h1
      end
  end.
Proof. reflexivity. Qed.

Lemma setitem_stores (h h' : heap) (c : value) (k : string) (v : value) :
  setitem h c k v = inr h' ->
  exists a d,
    c = VRef a /\ nth_error h a = Some (ODict d) /\
    h' = store a (ODict (put k v d)) h.
Proof.
  unfold setitem. destruct c as [| | | | |a]; try discriminate.
  destruct (nth_error h a) as [[d|l|l]|] eqn:Ha; try discriminate.
  intros [= <-]. now exists a, d.
Qed.

(** Below a new, empty dictionary every level is made: [set] comes
    through, the value is found under the keys, and no object that was
    there before is touched. *)
Lemma set_path_on_new (v : value) :
  forall keys h0,
    keys <> [] ->
    exists h',
      set_path keys v (VRef (length h0)) (h0 ++ [ODict []])%list
      = (h', inr tt) /\
      navigate h' keys (VRef (length h0)) = inr v /\
      forall a, a < length h0 -> nth_error h' a = nth_error h0 a.
Proof.
  induction keys as [|k rest IH]; intros h0 Hne; [contradiction|].
  destruct rest as [|k2 rest].
  - rewrite set_path_last. unfold setitem. rewrite alloc_new.
    eexists. split; [reflexivity|]. split.
    + cbn [navigate]. unfold getitem. cbn [fetch].
      rewrite store_hit by (rewrite length_app; cbn; lia).
      cbn [put]. rewrite lookup_cons, String.eqb_refl. reflexivity.
    + intros a Ha. rewrite store_miss by lia. now apply alloc_old.
  - rewrite set_path_level. unfold ensure, contains. rewrite alloc_new.
    cbn [mem lookup Py.assoc alloc]. unfold setitem.
    assert (Hn : length h0 < length (h0 ++ [ODict []])%list)
      by (rewrite length_app; cbn; lia).
    rewrite (alloc_old _ _ _ Hn), alloc_new. cbn [put].
    rewrite (store_app _ _ _ _ Hn).
    set (h1 := store (length h0)
                 (ODict [(k, VRef (length (h0 ++ [ODict []])%list))])
                 (h0 ++ [ODict []])%list).
    assert (Hlen : length h1 = length (h0 ++ [ODict []])%list)
      by (unfold h1; apply store_length).
    assert (Hobj : nth_error h1 (length h0)
                   = Some (ODict [(k, VRef (length h1))])).
    { rewrite Hlen. unfold h1. now apply store_hit. }
    assert (Hn1 : length h0 < length h1) by (rewrite Hlen; exact Hn).
    unfold getitem at 1. cbn [fetch].
    rewrite (alloc_old _ _ _ Hn1), Hobj.
    rewrite lookup_cons, String.eqb_refl.
    destruct (IH h1 ltac:(discriminate)) as (h' & Hset & Hnav & Hframe).
    exists h'. split; [exact Hset|]. split.
    + change (navigate h' (k :: k2 :: rest) (VRef (length h0)))
        with (match getitem h' (VRef (length h0)) k with
              | inl e => inl e
              | inr x => navigate h' (k2 :: rest) x
              end).
      unfold getitem at 1. cbn [fetch].
      rewrite (Hframe _ Hn1), Hobj.
      rewrite lookup_cons, String.eqb_refl. exact Hnav.
    + intros a Ha. rewrite Hframe by lia. unfold h1.
      rewrite store_miss by lia. now apply alloc_old.
Qed.

(** [set] that comes through rebinds one key of one dictionary that was
    there before, the item [written] names, and touches no other object
    that was there before. *)
Lemma set_path_writes (v : value) :
  forall keys c h h',
    set_path keys v c h = (h', inr tt) ->
    exists a k x d,
      written h keys c = Some (a, k) /\
      nth_error h a = Some (ODict d) /\
      nth_error h' a = Some (ODict (put k x d)) /\
      forall b, b < length h -> b <> a -> nth_error h' b = nth_error h b.
Proof.
  induction keys as [|k rest IH]; intros c h h' Hs; [discriminate|].
  destruct rest as [|k2 rest].
  - rewrite set_path_last in Hs.
    destruct (setitem h c k v) as [e|h2] eqn:Hi; [discriminate|].
    injection Hs as <-.
    apply setitem_stores in Hi as (a & d & -> & Ha & ->).
    exists a, k, v, d. split; [reflexivity|]. split; [exact Ha|].
    split; [apply store_hit; exact (nth_error_lt _ _ _ Ha)|].
    intros b _ Hb. now apply store_miss.
  - rewrite set_path_level in Hs.
    destruct (ensure h c k) as [h1 [e|[]]] eqn:He; [discriminate|].
    destruct (getitem h1 c k) as [e|child] eqn:Hg; [discriminate|].
    destruct (level_inv _ _ _ _ _ He Hg)
      as (a & d & -> & Ha & [[Hk ->] | (Hk & -> & ->)]).
    + (* the level was there *)
      destruct (IH _ _ _ Hs) as (a' & k' & x & d' & Hw & Hrest).
      exists a', k', x, d'. split; [|exact Hrest].
      cbn [written]. now rewrite Hg.
    + (* the level is made *)
      pose proof (nth_error_lt _ _ _ Ha) as Hlt.
      set (o := ODict (put k (VRef (length h)) d)) in *.
      destruct (set_path_on_new v (k2 :: rest) (store a o h)
                  ltac:(discriminate)) as (h2 & Hset & _ & Hframe).
      rewrite store_length in Hset. rewrite Hset in Hs. injection Hs as <-.
      rewrite store_length in Hframe.
      exists a, k, (VRef (length h)), d.
      split.
      { cbn [written]. unfold getitem. cbn [fetch]. now rewrite Ha, Hk. }
      split; [exact Ha|]. split.
      * rewrite (Hframe _ Hlt). now apply store_hit.
      * intros b Hb Hne. rewrite (Hframe _ Hb). now apply store_miss.
Qed.

Lemma written_on_trail (h : heap) :
  forall keys c a k,
    written h keys c = Some (a, k) -> In a (trail h keys c).
Proof.
  induction keys as [|k0 rest IH]; intros c a k; [discriminate|].
  cbn [written trail]. destruct c as [| | | | |b]; try discriminate.
  destruct rest as [|k2 rest].
  - intros [= <- _]. now left.
  - destruct (getitem h (VRef b) k0) as [e|child].
    + intros [= <- _]. now left.
    + intros Hw. right. exact (IH _ _ _ Hw).
Qed.

Lemma distinct_cons (a : address) (l : list address) :
  distinct (a :: l) = true -> ~ In a l /\ distinct l = true.
Proof.
  cbn [distinct]. intros Hd. apply andb_prop in Hd as [Hn Hd].
  split; [|exact Hd]. intros Hin.
  assert (Hex : existsb (Nat.eqb a) l = true)
    by (apply existsb_exists; exists a; split; [exact Hin | apply Nat.eqb_refl]).
  now rewrite Hex in Hn.
Qed.

(** When no dictionary is met twice on the way down, the value set is
    found under the keys. *)
Lemma navigate_after_set_path (v : value) :
  forall keys c h h',
    set_path keys v c h = (h', inr tt) ->
    distinct (trail h keys c) = true ->
    navigate h' keys c = inr v.
Proof.
  induction keys as [|k rest IH]; intros c h h' Hs Hd; [discriminate|].
  destruct rest as [|k2 rest].
  - rewrite set_path_last in Hs.
    destruct (setitem h c k v) as [e|h2] eqn:Hi; [discriminate|].
    injection Hs as <-.
    apply setitem_stores in Hi as (a & d & -> & Ha & ->).
    cbn [navigate]. unfold getitem. cbn [fetch].
    rewrite store_hit by exact (nth_error_lt _ _ _ Ha).
    now rewrite lookup_put_same.
  - rewrite set_path_level in Hs.
    destruct (ensure h c k) as [h1 [e|[]]] eqn:He; [discriminate|].
    destruct (getitem h1 c k) as [e|child] eqn:Hg; [discriminate|].
    destruct (level_inv _ _ _ _ _ He Hg)
      as (a & d & -> & Ha & [[Hk ->] | (Hk & -> & ->)]).
    + (* the level was there *)
      cbn [trail] in Hd. rewrite Hg in Hd.
      apply distinct_cons in Hd as [Hnotin Hd].
      destruct (set_path_writes v _ _ _ _ Hs)
        as (a' & k' & x & d' & Hw & _ & _ & Hframe).
      assert (Hne : a <> a').
      { intros ->. exact (Hnotin (written_on_trail _ _ _ _ _ Hw)). }
      change (navigate h' (k :: k2 :: rest) (VRef a))
        with (match getitem h' (VRef a) k with
              | inl e => inl e
              | inr x => navigate h' (k2 :: rest) x
              end).
      unfold getitem at 1. cbn [fetch].
      rewrite (Hframe a (nth_error_lt _ _ _ Ha) Hne), Ha, Hk.
      exact (IH _ _ _ Hs Hd).
    + (* the level is made *)
      pose proof (nth_error_lt _ _ _ Ha) as Hlt.
      set (o := ODict (put k (VRef (length h)) d)) in *.
      destruct (set_path_on_new v (k2 :: rest) (store a o h)
                  ltac:(discriminate)) as (h2 & Hset & Hnav & Hframe).
      rewrite store_length in Hset, Hnav, Hframe.
      rewrite Hset in Hs. injection Hs as <-.
      change (navigate h2 (k :: k2 :: rest) (VRef a))
        with (match getitem h2 (VRef a) k with
              | inl e => inl e
              | inr x => navigate h2 (k2 :: rest) x
              end).
      unfold getitem at 1. cbn [fetch].
      rewrite (Hframe _ Hlt), (store_hit _ _ _ Hlt). unfold o.
      rewrite lookup_put_same. exact Hnav.
Qed.

(** A lookup that asks for no item that was rebound goes as before. *)
Lemma navigate_around (h h' : heap) (a : address) (kw : string) (x : value)
    (d : items) :
  closed h = true ->
  nth_error h a = Some (ODict d) ->
  nth_error h' a = Some (ODict (put kw x d)) ->
  (forall b, b < length h -> b <> a -> nth_error h' b = nth_error h b) ->
  forall keys c,
    valid h c = true ->
    existsb (same_item (a, kw)) (reads h keys c) = false ->
    navigate h' keys c = navigate h keys c.
Proof.
  intros Hclosed Ha Ha' Hframe.
  induction keys as [|k rest IH]; intros c Hv Hr; [reflexivity|].
  cbn [navigate].
  assert (Hsame : getitem h' c k = getitem h c k
                  /\ forall child, getitem h c k = inr child ->
                       valid h child = true /\
                       existsb (same_item (a, kw)) (reads h rest child)
                       = false).
  { destruct c as [| | | | |b]; try (split; [reflexivity | discriminate]).
    apply valid_ref in Hv. cbn [reads existsb] in Hr.
    apply orb_false_elim in Hr as [Hitem Hr].
    split.
    - unfold getitem. cbn [fetch].
      destruct (Nat.eq_dec b a) as [->|Hne].
      + rewrite Ha, Ha'. unfold same_item in Hitem. cbn [fst snd] in Hitem.
        rewrite Nat.eqb_refl in Hitem. cbn [andb] in Hitem.
        rewrite lookup_put_other; [reflexivity|].
        intros ->. now rewrite String.eqb_refl in Hitem.
      + now rewrite (Hframe b Hv Hne).
    - intros child Hg. rewrite Hg in Hr. split; [|exact Hr].
      unfold getitem in Hg. cbn [fetch] in Hg.
      destruct (nth_error h b) as [[db|l|l]|] eqn:Hb; try discriminate.
      destruct (lookup k db) as [y|] eqn:Hk; [|discriminate].
      injection Hg as <-. exact (closed_lookup _ _ _ _ _ Hclosed Hb Hk). }
  destruct Hsame as [-> Hchild].
  destruct (getitem h c k) as [e|child]; [reflexivity|].
  destruct (Hchild child eq_refl) as [Hvc Hrc]. now apply IH.
Qed.

Section Assignments.
Context `{Casing}.

(** After a [set] that came through, and without an environment variable
    of the key's name, [get] of the same key returns the value set,
    provided no dictionary is met twice on the way down the keys. *)
Theorem get_after_set (env : environ) (h h' : heap) (cm : ConfigManager)
    (key : string) (v default : value) :
  getenv (env_key key) env = None ->
  distinct (trail h (Py.split "." key) (_config cm)) = true ->
  set h cm key v = (h', inr tt) ->
  get env h' cm key default = inr v.
Proof.
  intros Henv Hd Hset. unfold get. rewrite Henv.
  now rewrite (navigate_after_set_path v _ _ _ _ Hset Hd).
Qed.

(** [set] changes what [get] answers only through the one item it
    rebinds: a key whose lookup does not ask for that item reads as
    before. *)
Theorem set_keeps_other_keys (env : environ) (h h' : heap)
    (cm : ConfigManager) (key key' : string) (v default : value) :
  closed h = true ->
  valid h (_config cm) = true ->
  set h cm key v = (h', inr tt) ->
  disturbs h (Py.split "." key) (Py.split "." key') (_config cm) = false ->
  get env h' cm key' default = get env h cm key' default.
Proof.
  intros Hclosed Hv Hset Hd. unfold set in Hset.
  destruct (set_path_writes v _ _ _ _ Hset)
    as (a & k & x & d & Hw & Ha & Ha' & Hframe).
  unfold disturbs in Hd. rewrite Hw in Hd.
  unfold get.
  now rewrite (navigate_around h h' a k x d Hclosed Ha Ha' Hframe _ _ Hv Hd).
Qed.

End Assignments.

(** *** [update_section] *)

Lemma dict_update_step (k : string) (v : value) (values d : items) :
  dict_update ((k, v) :: values) d = dict_update values (put k v d).
Proof. reflexivity. Qed.

(** After [d.update(values)] a key reads as in [values], and as in [d]
    when [values] has no item for it. *)
Lemma lookup_dict_update (k : string) (values : items) :
  NoDup (map fst values) ->
  forall d,
    lookup k (dict_update values d) =
    match lookup k values with
    | Some v => Some v
    | None => lookup k d
    end.
Proof.
  induction values as [|[k0 v0] r IH]; intros Hnd d; [reflexivity|].
  cbn [map fst] in Hnd. apply NoDup_cons_iff in Hnd as [Hnotin Hnd].
  rewrite dict_update_step, (IH Hnd), lookup_cons.
  destruct (String.eqb_spec k0 k) as [->|Hne].
  - rewrite (lookup_not_in _ _ Hnotin). apply lookup_put_same.
  - destruct (lookup k r); [reflexivity|]. now apply lookup_put_other.
Qed.

(** The ways [update_section] comes through: the section was a
    dictionary or a set and is updated where it is, or it was missing and
    a new dictionary with the values is hung in. *)
Lemma update_section_ways (h h' : heap) (cm : ConfigManager)
    (section : string) (values : items) :
  update_section h cm section values = (h', inr tt) ->
  exists root d,
    _config cm = VRef root /\ nth_error h root = Some (ODict d) /\
    ((exists a sd,
        lookup section d = Some (VRef a) /\
        nth_error h a = Some (ODict sd) /\
        h' = store a (ODict (dict_update values sd)) h)
     \/
     (exists a l,
        lookup section d = Some (VRef a) /\
        nth_error h a = Some (OSet l) /\
        h' = store a (OSet (set_update (map fst values) l)) h)
     \/
     (lookup section d = None /\
      h' = store (length h) (ODict (dict_update values []))
             (store root (ODict (put section (VRef (length h)) d)) h
              ++ [ODict []])%list)).
Proof.
  unfold update_section.
  destruct (ensure h (_config cm) section) as [h1 [e|[]]] eqn:He;
    [discriminate|].
  destruct (getitem h1 (_config cm) section) as [e|sec] eqn:Hg;
    [discriminate|].
  destruct (level_inv _ _ _ _ _ He Hg)
    as (root & d & Hc & Hroot & [[Hk ->] | (Hk & -> & ->)]).
  - unfold update. destruct sec as [| | | | |a]; try discriminate.
    destruct (nth_error h a) as [[sd|l|l]|] eqn:Ha; try discriminate.
    + intros [= <-]. exists root, d. split; [exact Hc|]. split; [exact Hroot|].
      left. now exists a, sd.
    + intros [= <-]. exists root, d. split; [exact Hc|]. split; [exact Hroot|].
      right. left. now exists a, l.
  - unfold update.
    rewrite nth_error_app2 by (rewrite store_length; lia).
    rewrite store_length, Nat.sub_diag. cbn [nth_error]. intros [= <-].
    exists root, d. split; [exact Hc|]. split; [exact Hroot|].
    right. right. now split.
Qed.

(** [update_section] comes through exactly on a configuration that is a
    dictionary in which the section is missing, a dictionary or a set.
    On a section that is anything else it raises AttributeError and
    nothing is changed; on a configuration that is no dictionary it
    raises TypeError, and no object that was there is changed (the empty
    dictionary that could not be hung in is left over). *)
Theorem update_section_outcome (h : heap) (cm : ConfigManager)
    (section : string) (values : items) :
  match fetch h (_config cm) with
  | Some (ODict d) =>
      match lookup section d with
      | None => exists h', update_section h cm section values = (h', inr tt)
      | Some sec =>
          match fetch h sec with
          | Some (ODict _) | Some (OSet _) =>
              exists h', update_section h cm section values = (h', inr tt)
          | _ => update_section h cm section values
                 = (h, inl AttributeError)
          end
      end
  | _ =>
      exists h',
        update_section h cm section values = (h', inl TypeError) /\
        (h' = h \/ h' = (h ++ [ODict []])%list)
  end.
Proof.
  unfold update_section, ensure.
  destruct (_config cm) as [| | |t| |root]; cbn [fetch contains];
    try (eexists; split; [reflexivity | now left]).
  - destruct (Py.is_infix section t); cbn;
      eexists; (split; [reflexivity|]); [now left | now right].
  - destruct (nth_error h root) as [[d|l|l]|] eqn:Hroot.
    + pose proof (nth_error_lt _ _ _ Hroot) as Hlt.
      rewrite mem_lookup. destruct (lookup section d) as [sec|] eqn:Hs.
      * unfold getitem. cbn [fetch]. rewrite Hroot, Hs. unfold update.
        destruct sec as [| | | | |a]; cbn [fetch]; try reflexivity.
        destruct (nth_error h a) as [[sd|l|l]|]; try reflexivity;
          now eexists.
      * cbn [alloc]. unfold setitem. rewrite (alloc_old _ _ _ Hlt), Hroot.
        unfold getitem. cbn [fetch].
        rewrite store_hit by (rewrite length_app; cbn; lia).
        rewrite lookup_put_same. unfold update.
        rewrite store_miss by lia. rewrite alloc_new. now eexists.
    + destruct (has_string section l).
      * unfold getitem. cbn [fetch]. rewrite Hroot.
        eexists. split; [reflexivity | now left].
      * cbn [alloc]. unfold setitem.
        rewrite (alloc_old _ _ _ (nth_error_lt _ _ _ Hroot)), Hroot.
        eexists. split; [reflexivity | now right].
    + destruct (has_string section l).
      * unfold getitem. cbn [fetch]. rewrite Hroot.
        eexists. split; [reflexivity | now left].
      * cbn [alloc]. unfold setitem.
        rewrite (alloc_old _ _ _ (nth_error_lt _ _ _ Hroot)), Hroot.
        eexists. split; [reflexivity | now right].
    + eexists. split; [reflexivity | now left].
Qed.

(** What the section methods leave of a two-level key. *)
Lemma file_value_after_update (h h' : heap) (cm : ConfigManager)
    (section : string) (values : items) (s k : string) :
  NoDup (map fst values) ->
  closed h = true ->
  section_value h (_config cm) section <> Some (_config cm) ->
  section_value h (_config cm) s <> Some (_config cm) ->
  update_section h cm section values = (h', inr tt) ->
  file_value h' (_config cm) s k =
  if shares h' (_config cm) s section
  then match lookup k values with
       | Some v => Some v
       | None => file_value h (_config cm) s k
       end
  else file_value h (_config cm) s k.
Proof.
  intros Hnd Hclosed Hl1 Hl2 Hup.
  destruct (update_section_ways _ _ _ _ _ Hup)
    as (root & d & Hc & Hroot
        & [(a & sd & Hs & Ha & ->) | [(a & l & Hs & Ha & ->) | (Hs & ->)]]);
    rewrite Hc in *; unfold section_value in Hl1, Hl2; cbn [fetch] in Hl1, Hl2;
    rewrite Hroot in Hl1, Hl2;
    pose proof (nth_error_lt _ _ _ Hroot) as Hlt.
  - (* a dictionary is updated *)
    assert (Hne : a <> root) by (intros ->; now apply Hl1).
    pose proof (nth_error_lt _ _ _ Ha) as Hla.
    unfold shares, file_value, section_value. cbn [fetch].
    rewrite store_miss by congruence. rewrite Hroot, Hs.
    destruct (lookup s d) as [[| | | | |b]|]; try reflexivity.
    cbn [fetch]. destruct (Nat.eqb_spec b a) as [->|Hb].
    + rewrite (store_hit _ _ _ Hla), Ha. cbn [andb].
      rewrite (lookup_dict_update _ _ Hnd).
      now destruct (lookup k values).
    + cbn [andb]. now rewrite store_miss by exact Hb.
  - (* a set is updated *)
    assert (Hne : a <> root) by (intros ->; now apply Hl1).
    pose proof (nth_error_lt _ _ _ Ha) as Hla.
    unfold shares, file_value, section_value. cbn [fetch].
    rewrite store_miss by congruence. rewrite Hroot, Hs.
    destruct (lookup s d) as [[| | | | |b]|]; try reflexivity.
    cbn [fetch]. rewrite (store_hit _ _ _ Hla).
    destruct (Nat.eqb_spec b a) as [->|Hb]; cbn [andb].
    + now rewrite (store_hit _ _ _ Hla), Ha.
    + now rewrite store_miss by exact Hb.
  - (* a new section *)
    set (n := length h) in *.
    set (d2 := put section (VRef n) d).
    set (h1 := (store root (ODict d2) h ++ [ODict []])%list).
    assert (Hlen1 : length h1 = S n).
    { unfold h1. rewrite length_app, store_length. cbn. lia. }
    assert (Hroot' : nth_error (store n (ODict (dict_update values [])) h1)
                       root = Some (ODict d2)).
    { rewrite store_miss by lia. unfold h1.
      rewrite alloc_old by (rewrite store_length; exact Hlt).
      now apply store_hit. }
    assert (Hnew : nth_error (store n (ODict (dict_update values [])) h1) n
                   = Some (ODict (dict_update values []))).
    { apply store_hit. lia. }
    assert (Hold : forall b, b < n -> b <> root ->
               nth_error (store n (ODict (dict_update values [])) h1) b
               = nth_error h b).
    { intros b Hb Hbr. rewrite store_miss by lia. unfold h1.
      rewrite alloc_old by (rewrite store_length; exact Hb).
      now apply store_miss. }
    unfold shares, file_value, section_value. cbn [fetch].
    rewrite Hroot', Hroot.
    assert (Hsec2 : lookup section d2 = Some (VRef n))
      by apply lookup_put_same.
    rewrite Hsec2.
    destruct (String.eqb_spec section s) as [<-|Hdiff].
    + rewrite Hsec2. cbn [fetch].
      rewrite Nat.eqb_refl, Hnew. cbn [andb].
      rewrite (lookup_dict_update _ _ Hnd), Hs.
      now destruct (lookup k values).
    + unfold d2. rewrite lookup_put_other by exact Hdiff.
      destruct (lookup s d) as [[| | | | |b]|] eqn:Hsd; try reflexivity.
      cbn [fetch].
      pose proof (valid_ref _ _ (closed_lookup _ _ _ _ _ Hclosed Hroot Hsd))
        as Hb. fold n in Hb.
      destruct (Nat.eqb_spec b n) as [->|_]; [lia|]. cbn [andb].
      rewrite Hold; [reflexivity | exact Hb|].
      intros ->. now apply Hl2.
Qed.

Section Sections.
Context `{Casing}.

(** After [update_section(section, values)], and without an environment
    variable in the way, a two-level key reads as in [values] when the
    configuration holds the updated dictionary under the first level and
    [values] has the second; every other two-level key reads as before.
    Neither of the two top-level values may be the configuration
    itself. *)
Theorem update_section_then_get (env : environ) (h h' : heap)
    (cm : ConfigManager) (section : string) (values : items)
    (key s k : string) (default : value) :
  NoDup (map fst values) ->
  closed h = true ->
  section_value h (_config cm) section <> Some (_config cm) ->
  section_value h (_config cm) s <> Some (_config cm) ->
  update_section h cm section values = (h', inr tt) ->
  Py.split "." key = [s; k] ->
  getenv (env_key key) env = None ->
  get env h' cm key default =
  if shares h' (_config cm) s section
  then match lookup k values with
       | Some v => inr v
       | None => get env h cm key default
       end
  else get env h cm key default.
Proof.
  intros Hnd Hclosed Hl1 Hl2 Hup Hkey Henv.
  rewrite !(get_of_two_levels _ _ _ _ _ _ _ Hkey), Henv.
  rewrite (file_value_after_update _ _ _ _ _ s k Hnd Hclosed Hl1 Hl2 Hup).
  destruct (shares h' (_config cm) s section); [|reflexivity].
  now destruct (lookup k values).
Qed.

End Sections.

(** *** The .env file *)









(** *** Runs on ASCII keys *)

#[local] Existing Instance ascii_casing.

(** C4, the claim as stated fails: [app.url] has a built-in default, no
    environment variable and no file value, and [get("app.url", "")]
    answers the built-in default, not the argument [""]. *)
Lemma get_prefers_builtin_default_to_argument :
  exists h cm,
    __init__ None no_files [] fresh_heap fresh = ([], (h, inr cm)) /\
    getenv (env_key "app.url") [] = None /\
    file_value fresh_heap (_config fresh) "app" "url" = None /\
    builtin_default "app" "url" = Some (VStr "https://www.saucedemo.com") /\
    get [] h cm "app.url" (VStr "") = inr (VStr "https://www.saucedemo.com") /\
    get [] h cm "app.url" (VStr "") <> inr (VStr "").
Proof. do 2 eexists. repeat split. discriminate. Qed.

Lemma get_precedence_witness :
  exists h cm,
    __init__ None dev_file [("APP_ENV", "staging")] fresh_heap fresh
    = ([("APP_ENV", "staging")], (h, inr cm)) /\
    get [("APP_ENV", "staging")] h cm "app.env" VNone = inr (VStr "staging") /\
    get [("APP_ENV", "staging")] h cm "browser.type" (VStr "edge")
    = inr (VStr "firefox") /\
    get [("APP_ENV", "staging")] h cm "browser.timeout" (VInt 99)
    = inr (VInt 10) /\
    get [("APP_ENV", "staging")] h cm "browser.color" (VStr "red")
    = inr (VStr "red").
Proof.
  pose (env := [("APP_ENV", "staging")] : environ).
  pose (out := __init__ None dev_file env fresh_heap fresh).
  pose (h := fst (snd out)).
  pose (h1 := fst (_load_config_file dev_file env fresh_heap (_config fresh))).
  pose (cm := {| _initialized := true; _config := VRef 1 |}).
  assert (Hinit : __init__ None dev_file env fresh_heap fresh
                  = (env, (h, inr cm))) by reflexivity.
  assert (Hload : _load_config_file dev_file env fresh_heap (_config fresh)
                  = (h1, _config cm)) by reflexivity.
  assert (Hclosed : closed h1 = true) by reflexivity.
  exists h, cm. split; [exact Hinit|].
  split; [|split; [|split]].
  - exact (get_precedence None dev_file env env h1 h cm "app.env" "app" "env"
             VNone Hinit Hload Hclosed eq_refl eq_refl).
  - exact (get_precedence None dev_file env env h1 h cm "browser.type"
             "browser" "type" (VStr "edge") Hinit Hload Hclosed eq_refl
             eq_refl).
  - exact (get_precedence None dev_file env env h1 h cm "browser.timeout"
             "browser" "timeout" (VInt 99) Hinit Hload Hclosed eq_refl
             eq_refl).
  - exact (get_precedence None dev_file env env h1 h cm "browser.color"
             "browser" "color" (VStr "red") Hinit Hload Hclosed eq_refl
             eq_refl).
Defined.

(** Why the section must stand apart: with [browser] and [app] one
    dictionary, the defaults of both sections are filled into it, and
    [browser.url], which has neither a file value nor a built-in default,
    reads as the default of [app.url]. *)
Example aliased_sections_share_defaults :
  exists h cm,
    __init__ None aliased_file [] fresh_heap fresh = ([], (h, inr cm)) /\
    apart defaults
      (fst (_load_config_file aliased_file [] fresh_heap (_config fresh)))
      (_config cm) "browser" = false /\
    file_value
      (fst (_load_config_file aliased_file [] fresh_heap (_config fresh)))
      (_config cm) "browser" "url" = None /\
    builtin_default "browser" "url" = None /\
    get [] h cm "browser.url" (VStr "none")
    = inr (VStr "https://www.saucedemo.com").
Proof. do 2 eexists. repeat split. Qed.

(** Why the section must be absent or a mapping for the default to show:
    [key not in "text"] is a substring test, so a text section that
    happens to contain the names passes [_set_defaults] untouched, and
    the lookup below it fails. *)
Example default_not_filled_into_text :
  let file name :=
    if name =? "dev"
    then Some ([ODict [("browser",
                        VStr "type headless timeout page_load_timeout")]],
               VRef 0)
    else None in
  exists h cm,
    __init__ None file [] fresh_heap fresh = ([], (h, inr cm)) /\
    builtin_default "browser" "type" = Some (VStr "chrome") /\
    get [] h cm "browser.type" (VStr "edge") = inr (VStr "edge").
Proof. do 2 eexists. repeat split. Qed.

(** C10, the claim as stated fails: an environment variable can be set to
    the empty string, and then the property returns the empty string,
    which is false as a condition. *)
Lemma headless_env_empty_string :
  getenv "BROWSER_HEADLESS" [("BROWSER_HEADLESS", "")] = Some "" /\
  headless [("BROWSER_HEADLESS", "")] stock_heap stock = inr (VStr "") /\
  truthy stock_heap (VStr "") = false.
Proof. repeat split. Qed.

Lemma env_override_is_raw_string_witness :
  headless [("BROWSER_HEADLESS", "false")] stock_heap stock
  = inr (VStr "false") /\
  truthy stock_heap (VStr "false") = true /\
  get [("REPORTING_SLACK_CHANNEL", "#qa")] stock_heap stock
    "reporting.slack.channel" (VInt 0) = inr (VStr "#qa").
Proof.
  destruct (env_override_is_raw_string [("BROWSER_HEADLESS", "false")]
              stock_heap stock) as [_ Hproperty].
  destruct (Hproperty headless "BROWSER_HEADLESS" "false"
              (or_intror (or_introl eq_refl)) eq_refl) as [Hp Ht].
  split; [exact Hp|]. split; [exact Ht|].
  destruct (env_override_is_raw_string [("REPORTING_SLACK_CHANNEL", "#qa")]
              stock_heap stock) as [Hkey _].
  exact (proj1 (Hkey "reporting.slack.channel" "#qa" (VInt 0) eq_refl)).
Defined.

Lemma get_after_set_witness :
  exists h',
    set stock_heap stock "reporting.slack.channel" (VStr "#qa")
    = (h', inr tt) /\
    get [("BROWSER_TYPE", "edge")] h' stock "reporting.slack.channel" VNone
    = inr (VStr "#qa").
Proof.
  pose (h' := fst (set stock_heap stock "reporting.slack.channel"
                     (VStr "#qa"))).
  assert (Hset : set stock_heap stock "reporting.slack.channel" (VStr "#qa")
                 = (h', inr tt)) by reflexivity.
  exists h'. split; [exact Hset|].
  exact (get_after_set [("BROWSER_TYPE", "edge")] stock_heap h' stock
           "reporting.slack.channel" (VStr "#qa") VNone eq_refl eq_refl Hset).
Defined.

(** Why no dictionary may be met twice: in a configuration that holds
    itself under [a], [set("a.a", "x")] rebinds the very key it came
    through, and the lookup of [a.a] then ends at the text. *)
Example set_through_a_loop_is_lost :
  let h := [ODict [("a", VRef 0)]] in
  let cm := {| _initialized := true; _config := VRef 0 |} in
  exists h',
    set h cm "a.a" (VStr "x") = (h', inr tt) /\
    distinct (trail h (Py.split "." "a.a") (_config cm)) = false /\
    get [] h' cm "a.a" VNone = inr VNone.
Proof. eexists. repeat split. Qed.

Lemma set_keeps_other_keys_witness :
  exists h cm h',
    __init__ None aliased_file [] fresh_heap fresh = ([], (h, inr cm)) /\
    set h cm "browser.type" (VStr "edge") = (h', inr tt) /\
    get [] h' cm "browser.headless" VNone = inr (VBool false) /\
    get [] h' cm "logging.level" VNone = inr (VStr "INFO").
Proof.
  pose (out := __init__ None aliased_file [] fresh_heap fresh).
  pose (h := fst (snd out)).
  pose (cm := {| _initialized := true; _config := VRef 1 |}).
  pose (h' := fst (set h cm "browser.type" (VStr "edge"))).
  assert (Hset : set h cm "browser.type" (VStr "edge") = (h', inr tt))
    by reflexivity.
  exists h, cm, h'. split; [reflexivity|]. split; [exact Hset|]. split.
  - rewrite (set_keeps_other_keys [] h h' cm "browser.type"
               "browser.headless" (VStr "edge") VNone
               eq_refl eq_refl Hset eq_refl).
    reflexivity.
  - rewrite (set_keeps_other_keys [] h h' cm "browser.type" "logging.level"
               (VStr "edge") VNone eq_refl eq_refl Hset eq_refl).
    reflexivity.
Defined.

(** An assignment through one name of a shared dictionary shows under
    the other name: with [browser] and [app] one dictionary,
    [set("browser.type", "edge")] changes [app.type]. *)
Example set_shows_through_alias :
  exists h cm h',
    __init__ None aliased_file [] fresh_heap fresh = ([], (h, inr cm)) /\
    set h cm "browser.type" (VStr "edge") = (h', inr tt) /\
    disturbs h (Py.split "." "browser.type") (Py.split "." "app.type")
      (_config cm) = true /\
    get [] h cm "app.type" VNone = inr (VStr "firefox") /\
    get [] h' cm "app.type" VNone = inr (VStr "edge").
Proof. do 3 eexists. repeat split. Qed.

Lemma update_section_then_get_witness :
  exists h cm h',
    __init__ None aliased_file [] fresh_heap fresh = ([], (h, inr cm)) /\
    update_section h cm "browser"
      [("type", VStr "edge"); ("proxy", VStr "localhost:8080")]
    = (h', inr tt) /\
    get [] h' cm "browser.proxy" VNone = inr (VStr "localhost:8080") /\
    get [] h' cm "app.type" VNone = inr (VStr "edge") /\
    get [] h' cm "logging.level" VNone = inr (VStr "INFO").
Proof.
  pose (values := [("type", VStr "edge"); ("proxy", VStr "localhost:8080")]).
  assert (Hnd : NoDup (map fst values))
    by (repeat (constructor; [cbn; intuition discriminate|]); constructor).
  pose (out := __init__ None aliased_file [] fresh_heap fresh).
  pose (h := fst (snd out)).
  pose (cm := {| _initialized := true; _config := VRef 1 |}).
  pose (h' := fst (update_section h cm "browser" values)).
  assert (Hup : update_section h cm "browser" values = (h', inr tt))
    by reflexivity.
  assert (Hclosed : closed h = true) by reflexivity.
  assert (Hloop : forall s,
             In s ["browser"; "app"; "logging"] ->
             section_value h (_config cm) s <> Some (_config cm)).
  { intros s [<-|[<-|[<-|[]]]]; discriminate. }
  exists h, cm, h'. split; [reflexivity|]. split; [exact Hup|].
  split; [|split].
  - rewrite (update_section_then_get [] h h' cm "browser" values
               "browser.proxy" "browser" "proxy" VNone Hnd Hclosed
               (Hloop _ (or_introl eq_refl)) (Hloop _ (or_introl eq_refl))
               Hup eq_refl eq_refl).
    reflexivity.
  - rewrite (update_section_then_get [] h h' cm "browser" values
               "app.type" "app" "type" VNone Hnd Hclosed
               (Hloop _ (or_introl eq_refl))
               (Hloop _ (or_intror (or_introl eq_refl)))
               Hup eq_refl eq_refl).
    reflexivity.
  - rewrite (update_section_then_get [] h h' cm "browser" values
               "logging.level" "logging" "level" VNone Hnd Hclosed
               (Hloop _ (or_introl eq_refl))
               (Hloop _ (or_intror (or_intror (or_introl eq_refl))))
               Hup eq_refl eq_refl).
    reflexivity.
Defined.

(** A section that YAML gives as a set takes [update] as well, and one
    that is a list does not. *)
Example update_section_on_set_and_list :
  let h := [ODict [("tags", VRef 1); ("steps", VRef 2)];
            OSet [VStr "smoke"]; OList [VStr "login"]] in
  let cm := {| _initialized := true; _config := VRef 0 |} in
  update_section h cm "tags" [("slow", VNone); ("smoke", VNone)]
  = ([ODict [("tags", VRef 1); ("steps", VRef 2)];
      OSet [VStr "smoke"; VStr "slow"]; OList [VStr "login"]], inr tt) /\
  update_section h cm "steps" [("slow", VNone)] = (h, inl AttributeError).
Proof. split; reflexivity. Qed.


End ResolverFacts.
